(** * Adaptable symplectic recurrent neural network: a shallow embedding

    Source: [adaptable_symplectic_recurrent_neural_network.py].

    The embedding follows the Python module class by class:
    - [adaptable_HNN], [adaptable_partial_HNN]: the energy estimators
      (a [nn.Sequential] of [nn.Linear]/[nn.Tanh] layers, an energy layer,
      and the input gradient obtained from [torch.autograd.grad]);
    - [adaptable_sympRNN]: the leapfrog cells [step] / [step2] and the
      rollout [forward] with its preallocated buffers;
    - [train_validate]: the training / validation loops.

    Tensors are lists (a 2-D tensor is a list of rows, a 3-D tensor a list
    of 2-D tensors, time first).  Scalar arithmetic is kept abstract in the
    class [Scalar]: every statement proved generically holds for any
    implementation of the arithmetic (floating point included); the instance
    [R_scalar] gives the idealised real-number semantics: it is used for
    concrete runs and for the statements about derivatives, which have no
    meaning on floating-point numbers.  Python exceptions are values of
    [exn], and fallible code lives in the error monad [result].

    Modelling conventions:
    - [torch.autograd.grad] is reverse-mode differentiation of the layers
      the value went through.  The modules [adaptable_HNN],
      [adaptable_partial_HNN] and [adaptable_sympRNN] work on values: they
      give what a call computes when the tensors it differentiates against
      require grad.  The module [Tracked] repeats the estimators, the cells
      and the rollout on tensors that carry their [requires_grad] flag and
      raises [RuntimeError] where [torch.autograd.grad] meets an untracked
      tensor; [forward_lifts_separable] and [forward_lifts_nonseparable]
      relate the two.  The [self.input] attribute written by the estimators
      is never read and is left out.
    - Shapes are checked exactly: a shape mismatch raises [RuntimeError];
      PyTorch's implicit broadcasting of size-1 axes is not modelled.
    - Device placement ([.to(device)]) does not change values and is left
      out.
    - The backward pass with respect to the weights and the Adam update are
      library code; [train_validate] takes them as parameters.
    - An exception discards the state of the call in progress: [result]
      carries no partially updated model. *)

From Stdlib Require Import List Arith ZArith Lia Bool Reals Lra.
Import ListNotations.

Set Implicit Arguments.

(** ** Exceptions and the error monad *)

Inductive exn : Type :=
| TypeError
| RuntimeError
| IndexError
| AttributeError
| ZeroDivisionError.

Inductive result (X : Type) : Type :=
| Ok (x : X)
| Raise (e : exn).

Arguments Ok {X} x.
Arguments Raise {X} e.

Definition bind {X Y : Type} (c : result X) (k : X -> result Y) : result Y :=
  match c with
  | Ok x => k x
  | Raise e => Raise e
  end.

Declare Scope result_scope.
Delimit Scope result_scope with result.
Notation "x <- c ;; k" := (bind c (fun x => k))
  (at level 61, c at next level, right associativity) : result_scope.
Notation "' pat <- c ;; k" := (bind c (fun x => match x with pat => k end))
  (at level 61, pat pattern, c at next level, right associativity) : result_scope.
Open Scope result_scope.

(** [for x in xs: s = body(s, x)], stopping at the first exception. *)
Fixpoint foldM {S X : Type} (body : S -> X -> result S) (xs : list X) (s : S)
  : result S :=
  match xs with
  | [] => Ok s
  | x :: xs' => s' <- body s x ;; foldM body xs' s'
  end.

Fixpoint mapM {X Y : Type} (f : X -> result Y) (xs : list X) : result (list Y) :=
  match xs with
  | [] => Ok []
  | x :: xs' => y <- f x ;; ys <- mapM f xs' ;; Ok (y :: ys)
  end.

(** ** Scalars *)

Class Scalar (A : Type) : Type := {
  s_zero : A;
  s_one : A;
  s_add : A -> A -> A;
  s_sub : A -> A -> A;
  s_mul : A -> A -> A;
  s_div : A -> A -> A;
  s_neg : A -> A;
  s_tanh : A -> A;
  s_of_Z : Z -> A   (* a Python int used as a float *)
}.

#[export] Instance R_scalar : Scalar R := {
  s_zero := 0%R;
  s_one := 1%R;
  s_add := Rplus;
  s_sub := Rminus;
  s_mul := Rmult;
  s_div := Rdiv;
  s_neg := Ropp;
  s_tanh := tanh;
  s_of_Z := IZR
}.

(** ** Tensors *)

Section Tensors.
Context {A : Type} {SA : Scalar A}.

Definition vec : Type := list A.
Definition mat : Type := list vec.
Definition tensor3 : Type := list mat.

Fixpoint map2 {X Y Z : Type} (f : X -> Y -> Z) (xs : list X) (ys : list Y)
  : list Z :=
  match xs, ys with
  | x :: xs', y :: ys' => f x y :: map2 f xs' ys'
  | _, _ => []
  end.

(** The shape of a 2-D tensor, row by row. *)
Definition shape2 (m : mat) : list nat := map (@length A) m.
Definition shape3 (t : tensor3) : list (list nat) := map shape2 t.

Definition same_shape (a b : mat) : bool :=
  if list_eq_dec Nat.eq_dec (shape2 a) (shape2 b) then true else false.

Definition same_shape3 (a b : tensor3) : bool :=
  if list_eq_dec (list_eq_dec Nat.eq_dec) (shape3 a) (shape3 b)
  then true else false.

(** [torch.zeros(batch, dim)] and [torch.zeros(n, batch, dim)]. *)
Definition zeros2 (batch dim : nat) : mat := repeat (repeat s_zero dim) batch.
Definition zeros3 (n batch dim : nat) : tensor3 := repeat (zeros2 batch dim) n.

(** Elementwise binary operations on equal shapes.  PyTorch would also
    accept shapes that differ by broadcasting; callers in this module never
    rely on it, and the model raises on any mismatch. *)
Definition mzip (f : A -> A -> A) (a b : mat) : result mat :=
  if same_shape a b then Ok (map2 (map2 f) a b) else Raise RuntimeError.

Definition madd : mat -> mat -> result mat := mzip s_add.
Definition mscale (c : A) (m : mat) : mat := map (map (s_mul c)) m.
Definition mneg (m : mat) : mat := map (map s_neg) m.

(** [torch.cat((a, b), dim=1)]. *)
Definition cat_dim1 (a b : mat) : result mat :=
  if length a =? length b then Ok (map2 (@app A) a b) else Raise RuntimeError.

(** [torch.cat((a, b), dim=2)] on 3-D tensors. *)
Definition cat_dim2 (a b : tensor3) : result tensor3 :=
  if list_eq_dec Nat.eq_dec (map (@length vec) a) (map (@length vec) b)
  then Ok (map2 (map2 (@app A)) a b)
  else Raise RuntimeError.

(** Python slicing [l[start:stop]] for integer bounds (step 1). *)
Definition slice_index (len : nat) (i : Z) : nat :=
  if (i <? 0)%Z then Z.to_nat (Z.max 0 (Z.of_nat len + i))
  else Nat.min (Z.to_nat i) len.

Definition py_slice {X : Type} (l : list X) (start stop : Z) : list X :=
  let lo := slice_index (length l) start in
  let hi := slice_index (length l) stop in
  firstn (hi - lo) (skipn lo l).

(** [buf[i]] and [buf[i] = x] on the leading axis of a 3-D buffer; the
    assigned tensor must have the shape of the slot. *)
Definition getitem (buf : tensor3) (i : nat) : result mat :=
  match nth_error buf i with
  | Some m => Ok m
  | None => Raise IndexError
  end.

Fixpoint list_set {X : Type} (l : list X) (i : nat) (x : X) : list X :=
  match l, i with
  | [], _ => []
  | _ :: l', O => x :: l'
  | y :: l', S i' => y :: list_set l' i' x
  end.

Definition setitem (buf : tensor3) (i : nat) (x : mat) : result tensor3 :=
  match nth_error buf i with
  | Some old =>
      if same_shape old x then Ok (list_set buf i x) else Raise RuntimeError
  | None => Raise IndexError
  end.

(** ** Layers: [nn.Linear], [nn.Tanh], [nn.Sequential] *)

Record Linear : Type := {
  in_features : nat;
  out_features : nat;
  weight : mat;   (* out_features rows of in_features entries *)
  bias : vec      (* out_features entries *)
}.

Definition dot (a b : vec) : A := fold_right s_add s_zero (map2 s_mul a b).

(** [y = x W^T + b] on one row. *)
Definition linear (l : Linear) (x : vec) : result vec :=
  if length x =? in_features l
  then Ok (map2 s_add (map (dot x) (weight l)) (bias l))
  else Raise RuntimeError.

(** Backward of [nn.Linear] with respect to its input: [g W]. *)
Definition linear_backward (l : Linear) (g : vec) : vec :=
  fold_right (fun gw acc => map2 s_add (map (s_mul (fst gw)) (snd gw)) acc)
             (repeat s_zero (in_features l))
             (combine g (weight l)).

(** Backward of [nn.Tanh] from its output [y]: [g * (1 - y*y)]. *)
Definition tanh_backward (y g : vec) : vec :=
  map2 (fun gi yi => s_mul gi (s_sub s_one (s_mul yi yi))) g y.

Inductive layer : Type :=
| nn_Linear (l : Linear)
| nn_Tanh.

Definition Sequential : Type := list layer.

(** A value together with the backward function of the graph that produced
    it (cotangent of the value to cotangent of the graph's input). *)
Definition traced (X : Type) : Type := (X * (X -> X))%type.

Definition layer_call (l : layer) (x : vec) : result (traced vec) :=
  match l with
  | nn_Linear lin => y <- linear lin x ;; Ok (y, linear_backward lin)
  | nn_Tanh => let y := map s_tanh x in Ok (y, tanh_backward y)
  end.

Fixpoint sequential_row (layers : Sequential) (x : traced vec)
  : result (traced vec) :=
  match layers with
  | [] => Ok x
  | l :: rest =>
      '(y, back) <- layer_call l (fst x) ;;
      sequential_row rest (y, fun g => snd x (back g))
  end.

(** Calling a [Sequential] on a batch: every row goes through the layers. *)
Definition sequential_call (layers : Sequential) (x : traced mat)
  : result (traced mat) :=
  rows <- mapM (fun r => sequential_row layers (r, fun g => g)) (fst x) ;;
  Ok (map fst rows,
      fun G => snd x (map2 (fun row g => snd row g) rows G)).

(** A leaf of the autograd graph. *)
Definition leaf (x : mat) : traced mat := (x, fun g => g).

(** The value of [torch.autograd.grad(out.sum(), leaf, create_graph=...)[0]]
    for a leaf that requires grad: the cotangent of [sum] is all ones.
    [create_graph] only decides whether the gradient is itself
    differentiable later; the value is the same.  The failure on a leaf that
    does not require grad is in [Tracked.autograd_grad]. *)
Definition autograd_grad_sum (out : traced mat) (create_graph : bool) : mat :=
  snd out (map (map (fun _ => s_one)) (fst out)).

End Tensors.

Arguments vec A : clear implicits.
Arguments mat A : clear implicits.
Arguments tensor3 A : clear implicits.
Arguments Linear A : clear implicits.
Arguments layer A : clear implicits.
Arguments Sequential A : clear implicits.

(** ** [class adaptable_HNN]: the full estimator H(q, p; params) *)

Module adaptable_HNN.
Section Defs.
Context {A : Type} {SA : Scalar A}.

Record t : Type := {
  input_size : nat;
  num_hidden : nat;
  num_neurons : list nat;
  n_params : nat;
  input_model : Sequential A;
  energy_layer : Sequential A
}.

(** A tensor argument that may have been passed as [None]:
    [torch.cat] rejects a non-tensor element. *)
Definition tensor_arg (x : option (mat A)) : result (mat A) :=
  match x with
  | Some m => Ok m
  | None => Raise TypeError
  end.

(** The columns of a gradient with respect to [torch.cat((a, b, ...), dim=1)]
    that belong to the first block, and the remaining ones. *)
Definition take_cols (a g : mat A) : mat A :=
  map2 (fun row grow => firstn (length row) grow) a g.
Definition drop_cols (a g : mat A) : mat A :=
  map2 (fun row grow => skipn (length row) grow) a g.

Definition forward (self : t) (q p : mat A) (params : option (mat A))
           (training : bool) : result (mat A * mat A * mat A) :=
  ps <- tensor_arg params ;;
  qp <- cat_dim1 q p ;;
  input <- cat_dim1 qp ps ;;
  sequential_output <- sequential_call (input_model self) (leaf input) ;;
  H <- sequential_call (energy_layer self) sequential_output ;;
  if training then
    let g := autograd_grad_sum H true in
    let dH_dq := take_cols q g in
    let dH_dp := take_cols p (drop_cols q g) in
    Ok (fst H, mneg dH_dq, dH_dp)
  else
    let g := autograd_grad_sum H false in
    let dH_dq := take_cols q g in
    let dH_dp := take_cols p (drop_cols q g) in
    Ok (fst H, mneg dH_dq, dH_dp).

End Defs.
Arguments t A : clear implicits.
End adaptable_HNN.

(** ** [class adaptable_partial_HNN]: K(p) or V(q; params) *)

Module adaptable_partial_HNN.
Section Defs.
Context {A : Type} {SA : Scalar A}.

Record t : Type := {
  input_size : nat;
  num_hidden : nat;
  num_neurons : list nat;
  n_params : nat;
  potential : bool;
  input_model : Sequential A;
  energy_layer : Sequential A
}.

Definition forward (self : t) (qp : mat A) (params : option (mat A))
           (training : bool) : result (mat A * mat A) :=
  if potential self then
    ps <- adaptable_HNN.tensor_arg params ;;
    input <- cat_dim1 qp ps ;;
    sequential_output <- sequential_call (input_model self) (leaf input) ;;
    V <- sequential_call (energy_layer self) sequential_output ;;
    if training then
      let dH_dq := adaptable_HNN.take_cols qp (autograd_grad_sum V true) in
      Ok (fst V, mneg dH_dq)
    else
      let dH_dq := adaptable_HNN.take_cols qp (autograd_grad_sum V false) in
      Ok (fst V, mneg dH_dq)
  else
    sequential_output <- sequential_call (input_model self) (leaf qp) ;;
    K <- sequential_call (energy_layer self) sequential_output ;;
    if training then
      let dH_dp := autograd_grad_sum K true in
      Ok (fst K, dH_dp)
    else
      let dH_dp := autograd_grad_sum K false in
      Ok (fst K, dH_dp).

End Defs.
Arguments t A : clear implicits.
End adaptable_partial_HNN.

(** ** [class adaptable_sympRNN]: the leapfrog cell and the rollout *)

Module adaptable_sympRNN.
Section Defs.
Context {A : Type} {SA : Scalar A}.

(** The constructor creates [K_net] and [V_net] when [separable] is true and
    [HNN] otherwise; the other attributes do not exist. *)
Inductive estimators : Type :=
| Separable (K_net V_net : adaptable_partial_HNN.t A)
| NonSeparable (HNN : adaptable_HNN.t A).

Record t : Type := {
  input_size : nat;
  num_hidden : nat;
  num_neurons : list nat;
  n_params : nat;
  dt : A;
  nets : estimators
}.

Definition separable (self : t) : bool :=
  match nets self with
  | Separable _ _ => true
  | NonSeparable _ => false
  end.

Definition K_net (self : t) : result (adaptable_partial_HNN.t A) :=
  match nets self with
  | Separable k _ => Ok k
  | NonSeparable _ => Raise AttributeError
  end.

Definition V_net (self : t) : result (adaptable_partial_HNN.t A) :=
  match nets self with
  | Separable _ v => Ok v
  | NonSeparable _ => Raise AttributeError
  end.

Definition HNN (self : t) : result (adaptable_HNN.t A) :=
  match nets self with
  | Separable _ _ => Raise AttributeError
  | NonSeparable h => Ok h
  end.

Definition call_K_net (self : t) (p : mat A) (params : option (mat A))
           (training : bool) : result (mat A * mat A) :=
  net <- K_net self ;; adaptable_partial_HNN.forward net p params training.

Definition call_V_net (self : t) (q : mat A) (params : option (mat A))
           (training : bool) : result (mat A * mat A) :=
  net <- V_net self ;; adaptable_partial_HNN.forward net q params training.

Definition call_HNN_net (self : t) (q p : mat A) (params : option (mat A))
           (training : bool) : result (mat A * mat A * mat A) :=
  net <- HNN self ;; adaptable_HNN.forward net q p params training.

Definition two : A := s_of_Z 2.

(** [def step(self, q, p, params, training)] *)
Definition step (self : t) (q p : mat A) (params : option (mat A))
           (training : bool) : result (mat A * mat A * mat A) :=
  if training then
    '(K, qdot) <- call_K_net self p params true ;;
    q_half <- madd q (mscale (s_div (dt self) two) qdot) ;;
    '(V, pdot_t) <- call_V_net self q_half params true ;;
    p_next <- madd p (mscale (dt self) pdot_t) ;;
    '(K, qdot_t) <- call_K_net self p_next params true ;;
    q_next <- madd q_half (mscale (s_div (dt self) two) qdot_t) ;;
    '(V, pdot) <- call_V_net self q_next params true ;;
    H <- madd K V ;;
    Ok (H, q_next, p_next)
  else
    '(K, qdot) <- call_K_net self p params false ;;
    q_half <- madd q (mscale (s_div (dt self) two) qdot) ;;
    '(V, pdot) <- call_V_net self q_half params false ;;
    p_next <- madd p (mscale (dt self) pdot) ;;
    '(K, qdot) <- call_K_net self p_next params false ;;
    q_next <- madd q_half (mscale (s_div (dt self) two) qdot) ;;
    '(V, pdot) <- call_V_net self q_next params false ;;
    H <- madd K V ;;
    Ok (H, q_next, p_next).

(** [def step2(self, q, p, params, training)] *)
Definition step2 (self : t) (q p : mat A) (params : option (mat A))
           (training : bool) : result (mat A * mat A * mat A) :=
  if training then
    '(H, pdot, qdot) <- call_HNN_net self q p params true ;;
    q_half <- madd q (mscale (s_div (dt self) two) qdot) ;;
    '(_, pdot_t, qdot_t) <- call_HNN_net self q_half p params true ;;
    p_next <- madd p (mscale (dt self) pdot_t) ;;
    '(_, pdot_half, qdot_t) <- call_HNN_net self q_half p_next params true ;;
    q_next <- madd q_half (mscale (s_div (dt self) two) qdot_t) ;;
    Ok (H, q_next, p_next)
  else
    '(H, pdot, qdot) <- call_HNN_net self q p params false ;;
    q_half <- madd q (mscale (s_div (dt self) two) qdot) ;;
    '(_, pdot_t, qdot_t) <- call_HNN_net self q_half p params false ;;
    p_next <- madd p (mscale (dt self) pdot_t) ;;
    '(_, pdot_half, qdot_t) <- call_HNN_net self q_half p_next params false ;;
    q_next <- madd q_half (mscale (s_div (dt self) two) qdot_t) ;;
    Ok (H, q_next, p_next).

(** An integrator cell as the rollout sees it. *)
Definition cell : Type :=
  mat A -> mat A -> option (mat A) -> bool -> result (mat A * mat A * mat A).

(** The three preallocated buffers [H], [q], [p] of [forward]. *)
Definition buffers : Type := (tensor3 A * tensor3 A * tensor3 A)%type.

(** One iteration of [for t in range(final)]:
    [H[t], q[t+1], p[t+1] = cell(q[t], p[t], params, training)]. *)
Definition rollout_body (c : cell) (params : option (mat A)) (training : bool)
           (bufs : buffers) (t : nat) : result buffers :=
  let '(H, q, p) := bufs in
  q_t <- getitem q t ;;
  p_t <- getitem p t ;;
  '(H_t, q_next, p_next) <- c q_t p_t params training ;;
  H' <- setitem H t H_t ;;
  q' <- setitem q (t + 1) q_next ;;
  p' <- setitem p (t + 1) p_next ;;
  Ok (H', q', p').

(** The buffers after [q[0] = q_initial ; p[0] = p_initial]. *)
Definition rollout_init (q_initial p_initial : mat A) (final : nat)
  : result buffers :=
  let batch := length q_initial in
  let dim := length (hd [] q_initial) in
  let q := zeros3 (final + 1) batch dim in
  let p := zeros3 (final + 1) batch dim in
  let H := zeros3 final batch 1 in
  q <- setitem q 0 q_initial ;;
  p <- setitem p 0 p_initial ;;
  Ok (H, q, p).

(** The buffers after the loop of [forward]. *)
Definition rollout_buffers (c : cell) (q_initial p_initial : mat A)
           (params : option (mat A)) (final : nat) (training : bool)
  : result buffers :=
  bufs <- rollout_init q_initial p_initial final ;;
  foldM (rollout_body c params training) (seq 0 final) bufs.

(** [return H, q[1:], p[1:]] *)
Definition rollout (c : cell) (q_initial p_initial : mat A)
           (params : option (mat A)) (final : nat) (training : bool)
  : result buffers :=
  '(H, q, p) <- rollout_buffers c q_initial p_initial params final training ;;
  Ok (H, py_slice q 1 (Z.of_nat (length q)), py_slice p 1 (Z.of_nat (length p))).

(** The cell that [forward] selects at every iteration. *)
Definition select_step (self : t) : cell :=
  fun q p params training =>
    if separable self then step self q p params training
    else step2 self q p params training.

(** [def forward(self, q_initial, p_initial, params, final, training=True)] *)
Definition forward (self : t) (q_initial p_initial : mat A)
           (params : option (mat A)) (final : nat) (training : bool)
  : result buffers :=
  rollout (select_step self) q_initial p_initial params final training.

(** [call_V], [call_K], [call_HNN] *)
Definition call_V (self : t) (q : mat A) (params : option (mat A)) :=
  call_V_net self q params false.

Definition call_K (self : t) (p : mat A) :=
  call_K_net self p None false.

Definition call_HNN (self : t) (q p : mat A) (params : option (mat A)) :=
  call_HNN_net self q p params false.

End Defs.
Arguments t A : clear implicits.
Arguments estimators A : clear implicits.
Arguments cell A : clear implicits.
Arguments buffers A : clear implicits.
End adaptable_sympRNN.

(** ** Gradient tracking

    [torch.autograd.grad(out, x)] raises [RuntimeError] when [x] does not
    require grad.  The functions of the three classes above give what a call
    computes when the tensors it differentiates against are tracked.  This
    module repeats them on tensors that carry their [requires_grad] flag, so
    that this failure, and the flag of every intermediate tensor, are
    explicit.  The weights are [nn.Parameter]s and always tracked; a
    gradient taken with [create_graph=True] is tracked, one taken without is
    not. *)

Module Tracked.
Section Defs.
Context {A : Type} {SA : Scalar A}.

Record tensor : Type := {
  values : mat A;
  requires_grad : bool
}.

(** [torch.autograd.grad(out.sum(), x, create_graph=...)], where [tracked]
    says whether every tensor of [x] requires grad. *)
Definition autograd_grad (out : traced (mat A)) (tracked : bool)
           (create_graph : bool) : result (mat A) :=
  if tracked then Ok (autograd_grad_sum out create_graph)
  else Raise RuntimeError.

(** [adaptable_HNN.forward(self, q, p, params, training)] *)
Definition HNN_forward (self : adaptable_HNN.t A) (q p : tensor)
           (params : option (mat A)) (training : bool)
  : result (mat A * tensor * tensor) :=
  ps <- adaptable_HNN.tensor_arg params ;;
  qp <- cat_dim1 (values q) (values p) ;;
  input <- cat_dim1 qp ps ;;
  sequential_output <-
    sequential_call (adaptable_HNN.input_model self) (leaf input) ;;
  H <- sequential_call (adaptable_HNN.energy_layer self) sequential_output ;;
  if training then
    g <- autograd_grad H (requires_grad q && requires_grad p) true ;;
    let dH_dq := adaptable_HNN.take_cols (values q) g in
    let dH_dp :=
      adaptable_HNN.take_cols (values p)
                              (adaptable_HNN.drop_cols (values q) g) in
    Ok (fst H,
        {| values := mneg dH_dq; requires_grad := true |},
        {| values := dH_dp; requires_grad := true |})
  else
    g <- autograd_grad H (requires_grad q && requires_grad p) false ;;
    let dH_dq := adaptable_HNN.take_cols (values q) g in
    let dH_dp :=
      adaptable_HNN.take_cols (values p)
                              (adaptable_HNN.drop_cols (values q) g) in
    Ok (fst H,
        {| values := mneg dH_dq; requires_grad := false |},
        {| values := dH_dp; requires_grad := false |}).

(** [adaptable_partial_HNN.forward(self, qp, params, training)] *)
Definition partial_HNN_forward (self : adaptable_partial_HNN.t A)
           (qp : tensor) (params : option (mat A)) (training : bool)
  : result (mat A * tensor) :=
  if adaptable_partial_HNN.potential self then
    ps <- adaptable_HNN.tensor_arg params ;;
    input <- cat_dim1 (values qp) ps ;;
    sequential_output <-
      sequential_call (adaptable_partial_HNN.input_model self) (leaf input) ;;
    V <- sequential_call (adaptable_partial_HNN.energy_layer self)
                         sequential_output ;;
    if training then
      g <- autograd_grad V (requires_grad qp) true ;;
      let dH_dq := adaptable_HNN.take_cols (values qp) g in
      Ok (fst V, {| values := mneg dH_dq; requires_grad := true |})
    else
      g <- autograd_grad V (requires_grad qp) false ;;
      let dH_dq := adaptable_HNN.take_cols (values qp) g in
      Ok (fst V, {| values := mneg dH_dq; requires_grad := false |})
  else
    sequential_output <-
      sequential_call (adaptable_partial_HNN.input_model self)
                      (leaf (values qp)) ;;
    K <- sequential_call (adaptable_partial_HNN.energy_layer self)
                         sequential_output ;;
    if training then
      dH_dp <- autograd_grad K (requires_grad qp) true ;;
      Ok (fst K, {| values := dH_dp; requires_grad := true |})
    else
      dH_dp <- autograd_grad K (requires_grad qp) false ;;
      Ok (fst K, {| values := dH_dp; requires_grad := false |}).

Definition call_K_net (self : adaptable_sympRNN.t A) (p : tensor)
           (params : option (mat A)) (training : bool)
  : result (mat A * tensor) :=
  net <- adaptable_sympRNN.K_net self ;;
  partial_HNN_forward net p params training.

Definition call_V_net (self : adaptable_sympRNN.t A) (q : tensor)
           (params : option (mat A)) (training : bool)
  : result (mat A * tensor) :=
  net <- adaptable_sympRNN.V_net self ;;
  partial_HNN_forward net q params training.

Definition call_HNN_net (self : adaptable_sympRNN.t A) (q p : tensor)
           (params : option (mat A)) (training : bool)
  : result (mat A * tensor * tensor) :=
  net <- adaptable_sympRNN.HNN self ;; HNN_forward net q p params training.

(** [x + c * y]: tracked when [x] or [y] is. *)
Definition axpy (x : tensor) (c : A) (y : tensor) : result tensor :=
  v <- madd (values x) (mscale c (values y)) ;;
  Ok {| values := v; requires_grad := requires_grad x || requires_grad y |}.

(** [def step(self, q, p, params, training)] *)
Definition step (self : adaptable_sympRNN.t A) (q p : tensor)
           (params : option (mat A)) (training : bool)
  : result (mat A * tensor * tensor) :=
  let dt := adaptable_sympRNN.dt self in
  let two := adaptable_sympRNN.two in
  if training then
    '(K, qdot) <- call_K_net self p params true ;;
    q_half <- axpy q (s_div dt two) qdot ;;
    '(V, pdot_t) <- call_V_net self q_half params true ;;
    p_next <- axpy p dt pdot_t ;;
    '(K, qdot_t) <- call_K_net self p_next params true ;;
    q_next <- axpy q_half (s_div dt two) qdot_t ;;
    '(V, pdot) <- call_V_net self q_next params true ;;
    H <- madd K V ;;
    Ok (H, q_next, p_next)
  else
    '(K, qdot) <- call_K_net self p params false ;;
    q_half <- axpy q (s_div dt two) qdot ;;
    '(V, pdot) <- call_V_net self q_half params false ;;
    p_next <- axpy p dt pdot ;;
    '(K, qdot) <- call_K_net self p_next params false ;;
    q_next <- axpy q_half (s_div dt two) qdot ;;
    '(V, pdot) <- call_V_net self q_next params false ;;
    H <- madd K V ;;
    Ok (H, q_next, p_next).

(** [def step2(self, q, p, params, training)] *)
Definition step2 (self : adaptable_sympRNN.t A) (q p : tensor)
           (params : option (mat A)) (training : bool)
  : result (mat A * tensor * tensor) :=
  let dt := adaptable_sympRNN.dt self in
  let two := adaptable_sympRNN.two in
  if training then
    '(H, pdot, qdot) <- call_HNN_net self q p params true ;;
    q_half <- axpy q (s_div dt two) qdot ;;
    '(_, pdot_t, qdot_t) <- call_HNN_net self q_half p params true ;;
    p_next <- axpy p dt pdot_t ;;
    '(_, pdot_half, qdot_t) <- call_HNN_net self q_half p_next params true ;;
    q_next <- axpy q_half (s_div dt two) qdot_t ;;
    Ok (H, q_next, p_next)
  else
    '(H, pdot, qdot) <- call_HNN_net self q p params false ;;
    q_half <- axpy q (s_div dt two) qdot ;;
    '(_, pdot_t, qdot_t) <- call_HNN_net self q_half p params false ;;
    p_next <- axpy p dt pdot_t ;;
    '(_, pdot_half, qdot_t) <- call_HNN_net self q_half p_next params false ;;
    q_next <- axpy q_half (s_div dt two) qdot_t ;;
    Ok (H, q_next, p_next).

Definition cell : Type :=
  tensor -> tensor -> option (mat A) -> bool ->
  result (mat A * tensor * tensor).

(** The buffers [H], [q], [p] of [forward]; a buffer created by
    [torch.zeros] is untracked, and becomes tracked, with all its slices,
    once a tracked tensor is assigned into it. *)
Definition buffers : Type :=
  (tensor3 A * (tensor3 A * bool) * (tensor3 A * bool))%type.

Definition rollout_body (c : cell) (params : option (mat A)) (training : bool)
           (bufs : buffers) (t : nat) : result buffers :=
  let '(H, (q, q_tracked), (p, p_tracked)) := bufs in
  q_t <- getitem q t ;;
  p_t <- getitem p t ;;
  '(H_t, q_next, p_next) <-
     c {| values := q_t; requires_grad := q_tracked |}
       {| values := p_t; requires_grad := p_tracked |} params training ;;
  H' <- setitem H t H_t ;;
  q' <- setitem q (t + 1) (values q_next) ;;
  p' <- setitem p (t + 1) (values p_next) ;;
  Ok (H', (q', q_tracked || requires_grad q_next),
      (p', p_tracked || requires_grad p_next)).

Definition rollout_init (q_initial p_initial : tensor) (final : nat)
  : result buffers :=
  let batch := length (values q_initial) in
  let dim := length (hd [] (values q_initial)) in
  let q := zeros3 (final + 1) batch dim in
  let p := zeros3 (final + 1) batch dim in
  let H := zeros3 final batch 1 in
  q <- setitem q 0 (values q_initial) ;;
  p <- setitem p 0 (values p_initial) ;;
  Ok (H, (q, requires_grad q_initial), (p, requires_grad p_initial)).

Definition select_step (self : adaptable_sympRNN.t A) : cell :=
  fun q p params training =>
    if adaptable_sympRNN.separable self then step self q p params training
    else step2 self q p params training.

Definition rollout (c : cell) (q_initial p_initial : tensor)
           (params : option (mat A)) (final : nat) (training : bool)
  : result (adaptable_sympRNN.buffers A) :=
  bufs <- rollout_init q_initial p_initial final ;;
  '(H, (q, _), (p, _)) <-
     foldM (rollout_body c params training) (seq 0 final) bufs ;;
  Ok (H, py_slice q 1 (Z.of_nat (length q)),
      py_slice p 1 (Z.of_nat (length p))).

(** [def forward(self, q_initial, p_initial, params, final, training=True)] *)
Definition forward (self : adaptable_sympRNN.t A)
           (q_initial p_initial : tensor) (params : option (mat A))
           (final : nat) (training : bool)
  : result (adaptable_sympRNN.buffers A) :=
  rollout (select_step self) q_initial p_initial params final training.

End Defs.
Arguments tensor A : clear implicits.
Arguments cell A : clear implicits.
Arguments buffers A : clear implicits.
End Tracked.

(** ** [train_validate]: simultaneous training and validation *)

Section Trainer.
Context {A : Type} {SA : Scalar A}.

(** The library side of training is kept abstract: what a backward pass
    leaves in the [.grad] fields of the parameters, and what [optim.Adam]
    does with them. *)
Variable Grad : Type.
Variable OptState : Type.

(** The five tensors of one data set: inputs [(N, dim)], parameters
    [(N, n_params)], target trajectories [(time, N, dim)]. *)
Record dataset : Type := {
  q_input : mat A;
  p_input : mat A;
  params : mat A;
  q_output : tensor3 A;
  p_output : tensor3 A
}.

(** The model object as the trainer sees it: the estimator weights, the
    [.grad] fields of its parameters, and the train/eval mode flag. *)
Record nn_module : Type := {
  weights : adaptable_sympRNN.t A;
  grad : option Grad;
  training : bool
}.

(** [optim.Adam(model.parameters(), lr=learning_rate)] *)
Variable Adam : adaptable_sympRNN.t A -> A -> OptState.

(** [loss.backward()] for the loss of one batch: the gradient of the batch
    loss with respect to the weights, accumulated into the current [.grad]. *)
Variable backward :
  adaptable_sympRNN.t A -> dataset -> nat -> option Grad -> Grad.

(** [optimizer.step()]: new optimizer state and new weights. *)
Variable Adam_step :
  OptState -> option Grad -> adaptable_sympRNN.t A ->
  OptState * adaptable_sympRNN.t A.

Definition set_mode (m : nn_module) (mode : bool) : nn_module :=
  {| weights := weights m; grad := grad m; training := mode |}.

(** [optimizer.zero_grad()] *)
Definition zero_grad (m : nn_module) : nn_module :=
  {| weights := weights m; grad := None; training := training m |}.

Definition loss_backward (m : nn_module) (batch : dataset) (time : nat) : nn_module :=
  {| weights := weights m;
     grad := Some (backward (weights m) batch time (grad m));
     training := training m |}.

Definition optimizer_step (s : nn_module * OptState) : nn_module * OptState :=
  let '(m, opt) := s in
  let '(opt', w') := Adam_step opt (grad m) (weights m) in
  ({| weights := w'; grad := grad m; training := training m |}, opt').

(** [nn.MSELoss()]: the mean of the squared differences. *)
Definition flatten3 (t : tensor3 A) : list A := concat (concat t).

Definition MSELoss (input target : tensor3 A) : result A :=
  if same_shape3 input target then
    let sq := map2 (fun x y => s_mul (s_sub x y) (s_sub x y))
                   (flatten3 input) (flatten3 target) in
    Ok (s_div (fold_right s_add s_zero sq) (s_of_Z (Z.of_nat (length sq))))
  else Raise RuntimeError.

(** [int(n / batch_size)] for a row count [n]. *)
Definition num_batches (n : nat) (batch_size : Z) : result Z :=
  if (batch_size =? 0)%Z then Raise ZeroDivisionError
  else Ok (Z.quot (Z.of_nat n) batch_size).

(** [range(n)] *)
Definition range (n : Z) : list nat := seq 0 (Z.to_nat n).

(** [x /= n] for a Python number [x] and a Python int [n]. *)
Definition truediv (x : A) (n : Z) : result A :=
  if (n =? 0)%Z then Raise ZeroDivisionError else Ok (s_div x (s_of_Z n)).

(** The state threaded through the batches of one loop: the model, the
    optimizer, and the running loss. *)
Definition loop_state : Type := (nn_module * OptState * A)%type.

(** The body of [for b in range(num_train)]. *)
Definition train_batch (train : dataset) (time : nat) (batch_size : Z)
           (s : loop_state) (b : nat) : result loop_state :=
  let '(model, optimizer, train_batch_loss) := s in
  let lo := Z.of_nat b in
  let hi := (Z.of_nat b + batch_size)%Z in
  let q_input_train_batch := py_slice (q_input train) lo hi in
  let p_input_train_batch := py_slice (p_input train) lo hi in
  let q_output_train_batch := map (fun m => py_slice m lo hi) (q_output train) in
  let p_output_train_batch := map (fun m => py_slice m lo hi) (p_output train) in
  let params_train_batch := py_slice (params train) lo hi in
  let model := zero_grad model in
  '(_, q, p) <- adaptable_sympRNN.forward (weights model)
                  q_input_train_batch p_input_train_batch
                  (Some params_train_batch) time true ;;
  pred <- cat_dim2 q p ;;
  target <- cat_dim2 q_output_train_batch p_output_train_batch ;;
  train_loss <- MSELoss pred target ;;
  let train_batch_loss := s_add train_batch_loss train_loss in
  let model := loss_backward model
                 {| q_input := q_input_train_batch;
                    p_input := p_input_train_batch;
                    params := params_train_batch;
                    q_output := q_output_train_batch;
                    p_output := p_output_train_batch |} time in
  let '(model, optimizer) := optimizer_step (model, optimizer) in
  Ok (model, optimizer, train_batch_loss).

(** The body of [for b in range(num_valid)]. *)
Definition valid_batch (valid : dataset) (time : nat) (batch_size : Z)
           (s : loop_state) (b : nat) : result loop_state :=
  let '(model, optimizer, valid_batch_loss) := s in
  let lo := Z.of_nat b in
  let hi := (Z.of_nat b + batch_size)%Z in
  let q_input_valid_batch := py_slice (q_input valid) lo hi in
  let p_input_valid_batch := py_slice (p_input valid) lo hi in
  let q_output_valid_batch := map (fun m => py_slice m lo hi) (q_output valid) in
  let p_output_valid_batch := map (fun m => py_slice m lo hi) (p_output valid) in
  let params_valid_batch := py_slice (params valid) lo hi in
  let model := zero_grad model in
  '(_, q, p) <- adaptable_sympRNN.forward (weights model)
                  q_input_valid_batch p_input_valid_batch
                  (Some params_valid_batch) time true ;;
  pred <- cat_dim2 q p ;;
  target <- cat_dim2 q_output_valid_batch p_output_valid_batch ;;
  valid_loss <- MSELoss pred target ;;
  let valid_batch_loss := s_add valid_batch_loss valid_loss in
  Ok (model, optimizer, valid_batch_loss).

(** The training half of an epoch, up to [train_batch_loss /= num_train]. *)
Definition train_loop (train : dataset) (time : nat) (batch_size num_train : Z)
           (model : nn_module) (optimizer : OptState) : result loop_state :=
  let train_batch_loss := s_zero in
  let model := set_mode model true in
  foldM (train_batch train time batch_size) (range num_train)
        (model, optimizer, train_batch_loss).

(** The validation half of an epoch, up to [valid_batch_loss /= num_valid]. *)
Definition valid_loop (valid : dataset) (time : nat) (batch_size num_valid : Z)
           (model : nn_module) (optimizer : OptState) : result loop_state :=
  let valid_batch_loss := s_zero in
  let model := set_mode model false in
  foldM (valid_batch valid time batch_size) (range num_valid)
        (model, optimizer, valid_batch_loss).

(** The loss arrays start as [np.full(n_epochs, np.nan)]; [None] is NaN. *)
Definition losses : Type := list (option A).

Definition epoch_state : Type := (nn_module * OptState * losses * losses)%type.

(** The body of [for it in tr]. *)
Definition epoch (train valid : dataset) (time : nat)
           (batch_size num_train num_valid : Z)
           (s : epoch_state) (it : nat) : result epoch_state :=
  let '(model, optimizer, training_loss, validation_loss) := s in
  '(model, optimizer, train_batch_loss) <-
     train_loop train time batch_size num_train model optimizer ;;
  train_batch_loss <- truediv train_batch_loss num_train ;;
  let training_loss := list_set training_loss it (Some train_batch_loss) in
  '(model, optimizer, valid_batch_loss) <-
     valid_loop valid time batch_size num_valid model optimizer ;;
  valid_batch_loss <- truediv valid_batch_loss num_valid ;;
  let validation_loss := list_set validation_loss it (Some valid_batch_loss) in
  Ok (model, optimizer, training_loss, validation_loss).

(** [def train_validate(model, ..._train, ..._valid, n_epochs, batch_size,
    learning_rate=0.001)].  The model is updated in place; the final model is
    returned next to the two loss arrays. *)
Definition train_validate (model : nn_module) (train valid : dataset)
           (n_epochs : nat) (batch_size : Z) (learning_rate : A)
  : result (nn_module * (losses * losses)) :=
  let optimizer := Adam (weights model) learning_rate in
  num_train <- num_batches (length (q_input train)) batch_size ;;
  num_valid <- num_batches (length (q_input valid)) batch_size ;;
  let time := length (q_output train) in
  let training_loss := repeat None n_epochs in
  let validation_loss := repeat None n_epochs in
  '(model, _, training_loss, validation_loss) <-
     foldM (epoch train valid time batch_size num_train num_valid)
           (seq 0 n_epochs)
           (model, optimizer, training_loss, validation_loss) ;;
  Ok (model, (training_loss, validation_loss)).

End Trainer.

Arguments dataset A : clear implicits.
Arguments nn_module A Grad : clear implicits.

(** ** The constructors

    [nn.Linear(n, m)] draws its initial weights from PyTorch's random
    generator.  The generator is an explicit state [rng], and the library
    constructor is the parameter [new_Linear]; the three classes thread the
    generator through the layers they create, in creation order. *)

Section Constructors.
Context {A : Type} {SA : Scalar A}.
Variable rng : Type.
Variable new_Linear : nat -> nat -> rng -> Linear A * rng.

(** [l[i]] for [i >= 0], and [l[-1]]. *)
Definition list_index {X : Type} (l : list X) (i : nat) : result X :=
  match nth_error l i with
  | Some x => Ok x
  | None => Raise IndexError
  end.

Definition list_last {X : Type} (l : list X) : result X :=
  match l with
  | [] => Raise IndexError
  | _ :: _ => list_index l (length l - 1)
  end.

(** The body of [for i in range(num_hidden-1)]:
    [input_model.append(nn.Linear(num_neurons[i], num_neurons[i+1]))],
    [input_model.append(nn.Tanh())]. *)
Definition append_hidden (num_neurons : list nat) (s : Sequential A * rng)
           (i : nat) : result (Sequential A * rng) :=
  let '(input_model, g) := s in
  n_i <- list_index num_neurons i ;;
  n_i1 <- list_index num_neurons (i + 1) ;;
  let '(lin, g) := new_Linear n_i n_i1 g in
  Ok (input_model ++ [nn_Linear lin; nn_Tanh], g).

(** The layers of one estimator, for a first layer of [first_in] inputs:
    [input_model] and [energy_layer].  The three constructors in the source
    repeat this block with [first_in = input_size + n_params] or
    [first_in = input_size]. *)
Definition build_layers (first_in num_hidden : nat) (num_neurons : list nat)
           (g : rng) : result (Sequential A * Sequential A * rng) :=
  n_0 <- list_index num_neurons 0 ;;
  let '(lin_0, g) := new_Linear first_in n_0 g in
  '(input_model, g) <-
     foldM (append_hidden num_neurons) (seq 0 (num_hidden - 1))
           ([nn_Linear lin_0; nn_Tanh], g) ;;
  n_last <- list_last num_neurons ;;
  let '(lin_e, g) := new_Linear n_last 1 g in
  Ok (input_model, [nn_Linear lin_e], g).

(** [adaptable_HNN(input_size, num_hidden, num_neurons, n_params)] *)
Definition adaptable_HNN_init (input_size num_hidden : nat)
           (num_neurons : list nat) (n_params : nat) (g : rng)
  : result (adaptable_HNN.t A * rng) :=
  '(input_model, energy_layer, g) <-
     build_layers (input_size + n_params) num_hidden num_neurons g ;;
  Ok ({| adaptable_HNN.input_size := input_size;
         adaptable_HNN.num_hidden := num_hidden;
         adaptable_HNN.num_neurons := num_neurons;
         adaptable_HNN.n_params := n_params;
         adaptable_HNN.input_model := input_model;
         adaptable_HNN.energy_layer := energy_layer |}, g).

(** [adaptable_partial_HNN(input_size, num_hidden, num_neurons, n_params,
    potential)] *)
Definition adaptable_partial_HNN_init (input_size num_hidden : nat)
           (num_neurons : list nat) (n_params : nat) (potential : bool)
           (g : rng) : result (adaptable_partial_HNN.t A * rng) :=
  '(input_model, energy_layer, g) <-
     (if potential
      then build_layers (input_size + n_params) num_hidden num_neurons g
      else build_layers input_size num_hidden num_neurons g) ;;
  Ok ({| adaptable_partial_HNN.input_size := input_size;
         adaptable_partial_HNN.num_hidden := num_hidden;
         adaptable_partial_HNN.num_neurons := num_neurons;
         adaptable_partial_HNN.n_params := n_params;
         adaptable_partial_HNN.potential := potential;
         adaptable_partial_HNN.input_model := input_model;
         adaptable_partial_HNN.energy_layer := energy_layer |}, g).

(** [adaptable_sympRNN(input_size, num_hidden, num_neurons, n_params, dt,
    separable)]; [int(input_size/2)] is [input_size / 2] on naturals. *)
Definition adaptable_sympRNN_init (input_size num_hidden : nat)
           (num_neurons : list nat) (n_params : nat) (dt : A)
           (separable : bool) (g : rng)
  : result (adaptable_sympRNN.t A * rng) :=
  if separable then
    '(K_net, g) <- adaptable_partial_HNN_init (input_size / 2) num_hidden
                     num_neurons n_params false g ;;
    '(V_net, g) <- adaptable_partial_HNN_init (input_size / 2) num_hidden
                     num_neurons n_params true g ;;
    Ok ({| adaptable_sympRNN.input_size := input_size;
           adaptable_sympRNN.num_hidden := num_hidden;
           adaptable_sympRNN.num_neurons := num_neurons;
           adaptable_sympRNN.n_params := n_params;
           adaptable_sympRNN.dt := dt;
           adaptable_sympRNN.nets :=
             adaptable_sympRNN.Separable K_net V_net |}, g)
  else
    '(HNN, g) <- adaptable_HNN_init input_size num_hidden num_neurons
                   n_params g ;;
    Ok ({| adaptable_sympRNN.input_size := input_size;
           adaptable_sympRNN.num_hidden := num_hidden;
           adaptable_sympRNN.num_neurons := num_neurons;
           adaptable_sympRNN.n_params := n_params;
           adaptable_sympRNN.dt := dt;
           adaptable_sympRNN.nets := adaptable_sympRNN.NonSeparable HNN |}, g).

End Constructors.

(** ** A concrete separable model over the reals

    One position and one momentum coordinate, one parameter channel, one
    hidden neuron per estimator:
    K(p) = tanh p and V(q; c) = tanh (q - 1) (the parameter has weight 0). *)

Module Demo.
Open Scope R_scope.

Definition lin (n : nat) (w : vec R) (b : R) : Linear R :=
  {| in_features := n; out_features := 1; weight := [w]; bias := [b] |}.

Definition K_net : adaptable_partial_HNN.t R :=
  {| adaptable_partial_HNN.input_size := 1;
     adaptable_partial_HNN.num_hidden := 1;
     adaptable_partial_HNN.num_neurons := [1%nat];
     adaptable_partial_HNN.n_params := 1;
     adaptable_partial_HNN.potential := false;
     adaptable_partial_HNN.input_model := [nn_Linear (lin 1 [1] 0); nn_Tanh];
     adaptable_partial_HNN.energy_layer := [nn_Linear (lin 1 [1] 0)] |}.

Definition V_net : adaptable_partial_HNN.t R :=
  {| adaptable_partial_HNN.input_size := 1;
     adaptable_partial_HNN.num_hidden := 1;
     adaptable_partial_HNN.num_neurons := [1%nat];
     adaptable_partial_HNN.n_params := 1;
     adaptable_partial_HNN.potential := true;
     adaptable_partial_HNN.input_model := [nn_Linear (lin 2 [1; 0] (-1)); nn_Tanh];
     adaptable_partial_HNN.energy_layer := [nn_Linear (lin 1 [1] 0)] |}.

Definition HNN : adaptable_HNN.t R :=
  {| adaptable_HNN.input_size := 2;
     adaptable_HNN.num_hidden := 1;
     adaptable_HNN.num_neurons := [1%nat];
     adaptable_HNN.n_params := 1;
     adaptable_HNN.input_model := [nn_Linear (lin 3 [1; 1; 0] 0); nn_Tanh];
     adaptable_HNN.energy_layer := [nn_Linear (lin 1 [1] 0)] |}.

(** [adaptable_sympRNN(2, 1, [1], 1, dt=2.0, separable=True)] *)
Definition model : adaptable_sympRNN.t R :=
  {| adaptable_sympRNN.input_size := 2;
     adaptable_sympRNN.num_hidden := 1;
     adaptable_sympRNN.num_neurons := [1%nat];
     adaptable_sympRNN.n_params := 1;
     adaptable_sympRNN.dt := 2;
     adaptable_sympRNN.nets := adaptable_sympRNN.Separable K_net V_net |}.

(** [adaptable_sympRNN(2, 1, [1], 1, dt=2.0, separable=False)] *)
Definition model2 : adaptable_sympRNN.t R :=
  {| adaptable_sympRNN.input_size := 2;
     adaptable_sympRNN.num_hidden := 1;
     adaptable_sympRNN.num_neurons := [1%nat];
     adaptable_sympRNN.n_params := 1;
     adaptable_sympRNN.dt := 2;
     adaptable_sympRNN.nets := adaptable_sympRNN.NonSeparable HNN |}.

(** One sample at rest at the origin, parameter 0. *)
Definition q0 : mat R := [[0]].
Definition p0 : mat R := [[0]].
Definition c0 : mat R := [[0]].

(** A data set of one sample with a one-step target trajectory. *)
Definition data : dataset R :=
  {| q_input := q0; p_input := p0; params := c0;
     q_output := [[[0]]]; p_output := [[[0]]] |}.

(** A trivial stand-in for the optimizer library: no gradient information,
    weights left as they are. *)
Definition Adam (w : adaptable_sympRNN.t R) (lr : R) : unit := tt.
Definition backward (w : adaptable_sympRNN.t R) (batch : dataset R)
           (time : nat) (g : option unit) : unit := tt.
Definition Adam_step (o : unit) (g : option unit) (w : adaptable_sympRNN.t R)
  : unit * adaptable_sympRNN.t R := (o, w).

Definition module0 : nn_module R unit :=
  {| weights := model; grad := None; training := true |}.

(** A data set of four samples (positions 0, 1, 2, 3) with one-step
    targets. *)
Definition data4 : dataset R :=
  {| q_input := [[0]; [1]; [2]; [3]];
     p_input := [[0]; [0]; [0]; [0]];
     params := [[0]; [0]; [0]; [0]];
     q_output := [[[0]; [1]; [2]; [3]]];
     p_output := [[[0]; [0]; [0]; [0]]] |}.

(** A stand-in for [nn.Linear]'s initialisation: all-zero weights, and a
    generator that counts the layers created. *)
Definition new_Linear (n m : nat) (g : nat) : Linear R * nat :=
  ({| in_features := n; out_features := m;
      weight := repeat (repeat 0 n) m; bias := repeat 0 m |}, S g).

(** [data4] with another last sample. *)
Definition data4_alt : dataset R :=
  {| q_input := [[0]; [1]; [2]; [7]];
     p_input := [[0]; [0]; [0]; [5]];
     params := [[0]; [0]; [0]; [1]];
     q_output := [[[0]; [1]; [2]; [9]]];
     p_output := [[[0]; [0]; [0]; [4]]] |}.

(** The initial condition as tensors created with [requires_grad=True], and
    as plain tensors. *)
Definition q0_grad : Tracked.tensor R :=
  {| Tracked.values := q0; Tracked.requires_grad := true |}.
Definition p0_grad : Tracked.tensor R :=
  {| Tracked.values := p0; Tracked.requires_grad := true |}.
Definition q0_plain : Tracked.tensor R :=
  {| Tracked.values := q0; Tracked.requires_grad := false |}.
Definition p0_plain : Tracked.tensor R :=
  {| Tracked.values := p0; Tracked.requires_grad := false |}.

End Demo.

(** ** Vocabulary of the statements *)

Section Vocabulary.
Context {A : Type} {SA : Scalar A}.

(** A 2-D tensor has rows of one common length. *)
Definition rectangular (m : mat A) : Prop :=
  shape2 m = repeat (length (hd [] m)) (length m).

(** Time slot [t] of the buffers [(H, q, p)] was filled by one call of the
    cell [c] on slot [t] of [q] and [p]:
    [H[t], q[t+1], p[t+1] = c(q[t], p[t], params, training)]. *)
Definition transition (c : adaptable_sympRNN.cell A) (params : option (mat A))
           (training : bool) (bufs : adaptable_sympRNN.buffers A) (t : nat)
  : Prop :=
  let '(H, q, p) := bufs in
  exists q_t p_t H_t q_next p_next,
    nth_error q t = Some q_t /\
    nth_error p t = Some p_t /\
    c q_t p_t params training = Ok (H_t, q_next, p_next) /\
    nth_error H t = Some H_t /\
    nth_error q (t + 1) = Some q_next /\
    nth_error p (t + 1) = Some p_next.

(** The loop invariant of [forward] before iteration [k] of [final]. *)
Definition rollout_inv (c : adaptable_sympRNN.cell A) (params : option (mat A))
           (training : bool) (q_initial p_initial : mat A) (final k : nat)
           (bufs : adaptable_sympRNN.buffers A) : Prop :=
  let '(H, q, p) := bufs in
  length H = final /\
  length q = final + 1 /\
  length p = final + 1 /\
  nth_error q 0 = Some q_initial /\
  nth_error p 0 = Some p_initial /\
  forall t, t < k -> transition c params training bufs t.

(** Rows [b], [b+1], ..., [b+n-1] of a tensor (as many as exist). *)
Definition rows {X : Type} (l : list X) (b n : nat) : list X :=
  firstn n (skipn b l).

(** The batch that iteration [b] cuts out of a data set. *)
Definition batch_of (d : dataset A) (b : nat) (batch_size : Z) : dataset A :=
  let lo := Z.of_nat b in
  let hi := (Z.of_nat b + batch_size)%Z in
  {| q_input := py_slice (q_input d) lo hi;
     p_input := py_slice (p_input d) lo hi;
     params := py_slice (params d) lo hi;
     q_output := map (fun m => py_slice m lo hi) (q_output d);
     p_output := map (fun m => py_slice m lo hi) (p_output d) |}.

(** The loss of the model with weights [w] on a batch. *)
Definition batch_loss (w : adaptable_sympRNN.t A) (batch : dataset A)
           (time : nat) : result A :=
  '(_, q, p) <- adaptable_sympRNN.forward w (q_input batch) (p_input batch)
                  (Some (params batch)) time true ;;
  pred <- cat_dim2 q p ;;
  target <- cat_dim2 (q_output batch) (p_output batch) ;;
  MSELoss pred target.

(** Rows [b .. b+n-1] of every tensor of a data set (the batch axis is the
    second one of the target trajectories). *)
Definition window (d : dataset A) (b n : nat) : dataset A :=
  {| q_input := rows (q_input d) b n;
     p_input := rows (p_input d) b n;
     params := rows (params d) b n;
     q_output := map (fun m => rows m b n) (q_output d);
     p_output := map (fun m => rows m b n) (p_output d) |}.

(** One training iteration on a batch, whatever the batch is: the model with
    the current weights is run on the batch, its loss is added to the running
    loss, the gradients are cleared, the loss is differentiated and the
    optimizer steps once. *)
Definition train_on {Grad OptState : Type}
           (backward : adaptable_sympRNN.t A -> dataset A -> nat ->
                       option Grad -> Grad)
           (Adam_step : OptState -> option Grad -> adaptable_sympRNN.t A ->
                        OptState * adaptable_sympRNN.t A)
           (batch : dataset A) (time : nat) (s : loop_state Grad OptState)
  : result (loop_state Grad OptState) :=
  let '(m, opt, l) := s in
  loss <- batch_loss (weights m) batch time ;;
  let '(m', opt') :=
    optimizer_step Adam_step
      (loss_backward backward (zero_grad m) batch time, opt) in
  Ok (m', opt', s_add l loss).

(** One validation iteration on a batch: the model is run on the batch and
    its loss is added to the running loss. *)
Definition validate_on {Grad OptState : Type} (batch : dataset A) (time : nat)
           (s : loop_state Grad OptState)
  : result (loop_state Grad OptState) :=
  let '(m, opt, l) := s in
  loss <- batch_loss (weights m) batch time ;;
  Ok (zero_grad m, opt, s_add l loss).

(** Window [b] of [n] rows lies within the data, has [n] rows, its row [i]
    is row [b+i] of the data, and for [n > 1] it shares row [b+1] with the
    window of the next iteration of a loop over [num] batches. *)
Definition sliding_window (d : dataset A) (num : Z) (b n : nat) : Prop :=
  b + n <= length (q_input d) /\
  length (q_input (window d b n)) = n /\
  (forall i, i < n ->
     nth_error (q_input (window d b n)) i = nth_error (q_input d) (b + i)) /\
  (1 < n -> (Z.of_nat (b + 1) < num)%Z ->
   exists row,
     nth_error (q_input d) (b + 1) = Some row /\
     nth_error (q_input (window d b n)) 1 = Some row /\
     nth_error (q_input (window d (b + 1) n)) 0 = Some row).

(** *** Well-formed models and well-shaped inputs

    What the constructors establish: an [nn.Linear(n, m)] holds an [m] by [n]
    weight matrix and [m] biases, and consecutive layers of a [Sequential]
    agree on their widths. *)

Definition wf_Linear (l : Linear A) : Prop :=
  length (weight l) = out_features l /\
  Forall (fun w => length w = in_features l) (weight l) /\
  length (bias l) = out_features l.

Fixpoint wf_Sequential (layers : Sequential A) (n_in n_out : nat) : Prop :=
  match layers with
  | [] => n_in = n_out
  | nn_Linear l :: rest =>
      wf_Linear l /\ in_features l = n_in /\
      wf_Sequential rest (out_features l) n_out
  | nn_Tanh :: rest => wf_Sequential rest n_in n_out
  end.

(** A 2-D tensor of shape [(batch, dim)]. *)
Definition has_shape (m : mat A) (batch dim : nat) : Prop :=
  length m = batch /\ Forall (fun r => length r = dim) m.

(** A kinetic estimator for momenta of dimension [d]. *)
Definition wf_kinetic (net : adaptable_partial_HNN.t A) (d : nat) : Prop :=
  adaptable_partial_HNN.potential net = false /\
  exists h,
    wf_Sequential (adaptable_partial_HNN.input_model net) d h /\
    wf_Sequential (adaptable_partial_HNN.energy_layer net) h 1.

(** A potential estimator for positions of dimension [d] and [np]
    parameters. *)
Definition wf_potential (net : adaptable_partial_HNN.t A) (d np : nat) : Prop :=
  adaptable_partial_HNN.potential net = true /\
  exists h,
    wf_Sequential (adaptable_partial_HNN.input_model net) (d + np) h /\
    wf_Sequential (adaptable_partial_HNN.energy_layer net) h 1.

(** A separable model as [adaptable_sympRNN(2*d, .., np, dt, True)]
    builds it. *)
Definition wf_separable (self : adaptable_sympRNN.t A) (d np : nat) : Prop :=
  exists K V,
    adaptable_sympRNN.nets self = adaptable_sympRNN.Separable K V /\
    wf_kinetic K d /\ wf_potential V d np.

(** A full estimator for positions and momenta of dimension [d] each and
    [np] parameters. *)
Definition wf_full (net : adaptable_HNN.t A) (d np : nat) : Prop :=
  exists h,
    wf_Sequential (adaptable_HNN.input_model net) (d + d + np) h /\
    wf_Sequential (adaptable_HNN.energy_layer net) h 1.

(** A non-separable model as [adaptable_sympRNN(2*d, .., np, dt, False)]
    builds it. *)
Definition wf_nonseparable (self : adaptable_sympRNN.t A) (d np : nat)
  : Prop :=
  exists net,
    adaptable_sympRNN.nets self = adaptable_sympRNN.NonSeparable net /\
    wf_full net d np.

(** The contract of [nn.Linear(n, m)]: whatever the generator state, the new
    layer has [n] inputs, [m] outputs, an [m] by [n] weight matrix and [m]
    biases. *)
Definition Linear_contract (rng : Type)
           (new_Linear : nat -> nat -> rng -> Linear A * rng) : Prop :=
  forall n m g,
    in_features (fst (new_Linear n m g)) = n /\
    out_features (fst (new_Linear n m g)) = m /\
    wf_Linear (fst (new_Linear n m g)).

(** The number of leading rows of a data set of [n] rows that the batch
    loops can reach: the last batch starts at row [int(n/batch_size) - 1]
    and has [batch_size] rows. *)
Definition reachable_rows (n : nat) (batch_size : Z) : nat :=
  Z.to_nat (Z.quot (Z.of_nat n) batch_size + batch_size - 1).

(** Two data sets with the same number of rows that agree on their first
    [k] rows. *)
Definition same_leading_rows (d d' : dataset A) (k : nat) : Prop :=
  length (q_input d) = length (q_input d') /\
  window d 0 k = window d' 0 k.

End Vocabulary.

(** *** Energies and their derivatives over the reals

    What it means for an estimator's second output to be a gradient: the
    energies as real functions of one state, and differentiable curves of
    states. *)

Section RealVocabulary.
Local Open Scope R_scope.

(** A differentiable curve of vectors, coordinate by coordinate. *)
Definition curve : Type := list (R -> R).

Definition eval (c : curve) (t : R) : vec R := map (fun f => f t) c.

(** The coordinates of [c] have the derivatives [X'] at [t = 0]. *)
Definition curve_deriv (c : curve) (X' : vec R) : Prop :=
  Forall2 (fun f l => derivable_pt_lim f 0 l) c X'.

(** The point reached from [x] after time [t] at velocity [v]. *)
Definition line (x v : vec R) (t : R) : vec R :=
  map2 (fun xi vi => xi + t * vi) x v.

(** The curve a layer makes of a curve through its input. *)
Definition linear_curve (lin : Linear R) (c : curve) : curve :=
  map2 (fun w b => fun t => dot (eval c t) w + b) (weight lin) (bias lin).

Definition tanh_curve (c : curve) : curve :=
  map (fun f => fun t => tanh (f t)) c.

Fixpoint sequential_curve (layers : Sequential R) (c : curve) : curve :=
  match layers with
  | [] => c
  | nn_Linear lin :: rest => sequential_curve rest (linear_curve lin c)
  | nn_Tanh :: rest => sequential_curve rest (tanh_curve c)
  end.

(** The curve [t |-> x + t v]. *)
Definition line_curve (x v : vec R) : curve :=
  map2 (fun xi vi => fun t => xi + t * vi) x v.

End RealVocabulary.

Section EnergyVocabulary.
Local Open Scope R_scope.

(** Entry [[0][0]] of a 2-D tensor. *)
Definition entry00 (m : mat R) : R := hd 0 (hd [] m).

(** The energies the estimators assign to one state: the first output of
    [forward] on a batch of one row. *)
Definition kinetic_energy (net : adaptable_partial_HNN.t R) (p : vec R) : R :=
  match adaptable_partial_HNN.forward net [p] None false with
  | Ok (K, _) => entry00 K
  | Raise _ => 0
  end.

Definition potential_energy (net : adaptable_partial_HNN.t R)
           (q params : vec R) : R :=
  match adaptable_partial_HNN.forward net [q] (Some [params]) false with
  | Ok (V, _) => entry00 V
  | Raise _ => 0
  end.

Definition hamiltonian (net : adaptable_HNN.t R) (q p params : vec R) : R :=
  match adaptable_HNN.forward net [q] [p] (Some [params]) false with
  | Ok (H, _, _) => entry00 H
  | Raise _ => 0
  end.

(** A curve that stays at [x]. *)
Definition const_curve (x : vec R) : curve := map (fun a => fun _ : R => a) x.

End EnergyVocabulary.

(** *** Cells on tracked tensors *)

Section TrackedVocabulary.
Context {A : Type} {SA : Scalar A}.

(** What a cell on tracked tensors has in common with the cell on values:
    the same exception or the same values, and tracked outputs. *)
Definition lifts (c : adaptable_sympRNN.cell A) (c' : Tracked.cell A) (q p : Tracked.tensor A)
           (params : option (mat A)) (training : bool) : Prop :=
  c' q p params training
  = (r <- c (Tracked.values q) (Tracked.values p) params training ;;
     Ok (fst (fst r), Tracked.Build_tensor (snd (fst r)) true, Tracked.Build_tensor (snd r) true)).

End TrackedVocabulary.

(** ** Generic facts about the error monad and lists *)

Lemma bind_Ok {X Y : Type} (c : result X) (k : X -> result Y) (y : Y) :
  bind c k = Ok y -> exists x, c = Ok x /\ k x = Ok y.
Proof.
  destruct c as [x|e]; simpl; intros H; [eauto | discriminate].
Qed.

Ltac inv_result :=
  repeat match goal with
  | H : bind ?c _ = Ok _ |- _ =>
      let x := fresh "x" in
      let E := fresh "E" in
      apply bind_Ok in H; destruct H as (x & E & H)
  | H : (let '(_, _) := ?x in _) = Ok _ |- _ => destruct x
  | H : Ok _ = Ok _ |- _ => inversion H; subst; clear H
  | H : Raise _ = Ok _ |- _ => discriminate H
  end.

(** ** The integrator cells *)

Section CellFacts.
Context {A : Type} {SA : Scalar A}.
Import adaptable_sympRNN.

(** Everything a successful call of [step] has computed, in order. *)
Lemma step_inv (self : t A) (q p : mat A) (params : option (mat A))
      (training : bool) (H q_next p_next : mat A) :
  step self q p params training = Ok (H, q_next, p_next) ->
  exists K0 qdot q_half V0 pdot K1 qdot' V1 pdot',
    call_K_net self p params training = Ok (K0, qdot) /\
    madd q (mscale (s_div (dt self) two) qdot) = Ok q_half /\
    call_V_net self q_half params training = Ok (V0, pdot) /\
    madd p (mscale (dt self) pdot) = Ok p_next /\
    call_K_net self p_next params training = Ok (K1, qdot') /\
    madd q_half (mscale (s_div (dt self) two) qdot') = Ok q_next /\
    call_V_net self q_next params training = Ok (V1, pdot') /\
    madd K1 V1 = Ok H.
Proof.
  unfold step; destruct training; intros Hs; inv_result;
    repeat eexists; eassumption.
Qed.

(** C1: a successful separable step is the three leapfrog substeps, in
    order: a half step of q with the K-net gradient at the incoming p, a full
    step of p with the V-net output at (q_half, params), a second half step
    of q with the K-net gradient at p_next; it returns that (q_next, p_next). *)
Theorem step_three_substeps (self : t A) (q p : mat A)
        (params : option (mat A)) (training : bool) (H q_next p_next : mat A) :
  step self q p params training = Ok (H, q_next, p_next) ->
  exists K qdot q_half V pdot K' qdot',
    call_K_net self p params training = Ok (K, qdot) /\
    madd q (mscale (s_div (dt self) two) qdot) = Ok q_half /\
    call_V_net self q_half params training = Ok (V, pdot) /\
    madd p (mscale (dt self) pdot) = Ok p_next /\
    call_K_net self p_next params training = Ok (K', qdot') /\
    madd q_half (mscale (s_div (dt self) two) qdot') = Ok q_next.
Proof.
  intros Hs. apply step_inv in Hs.
  destruct Hs as (K0 & qdot & q_half & V0 & pdot & K1 & qdot' & V1 & pdot' &
                  HK & Hq & HV & Hp & HK' & Hq' & _ & _).
  exists K0, qdot, q_half, V0, pdot, K1, qdot'. tauto.
Qed.

(** C2 (as the code has it): the energy returned by a successful separable
    step is K(p_next) + V(q_next, params): the kinetic value of the last
    K-net call, at the momentum leaving the step, plus the potential at the
    final position. *)
Theorem step_energy_post_state (self : t A) (q p : mat A)
        (params : option (mat A)) (training : bool) (H q_next p_next : mat A) :
  step self q p params training = Ok (H, q_next, p_next) ->
  exists K qdot V pdot,
    call_K_net self p_next params training = Ok (K, qdot) /\
    call_V_net self q_next params training = Ok (V, pdot) /\
    madd K V = Ok H.
Proof.
  intros Hs. apply step_inv in Hs.
  destruct Hs as (K0 & qdot & q_half & V0 & pdot & K1 & qdot' & V1 & pdot' &
                  _ & _ & _ & _ & HK' & _ & HV' & HH).
  exists K1, qdot', V1, pdot'. tauto.
Qed.

(** C10: the energy returned by a successful non-separable step is the full
    estimator's H(q, p; params) at the state entering the step, whereas the
    separable step reports estimator values at the state leaving it. *)
Theorem step2_energy_pre_state (self : t A) (q p : mat A)
        (params : option (mat A)) (training : bool) :
  (forall H q_next p_next,
      step2 self q p params training = Ok (H, q_next, p_next) ->
      exists pdot qdot,
        call_HNN_net self q p params training = Ok (H, pdot, qdot)) /\
  (forall H q_next p_next,
      step self q p params training = Ok (H, q_next, p_next) ->
      exists K qdot V pdot,
        call_K_net self p_next params training = Ok (K, qdot) /\
        call_V_net self q_next params training = Ok (V, pdot) /\
        madd K V = Ok H).
Proof.
  split.
  - intros H q_next p_next. unfold step2; destruct training; intros Hs;
      inv_result; eauto.
  - intros H q_next p_next Hs. apply step_inv in Hs.
    destruct Hs as (K0 & qdot & q_half & V0 & pdot & K1 & qdot' & V1 & pdot' &
                    _ & _ & _ & _ & HK' & _ & HV' & HH).
    exists K1, qdot', V1, pdot'. tauto.
Qed.

(** C8: in kinetic mode the estimator never looks at its [params] argument:
    any two values of it, [None] included, give the same (K, dK/dp); hence
    [call_K], which passes [None], agrees with every other call of a kinetic
    [K_net] in inference mode. *)
Theorem kinetic_forward_ignores_params (net : adaptable_partial_HNN.t A)
        (p : mat A) (params1 params2 : option (mat A)) (training : bool) :
  adaptable_partial_HNN.potential net = false ->
  adaptable_partial_HNN.forward net p params1 training =
  adaptable_partial_HNN.forward net p params2 training /\
  (forall (self : t A) (V : adaptable_partial_HNN.t A),
      nets self = Separable net V ->
      call_K self p = adaptable_partial_HNN.forward net p params1 false).
Proof.
  intros Hk. split.
  - unfold adaptable_partial_HNN.forward. rewrite Hk. reflexivity.
  - intros self V Hn. unfold call_K, call_K_net, K_net. rewrite Hn. simpl.
    unfold adaptable_partial_HNN.forward. rewrite Hk. reflexivity.
Qed.

End CellFacts.

(** ** Lists as indexed buffers *)

Section ListFacts.
Context {X : Type}.

Lemma length_list_set (l : list X) (i : nat) (x : X) :
  length (list_set l i x) = length l.
Proof.
  revert i; induction l as [|y l IH]; intros [|i]; simpl; auto.
Qed.

Lemma nth_error_list_set_eq (l : list X) (i : nat) (x : X) :
  i < length l -> nth_error (list_set l i x) i = Some x.
Proof.
  revert i; induction l as [|y l IH]; intros [|i]; simpl; intros Hi;
    try lia; auto.
  apply IH; lia.
Qed.

Lemma nth_error_list_set_neq (l : list X) (i j : nat) (x : X) :
  i <> j -> nth_error (list_set l i x) j = nth_error l j.
Proof.
  revert i j; induction l as [|y l IH]; intros [|i] [|j] Hij; simpl; auto;
    try congruence.
Qed.

Lemma py_slice_from_1 (l : list X) :
  py_slice l 1 (Z.of_nat (length l)) = tl l.
Proof.
  unfold py_slice, slice_index.
  destruct (Z.ltb_spec (Z.of_nat (length l)) 0) as [Hneg|_]; [lia|].
  simpl (1 <? 0)%Z. cbv iota.
  rewrite Nat2Z.id, Nat.min_id.
  destruct l as [|x l]; [reflexivity|].
  change (Z.to_nat 1) with 1.
  replace (Nat.min 1 (length (x :: l))) with 1 by (simpl; lia).
  simpl. rewrite Nat.sub_0_r. apply firstn_all.
Qed.

Lemma foldM_app {S : Type} (body : S -> X -> result S) (xs ys : list X) (s : S) :
  foldM body (xs ++ ys) s = (s' <- foldM body xs s ;; foldM body ys s').
Proof.
  revert s; induction xs as [|x xs IH]; intros s; simpl; [reflexivity|].
  destruct (body s x); simpl; auto.
Qed.

End ListFacts.

Section BufferFacts.
Context {A : Type} {SA : Scalar A}.

Lemma getitem_Ok (buf : tensor3 A) (i : nat) (m : mat A) :
  getitem buf i = Ok m -> nth_error buf i = Some m.
Proof.
  unfold getitem. destruct (nth_error buf i); intros H; inv_result; auto.
Qed.

Lemma setitem_Ok (buf buf' : tensor3 A) (i : nat) (x : mat A) :
  setitem buf i x = Ok buf' -> buf' = list_set buf i x /\ i < length buf.
Proof.
  unfold setitem. destruct (nth_error buf i) eqn:E; [|discriminate].
  destruct (same_shape m x); intros H; inv_result.
  split; [reflexivity|]. apply nth_error_Some. congruence.
Qed.

Lemma same_shape_true (a b : mat A) :
  shape2 a = shape2 b -> same_shape a b = true.
Proof.
  unfold same_shape. intros H.
  destruct (list_eq_dec Nat.eq_dec (shape2 a) (shape2 b)); congruence.
Qed.

Lemma shape2_zeros2 (batch dim : nat) :
  shape2 (zeros2 (A:=A) batch dim) = repeat dim batch.
Proof.
  unfold shape2, zeros2. induction batch; simpl; [reflexivity|].
  rewrite repeat_length. congruence.
Qed.

End BufferFacts.

(** ** The rollout *)

Section RolloutFacts.
Context {A : Type} {SA : Scalar A}.
Import adaptable_sympRNN.

Variable c : cell A.
Variable params : option (mat A).
Variable training : bool.

Lemma rollout_init_inv (q_initial p_initial : mat A) (final : nat)
      (bufs : buffers A) :
  rollout_init q_initial p_initial final = Ok bufs ->
  rollout_inv c params training q_initial p_initial final 0 bufs.
Proof.
  unfold rollout_init. intros Hi. inv_result.
  apply setitem_Ok in E as [-> Hq]. apply setitem_Ok in E0 as [-> Hp].
  unfold rollout_inv, zeros3 in *.
  rewrite !length_list_set, !repeat_length in *.
  repeat split; try reflexivity.
  - apply nth_error_list_set_eq. rewrite repeat_length. lia.
  - apply nth_error_list_set_eq. rewrite repeat_length. lia.
  - intros t Ht. lia.
Qed.

Lemma rollout_body_inv (q_initial p_initial : mat A) (final k : nat)
      (bufs bufs' : buffers A) :
  rollout_inv c params training q_initial p_initial final k bufs ->
  rollout_body c params training bufs k = Ok bufs' ->
  rollout_inv c params training q_initial p_initial final (k + 1) bufs'.
Proof.
  destruct bufs as [[H q] p]. unfold rollout_body.
  intros (LH & Lq & Lp & Hq0 & Hp0 & Htr) Hb. inv_result.
  apply getitem_Ok in E, E0.
  apply setitem_Ok in E2 as [-> HkH], E3 as [-> Hkq], E4 as [-> Hkp].
  unfold rollout_inv. rewrite !length_list_set.
  repeat split; auto.
  - rewrite nth_error_list_set_neq by lia. assumption.
  - rewrite nth_error_list_set_neq by lia. assumption.
  - intros t Ht. unfold transition.
    destruct (Nat.eq_dec t k) as [->|Hne].
    + exists x, x0, m0, m1, m.
      rewrite !nth_error_list_set_eq by assumption.
      rewrite !nth_error_list_set_neq by lia.
      repeat split; assumption || reflexivity.
    + destruct (Htr t ltac:(lia)) as (qt & pt & Ht' & q' & p' & H1 & H2 & H3 & H4 & H5 & H6).
      exists qt, pt, Ht', q', p'.
      rewrite !nth_error_list_set_neq by lia.
      repeat split; assumption.
Qed.

Lemma rollout_loop_inv (q_initial p_initial : mat A) (final n k : nat)
      (bufs bufs' : buffers A) :
  rollout_inv c params training q_initial p_initial final k bufs ->
  foldM (rollout_body c params training) (seq k n) bufs = Ok bufs' ->
  rollout_inv c params training q_initial p_initial final (k + n) bufs'.
Proof.
  revert k bufs. induction n as [|n IH]; intros k bufs Hinv Hf; simpl in Hf.
  - inv_result. rewrite Nat.add_0_r. assumption.
  - inv_result. replace (k + S n) with (S k + n) by lia.
    apply IH with (bufs := x); [|assumption].
    replace (S k) with (k + 1) by lia.
    eapply rollout_body_inv; eassumption.
Qed.

(** What a successful rollout returns, for any cell. *)
Lemma rollout_spec (q_initial p_initial : mat A) (final : nat)
      (H qs ps : tensor3 A) :
  rollout c q_initial p_initial params final training = Ok (H, qs, ps) ->
  rollout_buffers c q_initial p_initial params final training
    = Ok (H, q_initial :: qs, p_initial :: ps) /\
  rollout_inv c params training q_initial p_initial final final
              (H, q_initial :: qs, p_initial :: ps).
Proof.
  unfold rollout. intros Hr.
  apply bind_Ok in Hr as ([[H' q] p] & E & Hr).
  inversion Hr; subst; clear Hr.
  rewrite !py_slice_from_1.
  assert (Hinv : rollout_inv c params training q_initial p_initial final
                             final (H, q, p)).
  { unfold rollout_buffers in E.
    apply bind_Ok in E as (bufs & Ei & El).
    change final with (0 + final) at 2.
    eapply rollout_loop_inv; [|eassumption].
    apply rollout_init_inv. assumption. }
  destruct Hinv as (LH & Lq & Lp & Hq0 & Hp0 & Htr).
  destruct q as [|q1 q]; [discriminate|].
  destruct p as [|p1 p]; [discriminate|].
  simpl in Hq0, Hp0. inversion Hq0; inversion Hp0; subst.
  split; [assumption|].
  unfold rollout_inv. repeat split; assumption || reflexivity.
Qed.

End RolloutFacts.

Section ForwardFacts.
Context {A : Type} {SA : Scalar A}.
Import adaptable_sympRNN.

(** C3: the time-indexed buffers [q], [p] that a successful [forward] has
    filled (slots 0..T) start with the supplied initial condition, and every
    later slot is the integrator cell applied to the slot before it and the
    shared parameters; [forward] returns these buffers without slot 0. *)
Theorem forward_trajectory_invariant (self : t A) (q_initial p_initial : mat A)
        (params : option (mat A)) (final : nat) (training : bool)
        (H qs ps : tensor3 A) :
  forward self q_initial p_initial params final training = Ok (H, qs, ps) ->
  exists q p,
    rollout_buffers (select_step self) q_initial p_initial params final
                    training = Ok (H, q, p) /\
    nth_error q 0 = Some q_initial /\
    nth_error p 0 = Some p_initial /\
    (forall t, t < final ->
       transition (select_step self) params training (H, q, p) t) /\
    qs = tl q /\ ps = tl p.
Proof.
  unfold forward. intros Hf. apply rollout_spec in Hf as [Hb Hinv].
  exists (q_initial :: qs), (p_initial :: ps).
  destruct Hinv as (_ & _ & _ & Hq0 & Hp0 & Htr).
  repeat split; assumption || reflexivity.
Qed.

(** C4: a successful [forward] with horizon T returns T position entries
    and T momentum entries, and for T >= 1 entry 0 is the result of one
    integrator step from the initial condition. *)
Theorem forward_returns_predictions (self : t A) (q_initial p_initial : mat A)
        (params : option (mat A)) (final : nat) (training : bool)
        (H qs ps : tensor3 A) :
  forward self q_initial p_initial params final training = Ok (H, qs, ps) ->
  1 <= final ->
  length qs = final /\
  length ps = final /\
  exists H_0 q_1 p_1,
    select_step self q_initial p_initial params training = Ok (H_0, q_1, p_1) /\
    nth_error qs 0 = Some q_1 /\
    nth_error ps 0 = Some p_1.
Proof.
  unfold forward. intros Hf HT. apply rollout_spec in Hf as [_ Hinv].
  destruct Hinv as (_ & Lq & Lp & _ & _ & Htr).
  simpl in Lq, Lp. repeat split; try lia.
  destruct (Htr 0 ltac:(lia))
    as (q_t & p_t & H_t & q' & p' & Hq & Hp & Hc & _ & Hq' & Hp').
  simpl in Hq, Hp, Hq', Hp'. inversion Hq; inversion Hp; subst.
  exists H_t, q', p'. repeat split; assumption.
Qed.

(** C9: with horizon 0 and a well-shaped initial condition, [forward]
    succeeds and returns an empty energy trace and empty trajectories; the
    same holds for the rollout loop around any cell whatsoever, so no
    integrator step is invoked. *)
Theorem forward_horizon_zero (self : t A) (q_initial p_initial : mat A)
        (params : option (mat A)) (training : bool) :
  rectangular q_initial ->
  shape2 p_initial = shape2 q_initial ->
  forward self q_initial p_initial params 0 training = Ok ([], [], []) /\
  forall c : cell A,
    rollout c q_initial p_initial params 0 training = Ok ([], [], []).
Proof.
  intros Hrect Hshape.
  assert (Hall : forall c : cell A,
             rollout c q_initial p_initial params 0 training = Ok ([], [], [])).
  { intros c. unfold rollout, rollout_buffers, rollout_init, setitem. simpl.
    rewrite (same_shape_true (zeros2 _ _) q_initial)
      by (rewrite shape2_zeros2; symmetry; exact Hrect).
    rewrite (same_shape_true (zeros2 _ _) p_initial)
      by (rewrite shape2_zeros2, Hshape; symmetry; exact Hrect).
    reflexivity. }
  split; [apply Hall | exact Hall].
Qed.

End ForwardFacts.

(** ** Loops and slices *)

Section LoopFacts.
Context {S X : Type}.
Variable body : S -> X -> result S.

(** A property kept by every successful iteration is kept by the loop. *)
Lemma foldM_invariant (P : S -> Prop) (xs : list X) (s s' : S) :
  (forall s1 x s2, In x xs -> P s1 -> body s1 x = Ok s2 -> P s2) ->
  P s -> foldM body xs s = Ok s' -> P s'.
Proof.
  revert s. induction xs as [|x xs IH]; intros s Hstep Hs Hf; simpl in Hf.
  - inv_result. assumption.
  - apply bind_Ok in Hf as (s1 & Hb & Hf).
    apply IH with (s := s1); [| |assumption].
    + intros s2 y s3 Hy. apply Hstep. right. assumption.
    + apply Hstep with (s1 := s) (x := x); [left; reflexivity|assumption..].
Qed.

(** A loop that completed has run its body on every element. *)
Lemma foldM_each (xs : list X) (s s' : S) :
  foldM body xs s = Ok s' ->
  forall x, In x xs -> exists s1 s2, body s1 x = Ok s2.
Proof.
  revert s. induction xs as [|y xs IH]; intros s Hf x Hx; simpl in Hf.
  - destruct Hx.
  - apply bind_Ok in Hf as (s1 & Hb & Hf). destruct Hx as [->|Hx].
    + exists s, s1. assumption.
    + eapply IH; eassumption.
Qed.

End LoopFacts.

(** Two loop bodies that agree on the elements of the list give the same
    loop. *)
Lemma foldM_ext_in {S X : Type} (f g : S -> X -> result S) (xs : list X)
      (s : S) :
  (forall x s0, In x xs -> f s0 x = g s0 x) -> foldM f xs s = foldM g xs s.
Proof.
  revert s. induction xs as [|x xs IH]; intros s H; cbn [foldM];
    [reflexivity|].
  rewrite (H x s (or_introl eq_refl)).
  destruct (g s x) as [s1|e]; cbn [bind]; [|reflexivity].
  apply IH. intros y s0 Hy. apply H. right. exact Hy.
Qed.

Section SliceFacts.
Context {X : Type}.

Lemma firstn_min_length (n : nat) (l : list X) :
  firstn (Nat.min n (length l)) l = firstn n l.
Proof.
  destruct (le_lt_dec n (length l)) as [Hle|Hlt].
  - rewrite Nat.min_l by assumption. reflexivity.
  - rewrite Nat.min_r by lia. rewrite firstn_all, firstn_all2 by lia.
    reflexivity.
Qed.

(** [l[b : b + n]] is rows [b .. b+n-1] of [l]. *)
Lemma py_slice_rows (l : list X) (b : nat) (n : Z) :
  (0 <= n)%Z ->
  py_slice l (Z.of_nat b) (Z.of_nat b + n) = rows l b (Z.to_nat n).
Proof.
  intros Hn. unfold py_slice, slice_index, rows.
  destruct (Z.ltb_spec (Z.of_nat b) 0) as [Hneg|_]; [lia|].
  destruct (Z.ltb_spec (Z.of_nat b + n) 0) as [Hneg|_]; [lia|].
  rewrite Nat2Z.id.
  replace (Z.to_nat (Z.of_nat b + n)) with (b + Z.to_nat n) by lia.
  destruct (le_lt_dec b (length l)) as [Hle|Hlt].
  - rewrite (Nat.min_l b) by assumption.
    replace (Nat.min (b + Z.to_nat n) (length l) - b)
      with (Nat.min (Z.to_nat n) (length (skipn b l)))
      by (rewrite length_skipn; lia).
    apply firstn_min_length.
  - rewrite (Nat.min_r b) by lia.
    rewrite skipn_all, (skipn_all2 l) by lia.
    rewrite !firstn_nil. reflexivity.
Qed.

Lemma nth_error_rows (l : list X) (b n i : nat) :
  nth_error (rows l b n) i = if i <? n then nth_error l (b + i) else None.
Proof.
  unfold rows. rewrite nth_error_firstn, nth_error_skipn. reflexivity.
Qed.

Lemma length_rows (l : list X) (b n : nat) :
  b + n <= length l -> length (rows l b n) = n.
Proof.
  intros H. unfold rows. rewrite length_firstn, length_skipn. lia.
Qed.

End SliceFacts.

(** Inside [for b in range(int(N / batch_size))] the batch size is positive
    and the window [b .. b + batch_size - 1] lies within the [N] rows. *)
Lemma batch_window_in_range (N b : nat) (batch_size num : Z) :
  num_batches N batch_size = Ok num ->
  (Z.of_nat b < num)%Z ->
  (0 < batch_size)%Z /\ b + Z.to_nat batch_size <= N.
Proof.
  unfold num_batches. destruct (Z.eqb_spec batch_size 0) as [|Hnz];
    [discriminate|].
  intros Hq Hb. inversion Hq; subst; clear Hq.
  assert (Hpos : (0 < batch_size)%Z).
  { destruct (Z.lt_trichotomy batch_size 0) as [Hneg|[|]]; [|lia|assumption].
    exfalso.
    assert (Hq := Z.quot_pos (Z.of_nat N) (- batch_size) ltac:(lia) ltac:(lia)).
    rewrite Z.quot_opp_r in Hq by lia. lia. }
  split; [assumption|].
  rewrite Z.quot_div_nonneg in Hb by lia.
  assert (Hm := Z.mul_div_le (Z.of_nat N) batch_size Hpos).
  nia.
Qed.

(** ** The training and validation loops *)

Section TrainerFacts.
Context {A : Type} {SA : Scalar A}.
Variable Grad : Type.
Variable OptState : Type.
Variable Adam : adaptable_sympRNN.t A -> A -> OptState.
Variable backward :
  adaptable_sympRNN.t A -> dataset A -> nat -> option Grad -> Grad.
Variable Adam_step :
  OptState -> option Grad -> adaptable_sympRNN.t A ->
  OptState * adaptable_sympRNN.t A.

Lemma valid_batch_eq (valid : dataset A) (time : nat) (batch_size : Z)
      (m : nn_module A Grad) (opt : OptState) (l : A) (b : nat) :
  valid_batch valid time batch_size (m, opt, l) b =
  (loss <- batch_loss (weights m) (batch_of valid b batch_size) time ;;
   Ok (zero_grad m, opt, s_add l loss)).
Proof.
  unfold valid_batch, batch_loss, batch_of.
  cbn [q_input p_input params q_output p_output weights zero_grad].
  destruct (adaptable_sympRNN.forward _ _ _ _ _ _) as [[[H q] p]|e];
    [cbn [bind]|reflexivity].
  destruct (cat_dim2 q p) as [pred|e]; [cbn [bind]|reflexivity].
  destruct (cat_dim2 _ _) as [target|e]; [cbn [bind]|reflexivity].
  destruct (MSELoss pred target) as [loss|e]; reflexivity.
Qed.

Lemma train_batch_eq (train : dataset A) (time : nat) (batch_size : Z)
      (m : nn_module A Grad) (opt : OptState) (l : A) (b : nat) :
  train_batch backward Adam_step train time batch_size (m, opt, l) b =
  (loss <- batch_loss (weights m) (batch_of train b batch_size) time ;;
   let '(m', opt') :=
     optimizer_step Adam_step
       (loss_backward backward (zero_grad m)
                      (batch_of train b batch_size) time, opt) in
   Ok (m', opt', s_add l loss)).
Proof.
  unfold train_batch, batch_loss, batch_of.
  cbn [q_input p_input params q_output p_output weights zero_grad].
  destruct (adaptable_sympRNN.forward _ _ _ _ _ _) as [[[H q] p]|e];
    [cbn [bind]|reflexivity].
  destruct (cat_dim2 q p) as [pred|e]; [cbn [bind]|reflexivity].
  destruct (cat_dim2 _ _) as [target|e]; [cbn [bind]|reflexivity].
  destruct (MSELoss pred target) as [loss|e]; reflexivity.
Qed.

Lemma batch_of_window (d : dataset A) (b : nat) (batch_size : Z) :
  (0 <= batch_size)%Z ->
  batch_of d b batch_size = window d b (Z.to_nat batch_size).
Proof.
  intros Hn. unfold batch_of, window. rewrite !py_slice_rows by assumption.
  f_equal; apply map_ext; intros m; apply py_slice_rows; assumption.
Qed.

(** The window of an iteration of the loop over [int(N / batch_size)]
    batches. *)
Lemma window_is_sliding (d : dataset A) (batch_size num : Z) (b : nat) :
  num_batches (length (q_input d)) batch_size = Ok num ->
  (Z.of_nat b < num)%Z ->
  sliding_window d num b (Z.to_nat batch_size).
Proof.
  intros Hnum Hb.
  destruct (@batch_window_in_range _ _ _ _ Hnum Hb) as [Hpos Hfit].
  set (n := Z.to_nat batch_size) in *.
  unfold sliding_window. split; [exact Hfit|]. split; [|split].
  - apply length_rows. assumption.
  - intros i Hi. cbn [window q_input]. rewrite nth_error_rows.
    destruct (Nat.ltb_spec i n); [reflexivity|lia].
  - intros Hn Hb'.
    destruct (@batch_window_in_range _ _ _ _ Hnum Hb') as [_ Hfit'].
    fold n in Hfit'.
    destruct (nth_error (q_input d) (b + 1)) as [row|] eqn:Er.
    + exists row. cbn [window q_input]. rewrite !nth_error_rows.
      destruct (Nat.ltb_spec 1 n); [|lia].
      destruct (Nat.ltb_spec 0 n); [|lia].
      rewrite Nat.add_0_r. auto.
    + apply nth_error_None in Er. lia.
Qed.

(** Iteration [b] of either loop is the iteration on window [b]. *)
Lemma train_batch_window (d : dataset A) (time : nat) (batch_size num : Z)
      (b : nat) (s : loop_state Grad OptState) :
  num_batches (length (q_input d)) batch_size = Ok num ->
  (Z.of_nat b < num)%Z ->
  train_batch backward Adam_step d time batch_size s b
  = train_on backward Adam_step (window d b (Z.to_nat batch_size)) time s.
Proof.
  intros Hnum Hb. destruct s as [[m opt] l].
  destruct (@batch_window_in_range _ _ _ _ Hnum Hb) as [Hpos _].
  rewrite train_batch_eq, batch_of_window by lia. reflexivity.
Qed.

Lemma valid_batch_window (d : dataset A) (time : nat) (batch_size num : Z)
      (b : nat) (s : loop_state Grad OptState) :
  num_batches (length (q_input d)) batch_size = Ok num ->
  (Z.of_nat b < num)%Z ->
  valid_batch d time batch_size s b
  = validate_on (window d b (Z.to_nat batch_size)) time s.
Proof.
  intros Hnum Hb. destruct s as [[m opt] l].
  destruct (@batch_window_in_range _ _ _ _ Hnum Hb) as [Hpos _].
  rewrite valid_batch_eq, batch_of_window by lia. reflexivity.
Qed.

(** C5: with [num = int(N / batch_size)], the training loop is the loop that
    runs, for [b = 0, 1, ..., num - 1] in this order, one training iteration
    on rows [b .. b+batch_size-1] of the data (window [b], not window
    [b * batch_size]), and the validation loop is the same loop of validation
    iterations; for every such [b] the body of either loop is the iteration
    on window [b], which lies within the data, has [batch_size] rows, and for
    [batch_size > 1] shares row [b+1] with the window of iteration [b+1]. *)
Theorem batches_are_sliding_windows (d : dataset A) (time : nat)
        (batch_size num : Z) (model : nn_module A Grad) (opt : OptState)
        (b : nat) :
  num_batches (length (q_input d)) batch_size = Ok num ->
  (Z.of_nat b < num)%Z ->
  train_loop backward Adam_step d time batch_size num model opt
  = foldM (fun (s : loop_state Grad OptState) b' =>
             train_on backward Adam_step
                      (window d b' (Z.to_nat batch_size)) time s)
          (range num) (set_mode model true, opt, s_zero) /\
  valid_loop d time batch_size num model opt
  = foldM (fun (s : loop_state Grad OptState) b' =>
             validate_on (window d b' (Z.to_nat batch_size)) time s)
          (range num) (set_mode model false, opt, s_zero) /\
  (forall s : loop_state Grad OptState,
     train_batch backward Adam_step d time batch_size s b
     = train_on backward Adam_step (window d b (Z.to_nat batch_size))
                time s) /\
  (forall s : loop_state Grad OptState,
     valid_batch d time batch_size s b
     = validate_on (window d b (Z.to_nat batch_size)) time s) /\
  sliding_window d num b (Z.to_nat batch_size).
Proof.
  intros Hnum Hb.
  assert (Hin : forall b', In b' (range num) -> (Z.of_nat b' < num)%Z).
  { intros b' Hb'. unfold range in Hb'. apply in_seq in Hb'. lia. }
  split; [|split; [|split; [|split]]].
  - unfold train_loop. apply foldM_ext_in. intros b' s Hb'.
    eapply train_batch_window; [exact Hnum|]. apply Hin. exact Hb'.
  - unfold valid_loop. apply foldM_ext_in. intros b' s Hb'.
    eapply valid_batch_window; [exact Hnum|]. apply Hin. exact Hb'.
  - intros s. eapply train_batch_window; eassumption.
  - intros s. eapply valid_batch_window; eassumption.
  - eapply window_is_sliding; eassumption.
Qed.

Lemma valid_batch_weights (valid : dataset A) (time : nat) (batch_size : Z)
      (m m' : nn_module A Grad) (opt opt' : OptState) (l l' : A) (b : nat) :
  valid_batch valid time batch_size (m, opt, l) b = Ok (m', opt', l') ->
  weights m' = weights m /\ opt' = opt.
Proof.
  rewrite valid_batch_eq. intros Hv.
  apply bind_Ok in Hv as (loss & _ & Hv). inversion Hv. auto.
Qed.

Lemma valid_loop_weights (valid : dataset A) (time : nat)
      (batch_size num_valid : Z) (m m' : nn_module A Grad)
      (opt opt' : OptState) (l' : A) :
  valid_loop valid time batch_size num_valid m opt = Ok (m', opt', l') ->
  weights m' = weights m /\ opt' = opt.
Proof.
  unfold valid_loop. intros Hl.
  apply (@foldM_invariant _ _ _
           (fun s : loop_state Grad OptState =>
              weights (fst (fst s)) = weights m /\ snd (fst s) = opt))
    in Hl; [exact Hl| |split; reflexivity].
  intros [[m1 o1] l1] x [[m2 o2] l2] _ [Hw Ho] Hb. simpl in *.
  apply valid_batch_weights in Hb as [Hw' Ho']. split; congruence.
Qed.

(** C7: a validation batch, and hence the whole validation loop, leaves
    the weights (and the optimizer) as they were; a training batch changes
    the weights exactly by the optimizer step on the gradient of that batch;
    and the weights an epoch ends with are those its training loop produced. *)
Theorem validation_keeps_weights (train valid : dataset A) (time : nat)
        (batch_size num_train num_valid : Z) :
  (forall (m : nn_module A Grad) (opt : OptState) l b m' opt' l',
      valid_batch valid time batch_size (m, opt, l) b = Ok (m', opt', l') ->
      weights m' = weights m /\ opt' = opt) /\
  (forall (m : nn_module A Grad) (opt : OptState) m' opt' l',
      valid_loop valid time batch_size num_valid m opt = Ok (m', opt', l') ->
      weights m' = weights m /\ opt' = opt) /\
  (forall (m : nn_module A Grad) opt l b m' opt' l',
      train_batch backward Adam_step train time batch_size (m, opt, l) b
      = Ok (m', opt', l') ->
      (opt', weights m') =
      Adam_step opt
        (Some (backward (weights m) (batch_of train b batch_size) time None))
        (weights m)) /\
  (forall m opt tl vl it m' opt' tl' vl',
      epoch backward Adam_step train valid time batch_size num_train num_valid
            (m, opt, tl, vl) it = Ok (m', opt', tl', vl') ->
      exists m1 l1,
        train_loop backward Adam_step train time batch_size num_train m opt
        = Ok (m1, opt', l1) /\
        weights m' = weights m1).
Proof.
  repeat split.
  - eapply valid_batch_weights; eassumption.
  - eapply valid_batch_weights; eassumption.
  - eapply valid_loop_weights; eassumption.
  - eapply valid_loop_weights; eassumption.
  - intros m opt l b m' opt' l'. rewrite train_batch_eq. intros Ht.
    apply bind_Ok in Ht as (loss & _ & Ht).
    unfold optimizer_step, loss_backward, zero_grad in Ht.
    cbn [weights grad training] in Ht.
    destruct (Adam_step opt _ (weights m)) as [o w] eqn:Ea.
    inversion Ht; subst. reflexivity.
  - intros m opt tl vl it m' opt' tl' vl'. unfold epoch. intros He.
    apply bind_Ok in He as ([[m1 o1] l1] & Et & He).
    apply bind_Ok in He as (tloss & _ & He).
    apply bind_Ok in He as ([[m2 o2] l2] & Ev & He).
    apply bind_Ok in He as (vloss & _ & He).
    inversion He; subst.
    apply valid_loop_weights in Ev as [Hw Ho]. subst.
    exists m1, l1. auto.
Qed.

(** C6 (as the code has it): with at least one epoch, an empty training
    loop makes [train_validate] raise [ZeroDivisionError] at
    [train_batch_loss /= num_train]; an empty validation loop makes it raise
    as well, with [ZeroDivisionError] at [valid_batch_loss /= num_valid]
    whenever the training loop of the first epoch completes.  No loss array
    is returned in either case. *)
Theorem zero_batches_raise (model : nn_module A Grad) (train valid : dataset A)
        (n_epochs : nat) (batch_size : Z) (learning_rate : A) :
  1 <= n_epochs ->
  (num_batches (length (q_input train)) batch_size = Ok 0%Z ->
   train_validate Adam backward Adam_step model train valid n_epochs
                  batch_size learning_rate = Raise ZeroDivisionError) /\
  (num_batches (length (q_input valid)) batch_size = Ok 0%Z ->
   exists e,
     train_validate Adam backward Adam_step model train valid n_epochs
                    batch_size learning_rate = Raise e /\
     forall num_train s,
       num_batches (length (q_input train)) batch_size = Ok num_train ->
       train_loop backward Adam_step train (length (q_output train))
                  batch_size num_train model (Adam (weights model) learning_rate)
       = Ok s ->
       e = ZeroDivisionError).
Proof.
  intros Hn. destruct n_epochs as [|n]; [lia|].
  split.
  - intros Ht. unfold train_validate. rewrite Ht. cbn [bind].
    assert (Hbs : exists nv,
               num_batches (length (q_input valid)) batch_size = Ok nv).
    { unfold num_batches in *. destruct (batch_size =? 0)%Z;
        [discriminate|eauto]. }
    destruct Hbs as (nv & ->). reflexivity.
  - intros Hv.
    assert (Hbs : exists nt,
               num_batches (length (q_input train)) batch_size = Ok nt).
    { unfold num_batches in *. destruct (batch_size =? 0)%Z;
        [discriminate|eauto]. }
    destruct Hbs as (nt & Ht).
    unfold train_validate. rewrite Ht, Hv. cbn [bind seq foldM].
    unfold epoch at 1.
    destruct (train_loop backward Adam_step train (length (q_output train))
                batch_size nt model (Adam (weights model) learning_rate))
      as [[[m1 o1] l1]|e] eqn:Et; cbn [bind].
    + exists ZeroDivisionError. split; [|reflexivity].
      unfold truediv at 1. destruct (nt =? 0)%Z; [reflexivity|].
      cbn [bind]. reflexivity.
    + exists e. split; [reflexivity|].
      intros num_train s Ht' Hs. inversion Ht'; subst.
      congruence.
Qed.

End TrainerFacts.

(** ** Shapes: a well-formed model accepts well-shaped inputs *)

Section ShapeFacts.
Context {A : Type} {SA : Scalar A}.

Lemma length_map2 {X Y Z : Type} (f : X -> Y -> Z) (xs : list X) (ys : list Y) :
  length (map2 f xs ys) = Nat.min (length xs) (length ys).
Proof.
  revert ys. induction xs as [|x xs IH]; intros [|y ys]; simpl; auto.
Qed.

Lemma linear_shape (l : Linear A) (x : vec A) :
  wf_Linear l -> length x = in_features l ->
  exists y, linear l x = Ok y /\ length y = out_features l.
Proof.
  intros (Hw & _ & Hb) Hx. unfold linear.
  rewrite Hx, Nat.eqb_refl. eexists. split; [reflexivity|].
  rewrite length_map2, length_map. lia.
Qed.

Lemma linear_backward_shape (l : Linear A) (g : vec A) :
  wf_Linear l -> length (linear_backward l g) = in_features l.
Proof.
  intros (_ & Hrows & _). unfold linear_backward.
  revert g. induction Hrows as [|w ws Hw Hws IH]; intros g.
  - destruct g; simpl; apply repeat_length.
  - destruct g as [|gi g]; simpl; [apply repeat_length|].
    rewrite length_map2, length_map, IH. lia.
Qed.

Lemma tanh_backward_shape (y g : vec A) :
  length g = length y -> length (tanh_backward y g) = length y.
Proof.
  intros H. unfold tanh_backward. rewrite length_map2. lia.
Qed.

(** One row through a well-formed [Sequential]. *)
Lemma sequential_row_shape (layers : Sequential A) (n_in n_out k : nat)
      (x : traced (vec A)) :
  wf_Sequential layers n_in n_out ->
  length (fst x) = n_in ->
  (forall g, length g = n_in -> length (snd x g) = k) ->
  exists y back,
    sequential_row layers x = Ok (y, back) /\
    length y = n_out /\
    (forall g, length g = n_out -> length (back g) = k).
Proof.
  revert n_in x. induction layers as [|l rest IH]; intros n_in [x bx] Hwf Hx Hb;
    simpl in *.
  - subst. eauto.
  - destruct l as [lin|]; simpl.
    + destruct Hwf as (Hl & Hin & Hrest).
      destruct (linear_shape x Hl) as (y & -> & Hy); [congruence|]. simpl.
      apply (IH (out_features lin)); simpl; auto.
      intros g Hg. apply Hb. rewrite linear_backward_shape; assumption.
    + apply (IH n_in); simpl; auto.
      * rewrite length_map. assumption.
      * intros g Hg. apply Hb.
        rewrite tanh_backward_shape; rewrite length_map; congruence.
Qed.

Lemma Forall_map2 {X Y Z : Type} (f : X -> Y -> Z) (P : X -> Prop)
      (Q : Y -> Prop) (R : Z -> Prop) (xs : list X) (ys : list Y) :
  (forall x y, P x -> Q y -> R (f x y)) ->
  Forall P xs -> Forall Q ys -> Forall R (map2 f xs ys).
Proof.
  intros Hf Hxs. revert ys. induction Hxs as [|x xs Hx Hxs IH];
    intros ys Hys; simpl; [constructor|].
  destruct Hys as [|y ys Hy Hys]; constructor; auto.
Qed.

Lemma shape2_of_has_shape (m : mat A) (batch dim : nat) :
  has_shape m batch dim -> shape2 m = repeat dim batch.
Proof.
  intros [<- Hrows]. unfold shape2.
  induction Hrows as [|r m Hr Hrows IH]; simpl; congruence.
Qed.

Lemma has_shape_map_map (f : A -> A) (m : mat A) (batch dim : nat) :
  has_shape m batch dim -> has_shape (map (map f) m) batch dim.
Proof.
  intros [Hl Hrows]. split; [rewrite length_map; assumption|].
  apply Forall_map. eapply Forall_impl; [|exact Hrows].
  intros r Hr. simpl. rewrite length_map. assumption.
Qed.

Lemma has_shape_mscale (c : A) (m : mat A) (batch dim : nat) :
  has_shape m batch dim -> has_shape (mscale c m) batch dim.
Proof.
  apply has_shape_map_map.
Qed.

Lemma has_shape_map2 (f : vec A -> vec A -> vec A) (a c : mat A)
      (batch d1 d2 d : nat) :
  (forall x y, length x = d1 -> length y = d2 -> length (f x y) = d) ->
  has_shape a batch d1 -> has_shape c batch d2 ->
  has_shape (map2 f a c) batch d.
Proof.
  intros Hf [Hla Ha] [Hlc Hc]. split.
  - rewrite length_map2. lia.
  - eapply Forall_map2; [|exact Ha|exact Hc]. exact Hf.
Qed.

Lemma madd_shape (a c : mat A) (batch dim : nat) :
  has_shape a batch dim -> has_shape c batch dim ->
  exists r, madd a c = Ok r /\ has_shape r batch dim.
Proof.
  intros Ha Hc. unfold madd, mzip.
  rewrite same_shape_true
    by (rewrite (shape2_of_has_shape Ha), (shape2_of_has_shape Hc);
        reflexivity).
  eexists. split; [reflexivity|].
  eapply has_shape_map2; [|exact Ha|exact Hc].
  intros x y Hx Hy. rewrite length_map2. lia.
Qed.

Lemma cat_dim1_shape (a c : mat A) (batch d1 d2 : nat) :
  has_shape a batch d1 -> has_shape c batch d2 ->
  exists r, cat_dim1 a c = Ok r /\ has_shape r batch (d1 + d2).
Proof.
  intros Ha Hc. unfold cat_dim1.
  replace (length a =? length c) with true
    by (symmetry; apply Nat.eqb_eq; destruct Ha, Hc; congruence).
  eexists. split; [reflexivity|].
  eapply has_shape_map2; [|exact Ha|exact Hc].
  intros x y Hx Hy. rewrite length_app. lia.
Qed.

Lemma take_cols_shape (a g : mat A) (batch d e : nat) :
  has_shape a batch d -> has_shape g batch (d + e) ->
  has_shape (adaptable_HNN.take_cols a g) batch d.
Proof.
  intros Ha Hg. unfold adaptable_HNN.take_cols.
  eapply has_shape_map2; [|exact Ha|exact Hg].
  intros x y Hx Hy. rewrite length_firstn. lia.
Qed.

(** A batch through a well-formed [Sequential]: the value has the output
    width, and the backward function maps output-shaped cotangents to
    cotangents of the graph's input. *)
Lemma sequential_call_shape (layers : Sequential A) (n_in n_out batch k : nat)
      (x : traced (mat A)) :
  wf_Sequential layers n_in n_out ->
  has_shape (fst x) batch n_in ->
  (forall G, has_shape G batch n_in -> has_shape (snd x G) batch k) ->
  exists Y back,
    sequential_call layers x = Ok (Y, back) /\
    has_shape Y batch n_out /\
    (forall G, has_shape G batch n_out -> has_shape (back G) batch k).
Proof.
  intros Hwf [Hlen Hrows] Hb. unfold sequential_call.
  assert (Hm : exists rows,
             mapM (fun r => sequential_row layers (r, fun g => g)) (fst x)
             = Ok rows /\
             length rows = length (fst x) /\
             Forall (fun row : traced (vec A) =>
                       length (fst row) = n_out /\
                       forall g, length g = n_out ->
                                 length (snd row g) = n_in) rows).
  { clear Hlen Hb. induction Hrows as [|r m Hr Hrows IH]; simpl.
    - exists []. repeat split; constructor.
    - destruct (@sequential_row_shape layers n_in n_out n_in
                  (@pair (vec A) (vec A -> vec A) r (fun g => g))
                  Hwf Hr ltac:(auto))
        as (y & back & -> & Hy & Hback).
      destruct IH as (rows & -> & Hl & Hall). simpl.
      exists ((y, back) :: rows). repeat split; simpl; auto. }
  destruct Hm as (rows & -> & Hl & Hall). simpl.
  eexists _, _. split; [reflexivity|]. split.
  - split; [rewrite length_map; unfold traced, mat, vec in *; lia|].
    apply Forall_map. eapply Forall_impl; [|exact Hall].
    intros row [Hrow _]. exact Hrow.
  - intros G [HlG HG]. apply Hb. split.
    + rewrite length_map2. unfold traced, mat, vec in *. lia.
    + eapply Forall_map2; [|exact Hall|exact HG].
      intros row g [_ Hrow] Hg. apply Hrow. assumption.
Qed.

Lemma autograd_grad_sum_shape (out : traced (mat A)) (create_graph : bool)
      (batch n k : nat) :
  has_shape (fst out) batch n ->
  (forall G, has_shape G batch n -> has_shape (snd out G) batch k) ->
  has_shape (autograd_grad_sum out create_graph) batch k.
Proof.
  intros Hout Hb. unfold autograd_grad_sum. apply Hb.
  apply has_shape_map_map. assumption.
Qed.

Lemma kinetic_forward_shape (net : adaptable_partial_HNN.t A) (p : mat A)
      (params : option (mat A)) (training : bool) (batch d : nat) :
  wf_kinetic net d -> has_shape p batch d ->
  exists K dK,
    adaptable_partial_HNN.forward net p params training = Ok (K, dK) /\
    has_shape K batch 1 /\ has_shape dK batch d.
Proof.
  intros (Hk & h & Hin & Hen) Hp. unfold adaptable_partial_HNN.forward.
  rewrite Hk.
  destruct (@sequential_call_shape _ d h batch d (leaf p) Hin Hp
              ltac:(auto)) as (Y & back & -> & HY & Hback).
  cbn [bind].
  destruct (@sequential_call_shape _ h 1 batch d (Y, back) Hen HY Hback)
    as (K & backK & -> & HK & HbackK).
  cbn [bind].
  destruct training; eexists _, _; (split; [reflexivity|]); split;
    try exact HK; apply (@autograd_grad_sum_shape (K, backK) _ batch 1 d);
    assumption.
Qed.

Lemma potential_forward_shape (net : adaptable_partial_HNN.t A)
      (q params : mat A) (training : bool) (batch d np : nat) :
  wf_potential net d np -> has_shape q batch d -> has_shape params batch np ->
  exists V F,
    adaptable_partial_HNN.forward net q (Some params) training = Ok (V, F) /\
    has_shape V batch 1 /\ has_shape F batch d.
Proof.
  intros (Hk & h & Hin & Hen) Hq Hps. unfold adaptable_partial_HNN.forward.
  rewrite Hk. cbn [adaptable_HNN.tensor_arg bind].
  destruct (cat_dim1_shape Hq Hps) as (input & -> & Hinput). cbn [bind].
  destruct (@sequential_call_shape _ (d + np) h batch (d + np) (leaf input)
              Hin Hinput ltac:(auto)) as (Y & back & -> & HY & Hback).
  cbn [bind].
  destruct (@sequential_call_shape _ h 1 batch (d + np) (Y, back) Hen HY
              Hback) as (V & backV & -> & HV & HbackV).
  cbn [bind].
  destruct training; eexists _, _; (split; [reflexivity|]); split;
    try exact HV; apply has_shape_map_map;
    apply (@take_cols_shape q _ batch d np); try assumption;
    apply (@autograd_grad_sum_shape (V, backV) _ batch 1 (d + np));
    assumption.
Qed.

(** On a well-formed separable model and well-shaped inputs the integrator
    step returns, and the new state has the shape of the old one. *)
Lemma step_shape (self : adaptable_sympRNN.t A) (q p params : mat A)
      (training : bool) (batch d np : nat) :
  wf_separable self d np ->
  has_shape q batch d -> has_shape p batch d -> has_shape params batch np ->
  exists H q_next p_next,
    adaptable_sympRNN.step self q p (Some params) training
    = Ok (H, q_next, p_next) /\
    has_shape H batch 1 /\
    has_shape q_next batch d /\
    has_shape p_next batch d.
Proof.
  intros (K & V & Hnets & HK & HV) Hq Hp Hps.
  assert (HKc : forall x tr, has_shape x batch d ->
            exists K1 dK,
              adaptable_sympRNN.call_K_net self x (Some params) tr
              = Ok (K1, dK) /\
              has_shape K1 batch 1 /\ has_shape dK batch d).
  { intros x tr Hx. unfold adaptable_sympRNN.call_K_net,
      adaptable_sympRNN.K_net. rewrite Hnets. cbn [bind].
    apply kinetic_forward_shape; assumption. }
  assert (HVc : forall x tr, has_shape x batch d ->
            exists V1 F,
              adaptable_sympRNN.call_V_net self x (Some params) tr
              = Ok (V1, F) /\
              has_shape V1 batch 1 /\ has_shape F batch d).
  { intros x tr Hx. unfold adaptable_sympRNN.call_V_net,
      adaptable_sympRNN.V_net. rewrite Hnets. cbn [bind].
    eapply potential_forward_shape; eassumption. }
  unfold adaptable_sympRNN.step.
  destruct training.
  - destruct (HKc p true Hp) as (K0 & qdot & -> & _ & Hqdot). cbn [bind].
    destruct (madd_shape Hq
                (has_shape_mscale (s_div (adaptable_sympRNN.dt self) adaptable_sympRNN.two) Hqdot))
      as (q_half & -> & Hqh). cbn [bind].
    destruct (HVc q_half true Hqh) as (V0 & pdot & -> & _ & Hpdot).
    cbn [bind].
    destruct (madd_shape Hp (has_shape_mscale (adaptable_sympRNN.dt self) Hpdot))
      as (p_next & -> & Hpn). cbn [bind].
    destruct (HKc p_next true Hpn) as (K1 & qdot' & -> & HK1 & Hqdot').
    cbn [bind].
    destruct (madd_shape Hqh
                (has_shape_mscale (s_div (adaptable_sympRNN.dt self) adaptable_sympRNN.two) Hqdot'))
      as (q_next & -> & Hqn). cbn [bind].
    destruct (HVc q_next true Hqn) as (V1 & pdot' & -> & HV1 & _).
    cbn [bind].
    destruct (madd_shape HK1 HV1) as (H & -> & HH). cbn [bind].
    exists H, q_next, p_next. auto.
  - destruct (HKc p false Hp) as (K0 & qdot & -> & _ & Hqdot). cbn [bind].
    destruct (madd_shape Hq
                (has_shape_mscale (s_div (adaptable_sympRNN.dt self) adaptable_sympRNN.two) Hqdot))
      as (q_half & -> & Hqh). cbn [bind].
    destruct (HVc q_half false Hqh) as (V0 & pdot & -> & _ & Hpdot).
    cbn [bind].
    destruct (madd_shape Hp (has_shape_mscale (adaptable_sympRNN.dt self) Hpdot))
      as (p_next & -> & Hpn). cbn [bind].
    destruct (HKc p_next false Hpn) as (K1 & qdot' & -> & HK1 & Hqdot').
    cbn [bind].
    destruct (madd_shape Hqh
                (has_shape_mscale (s_div (adaptable_sympRNN.dt self) adaptable_sympRNN.two) Hqdot'))
      as (q_next & -> & Hqn). cbn [bind].
    destruct (HVc q_next false Hqn) as (V1 & pdot' & -> & HV1 & _).
    cbn [bind].
    destruct (madd_shape HK1 HV1) as (H & -> & HH). cbn [bind].
    exists H, q_next, p_next. auto.
Qed.

Lemma has_shape_of_shape2 (m : mat A) (batch dim : nat) :
  shape2 m = repeat dim batch -> has_shape m batch dim.
Proof.
  unfold shape2, has_shape. revert batch.
  induction m as [|r m IH]; intros [|batch]; simpl; intros H;
    try discriminate; [split; [reflexivity|constructor]|].
  injection H as Hr Hm. destruct (IH batch Hm) as [Hl Hall].
  split; [congruence|]. constructor; assumption.
Qed.

Lemma has_shape_zeros2_like (m : mat A) (batch dim : nat) :
  has_shape m batch dim ->
  has_shape (zeros2 (A:=A) (length m) (length (hd [] m))) batch dim.
Proof.
  intros [Hl Hrows]. apply has_shape_of_shape2. rewrite shape2_zeros2, Hl.
  destruct Hrows as [|r m Hr _]; simpl in *; subst; [reflexivity|].
  reflexivity.
Qed.

Lemma Forall_list_set {X : Type} (P : X -> Prop) (l : list X) (i : nat)
      (x : X) :
  Forall P l -> P x -> Forall P (list_set l i x).
Proof.
  intros Hl Hx. revert i. induction Hl as [|y l Hy Hl IH]; intros [|i];
    simpl; constructor; auto.
Qed.

Lemma getitem_total (buf : tensor3 A) (i batch dim : nat) :
  i < length buf -> Forall (fun m => has_shape m batch dim) buf ->
  exists m, getitem buf i = Ok m /\ has_shape m batch dim.
Proof.
  intros Hi Hall. unfold getitem.
  destruct (nth_error buf i) as [m|] eqn:E.
  - exists m. split; [reflexivity|].
    rewrite Forall_forall in Hall. apply Hall.
    eapply nth_error_In; eassumption.
  - apply nth_error_None in E. lia.
Qed.

Lemma setitem_total (buf : tensor3 A) (i batch dim : nat) (x : mat A) :
  i < length buf -> Forall (fun m => has_shape m batch dim) buf ->
  has_shape x batch dim ->
  exists buf', setitem buf i x = Ok buf' /\
               length buf' = length buf /\
               Forall (fun m => has_shape m batch dim) buf'.
Proof.
  intros Hi Hall Hx. unfold setitem.
  destruct (getitem_total Hi Hall) as (old & Hg & Hold).
  unfold getitem in Hg. destruct (nth_error buf i) as [m|]; [|discriminate].
  inversion Hg; subst.
  rewrite same_shape_true
    by (rewrite (shape2_of_has_shape Hold), (shape2_of_has_shape Hx);
        reflexivity).
  eexists. split; [reflexivity|]. split; [apply length_list_set|].
  apply Forall_list_set; assumption.
Qed.

End ShapeFacts.

Section RolloutTotal.
Context {A : Type} {SA : Scalar A}.
Import adaptable_sympRNN.

Variable c : cell A.
Variable params : option (mat A).
Variable training : bool.
Variables batch d : nat.

(** The cell accepts every state of shape [(batch, d)] and keeps the shape. *)
Hypothesis cell_total :
  forall q p, has_shape q batch d -> has_shape p batch d ->
    exists H q_next p_next,
      c q p params training = Ok (H, q_next, p_next) /\
      has_shape H batch 1 /\
      has_shape q_next batch d /\
      has_shape p_next batch d.

Lemma rollout_loop_total (final n k : nat) (H q p : tensor3 A) :
  k + n <= final ->
  length H = final -> length q = final + 1 -> length p = final + 1 ->
  Forall (fun m => has_shape m batch 1) H ->
  Forall (fun m => has_shape m batch d) q ->
  Forall (fun m => has_shape m batch d) p ->
  exists bufs, foldM (rollout_body c params training) (seq k n) (H, q, p)
               = Ok bufs.
Proof.
  revert k H q p. induction n as [|n IH];
    intros k H q p Hk LH Lq Lp FH Fq Fp; simpl.
  - eauto.
  - destruct (getitem_total (buf:=q) (i:=k) ltac:(lia) Fq)
      as (q_t & -> & Hqt).
    cbn [bind].
    destruct (getitem_total (buf:=p) (i:=k) ltac:(lia) Fp)
      as (p_t & -> & Hpt).
    cbn [bind].
    destruct (cell_total Hqt Hpt) as (H_t & qn & pn & -> & HH & Hqn & Hpn).
    cbn [bind].
    destruct (setitem_total (buf:=H) (i:=k) ltac:(lia) FH HH)
      as (H' & -> & LH' & FH').
    cbn [bind].
    destruct (setitem_total (buf:=q) (i:=k + 1) ltac:(lia) Fq Hqn)
      as (q' & -> & Lq' & Fq').
    cbn [bind].
    destruct (setitem_total (buf:=p) (i:=k + 1) ltac:(lia) Fp Hpn)
      as (p' & -> & Lp' & Fp').
    cbn [bind].
    apply IH; try assumption; lia.
Qed.

Lemma rollout_total (q_initial p_initial : mat A) (final : nat) :
  has_shape q_initial batch d -> has_shape p_initial batch d ->
  exists H qs ps,
    rollout c q_initial p_initial params final training = Ok (H, qs, ps).
Proof.
  intros Hq Hp. unfold rollout, rollout_buffers, rollout_init.
  assert (Hz : has_shape (zeros2 (A:=A) (length q_initial)
                                 (length (hd [] q_initial))) batch d)
    by (apply has_shape_zeros2_like; assumption).
  assert (Hz1 : has_shape (zeros2 (A:=A) (length q_initial) 1) batch 1).
  { apply has_shape_of_shape2. rewrite shape2_zeros2.
    destruct Hq as [-> _]. reflexivity. }
  assert (Fz : forall n, Forall (fun m : mat A => has_shape m batch d)
                 (zeros3 n (length q_initial) (length (hd [] q_initial)))).
  { intros n. unfold zeros3. apply Forall_forall. intros m Hm.
    apply repeat_spec in Hm. subst. assumption. }
  assert (Lz : 0 < length (zeros3 (A:=A) (final + 1) (length q_initial)
                                  (length (hd [] q_initial))))
    by (unfold zeros3; rewrite repeat_length; lia).
  destruct (setitem_total Lz (Fz (final + 1)) Hq) as (q & -> & Lq & Fq).
  cbn [bind].
  destruct (setitem_total Lz (Fz (final + 1)) Hp) as (p & -> & Lp & Fp).
  cbn [bind].
  unfold zeros3 in Lq, Lp. rewrite repeat_length in Lq, Lp.
  destruct (@rollout_loop_total final final 0
              (zeros3 final (length q_initial) 1) q p)
    as ([[H' q'] p'] & ->); try assumption; try lia.
  - unfold zeros3. apply repeat_length.
  - unfold zeros3. apply Forall_forall. intros m Hm.
    apply repeat_spec in Hm. subst. assumption.
  - cbn [bind]. eauto.
Qed.

End RolloutTotal.

Section ForwardTotal.
Context {A : Type} {SA : Scalar A}.
Import adaptable_sympRNN.

(** On values: for a well-formed separable model, an initial condition of
    shape (batch, d) and parameters of shape (batch, np), the rollout on
    values returns for every horizon T, with T energies, T positions and T
    momenta. *)
Lemma separable_values_total (self : t A)
      (q_initial p_initial params : mat A) (final : nat) (training : bool)
      (batch d np : nat) :
  wf_separable self d np ->
  has_shape q_initial batch d ->
  has_shape p_initial batch d ->
  has_shape params batch np ->
  exists H qs ps,
    forward self q_initial p_initial (Some params) final training
    = Ok (H, qs, ps) /\
    length H = final /\ length qs = final /\ length ps = final.
Proof.
  intros Hwf Hq Hp Hps. unfold forward.
  assert (Hsep : separable self = true).
  { destruct Hwf as (K & V & Hn & _). unfold separable. rewrite Hn.
    reflexivity. }
  destruct (@rollout_total _ _ (select_step self) (Some params) training
              batch d) with (q_initial := q_initial) (p_initial := p_initial)
                            (final := final)
    as (H & qs & ps & Hr); try assumption.
  - intros q p Hq' Hp'. unfold select_step. rewrite Hsep.
    eapply step_shape; eassumption.
  - exists H, qs, ps. split; [assumption|].
    apply rollout_spec in Hr as [_ (LH & Lq & Lp & _)].
    simpl in Lq, Lp. lia.
Qed.

End ForwardTotal.

(** ** More about the trainer *)

Section IndexedLoops.
Context {St : Type}.
Variable body : St -> nat -> result St.

(** An invariant indexed by the loop counter of [for i in range(k, k+n)]. *)
Lemma foldM_seq_invariant (P : nat -> St -> Prop) (n k : nat) (s s' : St) :
  (forall i s1 s2, k <= i < k + n -> P i s1 -> body s1 i = Ok s2 ->
                   P (i + 1) s2) ->
  P k s -> foldM body (seq k n) s = Ok s' -> P (k + n) s'.
Proof.
  revert k s. induction n as [|n IH]; intros k s Hstep Hk Hf; simpl in Hf.
  - inversion Hf; subst. rewrite Nat.add_0_r. assumption.
  - apply bind_Ok in Hf as (s1 & Hb & Hf).
    replace (k + S n) with (S k + n) by lia.
    apply IH with (s := s1); [| |assumption].
    + intros i s2 s3 Hi. apply Hstep. lia.
    + replace (S k) with (k + 1) by lia.
      apply Hstep with (s1 := s); [lia|assumption..].
Qed.

End IndexedLoops.

Section TrainerMore.
Context {A : Type} {SA : Scalar A}.
Variable Grad : Type.
Variable OptState : Type.
Variable Adam : adaptable_sympRNN.t A -> A -> OptState.
Variable backward :
  adaptable_sympRNN.t A -> dataset A -> nat -> option Grad -> Grad.
Variable Adam_step :
  OptState -> option Grad -> adaptable_sympRNN.t A ->
  OptState * adaptable_sympRNN.t A.

Lemma valid_loop_mode (valid : dataset A) (time : nat)
      (batch_size num_valid : Z) (m m' : nn_module A Grad)
      (opt opt' : OptState) (l' : A) :
  valid_loop valid time batch_size num_valid m opt = Ok (m', opt', l') ->
  training m' = false.
Proof.
  unfold valid_loop. intros Hl.
  apply (@foldM_invariant _ _ _
           (fun s : loop_state Grad OptState =>
              training (fst (fst s)) = false))
    in Hl; [exact Hl| |reflexivity].
  intros [[m1 o1] l1] x [[m2 o2] l2] _ Hm Hb. cbn [fst snd] in *.
  rewrite valid_batch_eq in Hb. apply bind_Ok in Hb as (loss & _ & Hb).
  inversion Hb; subst. exact Hm.
Qed.

(** X2: when [train_validate] returns, both loss arrays have [n_epochs]
    entries and every entry has been overwritten with a recorded loss (no
    NaN placeholder is left); after at least one epoch the model is left in
    evaluation mode, and with no epoch it is returned as it was passed. *)
Theorem train_validate_records_every_epoch
        (model m' : nn_module A Grad) (train valid : dataset A)
        (n_epochs : nat) (batch_size : Z) (learning_rate : A)
        (training_loss validation_loss : losses) :
  train_validate Adam backward Adam_step model train valid n_epochs
                 batch_size learning_rate
  = Ok (m', (training_loss, validation_loss)) ->
  length training_loss = n_epochs /\
  length validation_loss = n_epochs /\
  (forall it, it < n_epochs ->
     exists a b, nth_error training_loss it = Some (Some a) /\
                 nth_error validation_loss it = Some (Some b)) /\
  (1 <= n_epochs -> training m' = false) /\
  (n_epochs = 0 -> m' = model).
Proof.
  unfold train_validate. intros Ht.
  apply bind_Ok in Ht as (num_train & _ & Ht).
  apply bind_Ok in Ht as (num_valid & _ & Ht).
  apply bind_Ok in Ht as ([[[m o] tl] vl] & Hloop & Ht).
  inversion Ht; subst; clear Ht.
  apply (@foldM_seq_invariant _ _
           (fun k (s : epoch_state Grad OptState) =>
              let '(m1, _, tl1, vl1) := s in
              length tl1 = n_epochs /\ length vl1 = n_epochs /\
              (forall it, it < k ->
                 exists a b, nth_error tl1 it = Some (Some a) /\
                             nth_error vl1 it = Some (Some b)) /\
              (1 <= k -> training m1 = false) /\
              (k = 0 -> m1 = model))) in Hloop.
  - exact Hloop.
  - clear Hloop. intros i [[[m1 o1] tl1] vl1] [[[m2 o2] tl2] vl2] Hi
      (Ltl & Lvl & Hset & _ & _) He.
    unfold epoch in He.
    apply bind_Ok in He as ([[mt ot] lt] & _ & He).
    apply bind_Ok in He as (tloss & _ & He).
    apply bind_Ok in He as ([[mv ov] lv] & Hv & He).
    apply bind_Ok in He as (vloss & _ & He).
    inversion He; subst; clear He.
    rewrite !length_list_set. repeat split; try assumption.
    + intros it Hit. destruct (Nat.eq_dec it i) as [->|Hne].
      * exists tloss, vloss.
        rewrite !nth_error_list_set_eq by lia. auto.
      * destruct (Hset it ltac:(lia)) as (a & b & Ha & Hb).
        exists a, b. rewrite !nth_error_list_set_neq by lia. auto.
    + intros _. eapply valid_loop_mode; eassumption.
    + lia.
  - rewrite !repeat_length. repeat split; try reflexivity; intros; lia.
Qed.

(** X3: a zero [batch_size] raises [ZeroDivisionError] at
    [int(N / batch_size)], whatever the data and the number of epochs; and
    with [n_epochs = 0] and a non-zero [batch_size] the call returns the
    model as passed and two empty loss arrays, even for data too small to
    fill one batch. *)
Theorem train_validate_degenerate_arguments
        (model : nn_module A Grad) (train valid : dataset A)
        (n_epochs : nat) (batch_size : Z) (learning_rate : A) :
  (batch_size = 0%Z ->
   train_validate Adam backward Adam_step model train valid n_epochs
                  batch_size learning_rate = Raise ZeroDivisionError) /\
  (batch_size <> 0%Z ->
   train_validate Adam backward Adam_step model train valid 0
                  batch_size learning_rate = Ok (model, ([], []))).
Proof.
  unfold train_validate, num_batches. split.
  - intros ->. reflexivity.
  - intros Hnz. destruct (Z.eqb_spec batch_size 0); [contradiction|].
    reflexivity.
Qed.

(** X4: the validation loss an epoch records is the mean of the
    per-batch losses over the [num_valid] sliding batches, all evaluated
    with the weights the training loop of that epoch produced. *)
Theorem epoch_validation_loss_is_mean (train valid : dataset A) (time : nat)
        (batch_size num_train num_valid : Z)
        (m m' : nn_module A Grad) (opt opt' : OptState)
        (tl vl tl' vl' : losses) (it : nat) :
  epoch backward Adam_step train valid time batch_size num_train num_valid
        (m, opt, tl, vl) it = Ok (m', opt', tl', vl') ->
  it < length vl ->
  exists m1 l1 batch_losses v,
    train_loop backward Adam_step train time batch_size num_train m opt
    = Ok (m1, opt', l1) /\
    mapM (fun b => batch_loss (weights m1) (batch_of valid b batch_size) time)
         (range num_valid) = Ok batch_losses /\
    truediv (fold_left s_add batch_losses s_zero) num_valid = Ok v /\
    nth_error vl' it = Some (Some v).
Proof.
  unfold epoch. intros He Hit.
  apply bind_Ok in He as ([[m1 o1] l1] & Et & He).
  apply bind_Ok in He as (tloss & _ & He).
  apply bind_Ok in He as ([[m2 o2] l2] & Ev & He).
  apply bind_Ok in He as (vloss & Ed & He).
  inversion He; subst; clear He.
  assert (Hgen : forall bs (mm : nn_module A Grad) acc mm' oo' l',
             weights mm = weights m1 ->
             foldM (valid_batch valid time batch_size) bs (mm, o1, acc)
             = Ok (mm', oo', l') ->
             exists batch_losses,
               mapM (fun b => batch_loss (weights m1)
                                (batch_of valid b batch_size) time) bs
               = Ok batch_losses /\
               l' = fold_left s_add batch_losses acc /\ oo' = o1).
  { induction bs as [|b bs IH]; intros mm acc mm' oo' l' Hw Hf;
      cbn [foldM] in Hf.
    - inversion Hf; subst. exists []. auto.
    - apply bind_Ok in Hf as ([[m3 o3] l3] & Hb & Hf).
      rewrite valid_batch_eq in Hb.
      apply bind_Ok in Hb as (loss & Hloss & Hb). inversion Hb; subst.
      apply IH in Hf as (rest & Hrest & -> & ->); [|exact Hw].
      exists (loss :: rest). simpl. rewrite <- Hw, Hloss. simpl.
      rewrite Hw, Hrest. auto. }
  unfold valid_loop in Ev.
  apply Hgen in Ev as (batch_losses & Hm & -> & ->); [|reflexivity].
  exists m1, l1, batch_losses, vloss.
  repeat split; try assumption.
  apply nth_error_list_set_eq. assumption.
Qed.

End TrainerMore.

(** ** More about the cells and the rollout *)

Section CellMore.
Context {A : Type} {SA : Scalar A}.
Import adaptable_sympRNN.

(** Everything a successful call of [step2] has computed, in order. *)
Lemma step2_inv (self : t A) (q p : mat A) (params : option (mat A))
      (training : bool) (H q_next p_next : mat A) :
  step2 self q p params training = Ok (H, q_next, p_next) ->
  exists pdot qdot q_half H1 pdot_t qdot1 H2 pdot_half qdot_t,
    call_HNN_net self q p params training = Ok (H, pdot, qdot) /\
    madd q (mscale (s_div (dt self) two) qdot) = Ok q_half /\
    call_HNN_net self q_half p params training = Ok (H1, pdot_t, qdot1) /\
    madd p (mscale (dt self) pdot_t) = Ok p_next /\
    call_HNN_net self q_half p_next params training
    = Ok (H2, pdot_half, qdot_t) /\
    madd q_half (mscale (s_div (dt self) two) qdot_t) = Ok q_next.
Proof.
  unfold step2; destruct training; intros Hs; inv_result;
    repeat eexists; eassumption.
Qed.

(** X5: how the energy trace lines up with the returned trajectories.  For
    a separable model entry [t] of the trace is K + V at entry [t] of the
    returned trajectories (the state after step [t]); for a non-separable
    model it is H at the state before step [t], that is the initial condition
    for [t = 0] and entry [t-1] of the returned trajectories otherwise. *)
Theorem energy_trace_alignment (self : t A) (q_initial p_initial : mat A)
        (params : option (mat A)) (final : nat) (training : bool)
        (H qs ps : tensor3 A) :
  forward self q_initial p_initial params final training = Ok (H, qs, ps) ->
  (separable self = true ->
   forall t, t < final ->
     exists H_t q_t p_t K dK V F,
       nth_error H t = Some H_t /\
       nth_error qs t = Some q_t /\
       nth_error ps t = Some p_t /\
       call_K_net self p_t params training = Ok (K, dK) /\
       call_V_net self q_t params training = Ok (V, F) /\
       madd K V = Ok H_t) /\
  (separable self = false ->
   forall t, t < final ->
     exists H_t q_t p_t F G,
       nth_error H t = Some H_t /\
       nth_error (q_initial :: qs) t = Some q_t /\
       nth_error (p_initial :: ps) t = Some p_t /\
       call_HNN_net self q_t p_t params training = Ok (H_t, F, G)).
Proof.
  unfold forward. intros Hf. apply rollout_spec in Hf as [_ Hinv].
  destruct Hinv as (_ & _ & _ & _ & _ & Htr).
  split; intros Hsep t Ht;
    destruct (Htr t Ht)
      as (q_t & p_t & H_t & q' & p' & Hq & Hp & Hc & HH & Hq' & Hp');
    unfold select_step in Hc; rewrite Hsep in Hc;
    replace (t + 1) with (S t) in Hq', Hp' by lia; simpl in Hq', Hp'.
  - apply step_inv in Hc.
    destruct Hc as (K0 & qdot & q_half & V0 & pdot & K1 & qdot' & V1 & pdot' &
                    _ & _ & _ & _ & HK & _ & HV & Hsum).
    exists H_t, q', p', K1, qdot', V1, pdot'.
    repeat split; assumption.
  - apply step2_inv in Hc.
    destruct Hc as (pdot & qdot & q_half & H1 & pdot_t & qdot1 & H2 &
                    pdot_half & qdot_t & HH0 & _).
    exists H_t, q_t, p_t, pdot, qdot. repeat split; assumption.
Qed.

End CellMore.

Section NonSeparableTotal.
Context {A : Type} {SA : Scalar A}.
Import adaptable_sympRNN.

Lemma drop_cols_shape (a g : mat A) (batch d e : nat) :
  has_shape a batch d -> has_shape g batch (d + e) ->
  has_shape (adaptable_HNN.drop_cols a g) batch e.
Proof.
  intros Ha Hg. unfold adaptable_HNN.drop_cols.
  eapply has_shape_map2; [|exact Ha|exact Hg].
  intros x y Hx Hy. rewrite length_skipn. lia.
Qed.

Lemma full_forward_shape (net : adaptable_HNN.t A) (q p params : mat A)
      (training : bool) (batch d np : nat) :
  wf_full net d np ->
  has_shape q batch d -> has_shape p batch d -> has_shape params batch np ->
  exists H F G,
    adaptable_HNN.forward net q p (Some params) training = Ok (H, F, G) /\
    has_shape H batch 1 /\ has_shape F batch d /\ has_shape G batch d.
Proof.
  intros (h & Hin & Hen) Hq Hp Hps. unfold adaptable_HNN.forward.
  cbn [adaptable_HNN.tensor_arg bind].
  destruct (cat_dim1_shape Hq Hp) as (qp & -> & Hqp). cbn [bind].
  destruct (cat_dim1_shape Hqp Hps) as (input & -> & Hinput). cbn [bind].
  destruct (@sequential_call_shape _ _ _ (d + d + np) h batch (d + d + np)
              (leaf input) Hin Hinput ltac:(auto))
    as (Y & back & -> & HY & Hback).
  cbn [bind].
  destruct (@sequential_call_shape _ _ _ h 1 batch (d + d + np) (Y, back)
              Hen HY Hback) as (E & backE & -> & HE & HbackE).
  cbn [bind].
  assert (Hg : forall cg, has_shape (autograd_grad_sum (E, backE) cg) batch
                                    (d + (d + np))).
  { intros cg. replace (d + (d + np)) with (d + d + np) by lia.
    apply (@autograd_grad_sum_shape _ _ (E, backE) cg batch 1 (d + d + np));
      assumption. }
  destruct training; eexists _, _, _; (split; [reflexivity|]);
    (split; [exact HE|]); split.
  - apply has_shape_map_map. eapply take_cols_shape; [exact Hq|apply Hg].
  - eapply take_cols_shape; [exact Hp|].
    eapply drop_cols_shape; [exact Hq|apply Hg].
  - apply has_shape_map_map. eapply take_cols_shape; [exact Hq|apply Hg].
  - eapply take_cols_shape; [exact Hp|].
    eapply drop_cols_shape; [exact Hq|apply Hg].
Qed.

Lemma step2_shape (self : t A) (q p params : mat A) (training : bool)
      (batch d np : nat) :
  wf_nonseparable self d np ->
  has_shape q batch d -> has_shape p batch d -> has_shape params batch np ->
  exists H q_next p_next,
    step2 self q p (Some params) training = Ok (H, q_next, p_next) /\
    has_shape H batch 1 /\
    has_shape q_next batch d /\
    has_shape p_next batch d.
Proof.
  intros (net & Hnets & Hwf) Hq Hp Hps.
  assert (Hc : forall x y tr, has_shape x batch d -> has_shape y batch d ->
            exists H F G,
              call_HNN_net self x y (Some params) tr = Ok (H, F, G) /\
              has_shape H batch 1 /\ has_shape F batch d /\
              has_shape G batch d).
  { intros x y tr Hx Hy. unfold call_HNN_net, HNN. rewrite Hnets.
    cbn [bind]. eapply full_forward_shape; eassumption. }
  unfold step2. destruct training.
  - destruct (Hc q p true Hq Hp) as (H & pdot & qdot & -> & HH & _ & Hqdot).
    cbn [bind].
    destruct (madd_shape Hq (has_shape_mscale (s_div (dt self) two) Hqdot))
      as (q_half & -> & Hqh). cbn [bind].
    destruct (Hc q_half p true Hqh Hp)
      as (H1 & pdot_t & qdot1 & -> & _ & Hpdot & _). cbn [bind].
    destruct (madd_shape Hp (has_shape_mscale (dt self) Hpdot))
      as (p_next & -> & Hpn). cbn [bind].
    destruct (Hc q_half p_next true Hqh Hpn)
      as (H2 & pdot_half & qdot_t & -> & _ & _ & Hqdot_t). cbn [bind].
    destruct (madd_shape Hqh
                (has_shape_mscale (s_div (dt self) two) Hqdot_t))
      as (q_next & -> & Hqn). cbn [bind].
    exists H, q_next, p_next. auto.
  - destruct (Hc q p false Hq Hp) as (H & pdot & qdot & -> & HH & _ & Hqdot).
    cbn [bind].
    destruct (madd_shape Hq (has_shape_mscale (s_div (dt self) two) Hqdot))
      as (q_half & -> & Hqh). cbn [bind].
    destruct (Hc q_half p false Hqh Hp)
      as (H1 & pdot_t & qdot1 & -> & _ & Hpdot & _). cbn [bind].
    destruct (madd_shape Hp (has_shape_mscale (dt self) Hpdot))
      as (p_next & -> & Hpn). cbn [bind].
    destruct (Hc q_half p_next false Hqh Hpn)
      as (H2 & pdot_half & qdot_t & -> & _ & _ & Hqdot_t). cbn [bind].
    destruct (madd_shape Hqh
                (has_shape_mscale (s_div (dt self) two) Hqdot_t))
      as (q_next & -> & Hqn). cbn [bind].
    exists H, q_next, p_next. auto.
Qed.

(** On values: the same for a well-formed non-separable model. *)
Lemma nonseparable_values_total (self : t A)
        (q_initial p_initial params : mat A) (final : nat) (training : bool)
        (batch d np : nat) :
  wf_nonseparable self d np ->
  has_shape q_initial batch d ->
  has_shape p_initial batch d ->
  has_shape params batch np ->
  exists H qs ps,
    forward self q_initial p_initial (Some params) final training
    = Ok (H, qs, ps) /\
    length H = final /\ length qs = final /\ length ps = final.
Proof.
  intros Hwf Hq Hp Hps. unfold forward.
  assert (Hsep : separable self = false).
  { destruct Hwf as (net & Hn & _). unfold separable. rewrite Hn.
    reflexivity. }
  destruct (@rollout_total _ _ (select_step self) (Some params) training
              batch d) with (q_initial := q_initial) (p_initial := p_initial)
                            (final := final)
    as (H & qs & ps & Hr); try assumption.
  - intros q p Hq' Hp'. unfold select_step. rewrite Hsep.
    eapply step2_shape; eassumption.
  - exists H, qs, ps. split; [assumption|].
    apply rollout_spec in Hr as [_ (LH & Lq & Lp & _)].
    simpl in Lq, Lp. lia.
Qed.

End NonSeparableTotal.

Section MissingParams.
Context {A : Type} {SA : Scalar A}.
Import adaptable_sympRNN.

(** A cell that raises on the initial condition makes every rollout of at
    least one step raise the same exception. *)
Lemma rollout_first_raise (c : cell A) (q_initial p_initial : mat A)
      (params : option (mat A)) (training : bool) (final batch d : nat)
      (e : exn) :
  has_shape q_initial batch d -> has_shape p_initial batch d ->
  1 <= final ->
  c q_initial p_initial params training = Raise e ->
  rollout c q_initial p_initial params final training = Raise e.
Proof.
  intros Hq Hp Hfinal Hc. unfold rollout, rollout_buffers, rollout_init.
  assert (Fz : Forall (fun m : mat A => has_shape m batch d)
                 (zeros3 (final + 1) (length q_initial)
                         (length (hd [] q_initial)))).
  { unfold zeros3. apply Forall_forall. intros m Hm.
    apply repeat_spec in Hm. subst. apply has_shape_zeros2_like.
    assumption. }
  assert (Lz : 0 < length (zeros3 (A:=A) (final + 1) (length q_initial)
                                  (length (hd [] q_initial))))
    by (unfold zeros3; rewrite repeat_length; lia).
  destruct (setitem_total Lz Fz Hq) as (q & Eq & _).
  destruct (setitem_total Lz Fz Hp) as (p & Ep & _).
  rewrite Eq, Ep. cbn [bind].
  apply setitem_Ok in Eq as [-> _]. apply setitem_Ok in Ep as [-> _].
  destruct final as [|n]; [lia|]. cbn [seq foldM rollout_body].
  unfold getitem. rewrite !nth_error_list_set_eq by assumption.
  cbn [bind]. rewrite Hc. reflexivity.
Qed.

End MissingParams.

(** ** The constructors *)

Section ConstructorFacts.
Context {A : Type} {SA : Scalar A}.
Variable rng : Type.
Variable new_Linear : nat -> nat -> rng -> Linear A * rng.

Lemma wf_Sequential_app (l1 l2 : Sequential A) (a b c : nat) :
  wf_Sequential l1 a b -> wf_Sequential l2 b c -> wf_Sequential (l1 ++ l2) a c.
Proof.
  revert a. induction l1 as [|l l1 IH]; intros a H1 H2; simpl in *.
  - subst. assumption.
  - destruct l as [lin|].
    + destruct H1 as (Hl & Hin & Hrest).
      split; [assumption|]. split; [assumption|]. auto.
    + auto.
Qed.

Lemma list_index_Ok {X : Type} (l : list X) (i : nat) :
  i < length l -> exists x, list_index l i = Ok x /\ nth_error l i = Some x.
Proof.
  intros Hi. unfold list_index. destruct (nth_error l i) as [x|] eqn:E.
  - eauto.
  - apply nth_error_None in E. lia.
Qed.

Lemma list_index_Raise {X : Type} (l : list X) (i : nat) :
  length l <= i -> list_index l i = Raise IndexError.
Proof.
  intros Hi. unfold list_index.
  rewrite (proj2 (nth_error_None l i) Hi). reflexivity.
Qed.

(** The hidden-layer loop, started at iteration [k] with a model whose
    output width is [num_neurons[k]]. *)
Lemma append_hidden_loop (num_neurons : list nat) (first_in n k : nat)
      (layers : Sequential A) (g : rng) (w : nat) :
  Linear_contract new_Linear ->
  k + n < length num_neurons ->
  nth_error num_neurons k = Some w ->
  wf_Sequential layers first_in w ->
  exists layers' g' w',
    foldM (append_hidden new_Linear num_neurons) (seq k n) (layers, g)
    = Ok (layers', g') /\
    nth_error num_neurons (k + n) = Some w' /\
    wf_Sequential layers' first_in w'.
Proof.
  intros Hnew. revert k layers g w.
  induction n as [|n IH]; intros k layers g w Hk Hw Hwf; cbn [seq foldM].
  - exists layers, g, w. rewrite Nat.add_0_r. auto.
  - unfold append_hidden at 1.
    destruct (@list_index_Ok _ num_neurons k ltac:(lia)) as (n_i & -> & Hi).
    cbn [bind].
    destruct (@list_index_Ok _ num_neurons (k + 1) ltac:(lia))
      as (n_i1 & -> & Hi1).
    cbn [bind].
    destruct (Hnew n_i n_i1 g) as (Hin & Hout & Hl).
    destruct (new_Linear n_i n_i1 g) as [lin g1]. cbn [fst] in *.
    cbv beta iota. cbn [bind].
    replace (k + S n) with (S k + n) by lia.
    apply IH with (w := n_i1).
    + lia.
    + replace (S k) with (k + 1) by lia. assumption.
    + eapply wf_Sequential_app; [exact Hwf|].
      simpl. split; [assumption|]. split; congruence.
Qed.

(** What [build_layers] returns when [num_neurons] is long enough: the
    hidden stack ends with width [num_neurons[max(num_hidden,1)-1]], and the
    energy layer expects [num_neurons[-1]] inputs. *)
Lemma build_layers_Ok (first_in num_hidden : nat) (num_neurons : list nat)
      (g : rng) :
  Linear_contract new_Linear ->
  Nat.max num_hidden 1 <= length num_neurons ->
  exists input_model lin_e g' w w_last,
    build_layers new_Linear first_in num_hidden num_neurons g
    = Ok (input_model, [nn_Linear lin_e], g') /\
    nth_error num_neurons (Nat.max num_hidden 1 - 1) = Some w /\
    nth_error num_neurons (length num_neurons - 1) = Some w_last /\
    wf_Sequential input_model first_in w /\
    wf_Linear lin_e /\ in_features lin_e = w_last /\ out_features lin_e = 1.
Proof.
  intros Hnew Hlen. unfold build_layers.
  destruct (@list_index_Ok _ num_neurons 0 ltac:(lia)) as (n_0 & -> & H0).
  cbn [bind].
  destruct (Hnew first_in n_0 g) as (Hin & Hout & Hl).
  destruct (new_Linear first_in n_0 g) as [lin_0 g0]. cbn [fst] in *.
  cbv beta iota.
  destruct (@append_hidden_loop num_neurons first_in (num_hidden - 1) 0
              [nn_Linear lin_0; nn_Tanh] g0 n_0 Hnew ltac:(lia) H0)
    as (layers & g1 & w & Heq & Hw & Hwf).
  { simpl. split; [assumption|]. split; [assumption|]. congruence. }
  unfold Sequential in Heq |- *. rewrite Heq.
  cbn [bind]. unfold list_last.
  destruct num_neurons as [|x rest] eqn:Enn; [simpl in Hlen; lia|].
  rewrite <- Enn in *.
  destruct (@list_index_Ok _ num_neurons (length num_neurons - 1))
    as (n_last & -> & Hlast); [rewrite Enn; simpl; lia|].
  cbn [bind].
  destruct (Hnew n_last 1 g1) as (Hin_e & Hout_e & Hl_e).
  destruct (new_Linear n_last 1 g1) as [lin_e g2]. cbn [fst] in *.
  cbv beta iota.
  exists layers, lin_e, g2, w, n_last.
  replace (Nat.max num_hidden 1 - 1) with (0 + (num_hidden - 1)) by lia.
  split; [reflexivity|]. do 3 (split; [assumption|]).
  split; [assumption|]. split; assumption.
Qed.

(** The loop raises [IndexError] when [num_neurons] runs out. *)
Lemma append_hidden_loop_Raise (num_neurons : list nat) (n k : nat)
      (layers : Sequential A) (g : rng) :
  k < length num_neurons -> length num_neurons <= k + n ->
  foldM (append_hidden new_Linear num_neurons) (seq k n) (layers, g)
  = Raise IndexError.
Proof.
  revert k layers g. induction n as [|n IH]; intros k layers g Hk Hn;
    [lia|].
  cbn [seq foldM]. unfold append_hidden at 1.
  destruct (@list_index_Ok _ num_neurons k Hk) as (n_i & -> & _).
  cbn [bind].
  destruct (le_lt_dec (length num_neurons) (k + 1)) as [Hend|Hmore].
  - rewrite list_index_Raise by assumption. reflexivity.
  - destruct (@list_index_Ok _ num_neurons (k + 1) Hmore) as (n_i1 & -> & _).
    cbn [bind]. destruct (new_Linear n_i n_i1 g) as [lin g1].
    cbv beta iota. cbn [bind].
    apply IH; lia.
Qed.

Lemma build_layers_Raise (first_in num_hidden : nat) (num_neurons : list nat)
      (g : rng) :
  length num_neurons < Nat.max num_hidden 1 ->
  build_layers new_Linear first_in num_hidden num_neurons g
  = Raise IndexError.
Proof.
  intros Hlen. unfold build_layers.
  destruct (le_lt_dec (length num_neurons) 0) as [Hempty|Hne].
  - rewrite list_index_Raise by assumption. reflexivity.
  - destruct (@list_index_Ok _ num_neurons 0 Hne) as (n_0 & -> & _).
    cbn [bind]. destruct (new_Linear first_in n_0 g) as [lin_0 g0].
    cbv beta iota.
    rewrite append_hidden_loop_Raise by lia. reflexivity.
Qed.

End ConstructorFacts.

Section ConstructorTheorems.
Context {A : Type} {SA : Scalar A}.
Variable rng : Type.
Variable new_Linear : nat -> nat -> rng -> Linear A * rng.

(** X8: with [num_neurons] of the documented length (one width per hidden
    layer; a single width when [num_hidden] is 0 or 1) the constructor of
    [adaptable_sympRNN] returns a model with the given [dt] and separability
    whose estimators are well formed: for [separable=True] a kinetic net on
    [input_size // 2] inputs and a potential net on
    [input_size // 2 + n_params] inputs, for [separable=False] and an even
    [input_size] a full net on [input_size + n_params] inputs. *)
Theorem constructor_builds_well_formed_model
        (input_size num_hidden : nat) (num_neurons : list nat)
        (n_params : nat) (dt : A) (separable : bool) (g : rng) :
  Linear_contract new_Linear ->
  length num_neurons = Nat.max num_hidden 1 ->
  exists self g',
    adaptable_sympRNN_init new_Linear input_size num_hidden num_neurons
                           n_params dt separable g = Ok (self, g') /\
    adaptable_sympRNN.dt self = dt /\
    adaptable_sympRNN.separable self = separable /\
    (separable = true -> wf_separable self (input_size / 2) n_params) /\
    (separable = false -> input_size = 2 * (input_size / 2) ->
     wf_nonseparable self (input_size / 2) n_params).
Proof.
  intros Hnew Hlen.
  assert (Hb : forall first_in g0, exists input_model energy_layer g' h,
             build_layers new_Linear first_in num_hidden num_neurons g0
             = Ok (input_model, energy_layer, g') /\
             wf_Sequential input_model first_in h /\
             wf_Sequential energy_layer h 1).
  { intros first_in g0.
    destruct (@build_layers_Ok _ _ new_Linear first_in num_hidden
                num_neurons g0 Hnew ltac:(lia))
      as (im & le & g' & w & w_last & Hok & Hw & Hlast & Hwf & Hle & Hin
          & Hout).
    exists im, [nn_Linear le], g', w. split; [assumption|].
    split; [assumption|]. simpl. split; [assumption|].
    replace (Nat.max num_hidden 1 - 1) with (length num_neurons - 1) in Hw
      by lia.
    split; congruence. }
  unfold adaptable_sympRNN_init. destruct separable.
  - unfold adaptable_partial_HNN_init.
    destruct (Hb (input_size / 2) g) as (imK & elK & g1 & hK & -> & HK1 & HK2).
    cbn [bind].
    destruct (Hb (input_size / 2 + n_params) g1)
      as (imV & elV & g2 & hV & -> & HV1 & HV2).
    cbn [bind].
    eexists _, _. split; [reflexivity|]. split; [reflexivity|].
    split; [reflexivity|]. split; [|discriminate].
    intros _. eexists _, _. split; [reflexivity|].
    split; (split; [reflexivity|]); eexists; split; eassumption.
  - unfold adaptable_HNN_init.
    destruct (Hb (input_size + n_params) g) as (im & el & g1 & h & -> & H1 & H2).
    cbn [bind].
    eexists _, _. split; [reflexivity|]. split; [reflexivity|].
    split; [reflexivity|]. split; [discriminate|].
    intros _ Heven. eexists. split; [reflexivity|].
    exists h. cbn [adaptable_HNN.input_model adaptable_HNN.energy_layer].
    split; [|assumption].
    replace (input_size / 2 + input_size / 2 + n_params)
      with (input_size + n_params) by lia.
    assumption.
Qed.

(** X9: when [num_neurons] has fewer entries than hidden layers (or is
    empty) each of the three constructors raises [IndexError], at
    [num_neurons[0]] or at [num_neurons[i+1]] inside the layer loop. *)
Theorem constructor_index_error
        (input_size num_hidden : nat) (num_neurons : list nat)
        (n_params : nat) (dt : A) (flag : bool) (g : rng) :
  length num_neurons < Nat.max num_hidden 1 ->
  adaptable_HNN_init new_Linear input_size num_hidden num_neurons n_params g
  = Raise IndexError /\
  adaptable_partial_HNN_init new_Linear input_size num_hidden num_neurons
                             n_params flag g = Raise IndexError /\
  adaptable_sympRNN_init new_Linear input_size num_hidden num_neurons
                         n_params dt flag g = Raise IndexError.
Proof.
  intros Hlen.
  assert (Hb : forall first_in g0,
             build_layers new_Linear first_in num_hidden num_neurons g0
             = Raise IndexError)
    by (intros; apply build_layers_Raise; assumption).
  unfold adaptable_sympRNN_init, adaptable_partial_HNN_init,
    adaptable_HNN_init.
  repeat split.
  - rewrite Hb. reflexivity.
  - destruct flag; rewrite Hb; reflexivity.
  - destruct flag; rewrite Hb; reflexivity.
Qed.

End ConstructorTheorems.

(** ** The gradients the estimators return *)

Ltac real_ops :=
  cbn [s_zero s_one s_add s_sub s_mul s_div s_neg s_tanh s_of_Z R_scalar]
    in *.

Section RealFacts.
Local Open Scope R_scope.

Lemma derivable_pt_lim_ext (f g : R -> R) (x l : R) :
  (forall t, f t = g t) -> derivable_pt_lim f x l -> derivable_pt_lim g x l.
Proof.
  intros Hfg Hf eps Heps. destruct (Hf eps Heps) as (delta & Hd).
  exists delta. intros h Hh Hlt. rewrite <- !Hfg. apply Hd; assumption.
Qed.

Lemma derivable_pt_lim_tanh (x : R) :
  derivable_pt_lim tanh x (1 - tanh x * tanh x).
Proof.
  assert (Hc : cosh x <> 0).
  { unfold cosh. pose proof (exp_pos x). pose proof (exp_pos (- x)). lra. }
  pose proof (derivable_pt_lim_div sinh cosh x (cosh x) (sinh x)
                (derivable_pt_lim_sinh x) (derivable_pt_lim_cosh x) Hc) as Hd.
  replace (1 - tanh x * tanh x)
    with ((cosh x * cosh x - sinh x * sinh x) / (cosh x)²).
  - eapply derivable_pt_lim_ext; [|exact Hd]. intros t. reflexivity.
  - unfold tanh, Rsqr. field. assumption.
Qed.

Lemma dot_nil_l (b : vec R) : dot [] b = 0.
Proof. reflexivity. Qed.

Lemma dot_nil_r (a : vec R) : dot a [] = 0.
Proof. destruct a; reflexivity. Qed.

Lemma dot_cons (x y : R) (a b : vec R) :
  dot (x :: a) (y :: b) = x * y + dot a b.
Proof. reflexivity. Qed.

Lemma dot_comm (a b : vec R) : dot a b = dot b a.
Proof.
  revert b. induction a as [|x a IH]; intros [|y b];
    rewrite ?dot_nil_l, ?dot_nil_r, ?dot_cons; try reflexivity.
  rewrite IH. ring.
Qed.

Lemma dot_repeat_0_l (n : nat) (b : vec R) : dot (repeat 0 n) b = 0.
Proof.
  revert b. induction n as [|n IH]; intros [|y b]; simpl repeat;
    rewrite ?dot_nil_l, ?dot_nil_r, ?dot_cons; try reflexivity.
  rewrite IH. ring.
Qed.

(** [dot] is linear in its first argument, for operands of one length. *)
Lemma dot_axpy (c : R) (w acc x : vec R) :
  length w = length x -> length acc = length x ->
  dot (map2 Rplus (map (Rmult c) w) acc) x = c * dot w x + dot acc x.
Proof.
  revert w acc. induction x as [|xi x IH]; intros [|wi w] [|ai acc] Hw Ha;
    try discriminate; simpl map; simpl map2;
    rewrite ?dot_nil_l, ?dot_nil_r, ?dot_cons; [ring|].
  rewrite IH by (simpl in *; lia). ring.
Qed.

Lemma linear_fold_length (n : nat) (W : mat R) (h : vec R) :
  Forall (fun w => length w = n) W ->
  length (fold_right
            (fun (gw : R * vec R) acc =>
               map2 s_add (map (s_mul (fst gw)) (snd gw)) acc)
            (repeat s_zero n) (combine h W)) = n.
Proof.
  intros HW. revert h. induction HW as [|w W Hw HW IH]; intros [|hj h];
    cbn [combine fold_right fst snd]; try apply repeat_length.
  rewrite length_map2, length_map, IH. lia.
Qed.

(** The backward of [nn.Linear] is the adjoint of its linear part. *)
Lemma linear_backward_adjoint (lin : Linear R) (h x : vec R) :
  Forall (fun w => length w = in_features lin) (weight lin) ->
  length x = in_features lin ->
  dot (linear_backward lin h) x = dot h (map (dot x) (weight lin)).
Proof.
  unfold linear_backward. generalize (in_features lin) as n.
  generalize (weight lin) as W. intros W n HW Hx. revert h.
  induction HW as [|w W Hw HW IH]; intros [|hj h];
    cbn [combine fold_right fst snd map];
    rewrite ?dot_nil_l, ?dot_nil_r, ?dot_repeat_0_l; try reflexivity.
  real_ops. rewrite dot_axpy.
  - rewrite dot_cons, IH, (dot_comm w x). reflexivity.
  - congruence.
  - rewrite Hx. apply linear_fold_length. assumption.
Qed.

(** The backward of [nn.Tanh] multiplies by the derivative of tanh. *)
Lemma tanh_backward_adjoint (y g x' : vec R) :
  length y = length x' ->
  dot (tanh_backward y g) x'
  = dot g (map2 (fun yi xi => (1 - yi * yi) * xi) y x').
Proof.
  unfold tanh_backward. revert g x'.
  induction y as [|yi y IH]; intros [|gi g] [|xi x'] Hl; try discriminate;
    cbn [map2]; rewrite ?dot_nil_l, ?dot_nil_r, ?dot_cons; try reflexivity.
  real_ops. rewrite IH by (simpl in Hl; lia). ring.
Qed.

Lemma length_eval (c : curve) (t : R) : length (eval c t) = length c.
Proof. apply length_map. Qed.

Lemma curve_deriv_length (c : curve) (X' : vec R) :
  curve_deriv c X' -> length X' = length c.
Proof.
  intros H. induction H; simpl; congruence.
Qed.

(** The derivative of [t |-> dot (c t) w]. *)
Lemma dot_curve_deriv (c : curve) (X' w : vec R) :
  curve_deriv c X' ->
  derivable_pt_lim (fun t => dot (eval c t) w) 0 (dot X' w).
Proof.
  intros H. revert w. induction H as [|f l c X' Hf _ IH]; intros w.
  - cbn [eval map]. apply derivable_pt_lim_ext with (f := fct_cte 0).
    + intros t. reflexivity.
    + rewrite dot_nil_l. apply derivable_pt_lim_const.
  - destruct w as [|wi w].
    + apply derivable_pt_lim_ext with (f := fct_cte 0).
      * intros t. rewrite dot_nil_r. reflexivity.
      * rewrite dot_nil_r. apply derivable_pt_lim_const.
    + rewrite dot_cons.
      apply derivable_pt_lim_ext
        with (f := plus_fct (fun t => f t * wi) (fun t => dot (eval c t) w)).
      * intros t. reflexivity.
      * apply derivable_pt_lim_plus; [|apply IH].
        apply derivable_pt_lim_scal_right. assumption.
Qed.

Lemma eval_linear_curve (lin : Linear R) (c : curve) (t : R) :
  eval (linear_curve lin c) t
  = map2 s_add (map (dot (eval c t)) (weight lin)) (bias lin).
Proof.
  unfold linear_curve. generalize (bias lin) as b.
  induction (weight lin) as [|w W IH]; intros [|bi b]; cbn [map2 map eval];
    try reflexivity.
  f_equal. apply IH.
Qed.

Lemma linear_curve_deriv (lin : Linear R) (c : curve) (X' : vec R) :
  length (weight lin) = length (bias lin) ->
  curve_deriv c X' ->
  curve_deriv (linear_curve lin c) (map (fun w => dot X' w) (weight lin)).
Proof.
  unfold linear_curve. generalize (bias lin) as b.
  induction (weight lin) as [|w W IH]; intros [|bi b] Hl Hc;
    try discriminate; cbn [map2 map]; constructor.
  - apply derivable_pt_lim_ext
      with (f := plus_fct (fun t => dot (eval c t) w) (fct_cte bi)).
    + intros t. reflexivity.
    + replace (dot X' w) with (dot X' w + 0) by ring.
      apply derivable_pt_lim_plus;
        [apply dot_curve_deriv; assumption|apply derivable_pt_lim_const].
  - apply IH; [simpl in Hl; lia|assumption].
Qed.

Lemma eval_tanh_curve (c : curve) (t : R) :
  eval (tanh_curve c) t = map s_tanh (eval c t).
Proof.
  unfold tanh_curve, eval. rewrite !map_map. reflexivity.
Qed.

Lemma tanh_curve_deriv (c : curve) (X' : vec R) :
  curve_deriv c X' ->
  curve_deriv (tanh_curve c)
    (map2 (fun yi xi => (1 - yi * yi) * xi) (map s_tanh (eval c 0)) X').
Proof.
  intros H. induction H as [|f l c X' Hf _ IH]; cbn [tanh_curve map map2 eval];
    constructor.
  - apply derivable_pt_lim_ext with (f := comp tanh f).
    + intros t. reflexivity.
    + apply derivable_pt_lim_comp; [assumption|].
      apply derivable_pt_lim_tanh.
  - exact IH.
Qed.

Lemma line_curve_eval (x v : vec R) (t : R) :
  eval (line_curve x v) t = line x v t.
Proof.
  unfold line_curve, line. revert v.
  induction x as [|xi x IH]; intros [|vi v]; cbn [map2 eval map];
    try reflexivity.
  f_equal. apply IH.
Qed.

Lemma line_curve_deriv (x v : vec R) :
  length x = length v -> curve_deriv (line_curve x v) v.
Proof.
  unfold line_curve. revert v.
  induction x as [|xi x IH]; intros [|vi v] Hl; try discriminate;
    cbn [map2]; constructor.
  - assert (Hd : derivable_pt_lim
                   (plus_fct (fct_cte xi) (mult_fct id (fct_cte vi))) 0
                   (0 + (1 * fct_cte vi 0 + id 0 * 0))).
    { apply derivable_pt_lim_plus; [apply derivable_pt_lim_const|].
      apply derivable_pt_lim_mult;
        [apply derivable_pt_lim_id|apply derivable_pt_lim_const]. }
    replace (0 + (1 * fct_cte vi 0 + id 0 * 0)) with vi in Hd
      by (unfold fct_cte, id; ring).
    eapply derivable_pt_lim_ext; [|exact Hd]. intros t. reflexivity.
  - apply IH. simpl in Hl. lia.
Qed.

End RealFacts.

Section GraphFacts.
Context {A : Type} {SA : Scalar A}.

(** The backward function a [Sequential] returns is the backward function
    of its input composed with the backward of the layers. *)
Lemma sequential_row_back (layers : Sequential A) (x : vec A)
      (bx : vec A -> vec A) :
  sequential_row layers (x, bx)
  = match sequential_row layers (x, fun g => g) with
    | Ok (y, back) => Ok (y, fun g => bx (back g))
    | Raise e => Raise e
    end.
Proof.
  revert x bx. induction layers as [|l rest IH]; intros x bx;
    cbn [sequential_row fst snd]; [reflexivity|].
  destruct (layer_call l x) as [[y back]|e]; cbn [bind]; [|reflexivity].
  rewrite (IH y (fun g => bx (back g))).
  rewrite (IH y (fun g => (fun g0 => g0) (back g))).
  destruct (sequential_row rest (y, fun g => g)) as [[z b2]|e]; reflexivity.
Qed.

Lemma sequential_row_app (l1 l2 : Sequential A) (x : traced (vec A)) :
  sequential_row (l1 ++ l2) x
  = (r <- sequential_row l1 x ;; sequential_row l2 r).
Proof.
  revert x. induction l1 as [|l l1 IH]; intros x; cbn [app sequential_row].
  - reflexivity.
  - destruct (layer_call l (fst x)) as [[y back]|e]; cbn [bind];
      [apply IH|reflexivity].
Qed.

End GraphFacts.

Section RowGradient.
Local Open Scope R_scope.

Lemma length_linear_curve (lin : Linear R) (c : curve) :
  wf_Linear lin -> length (linear_curve lin c) = out_features lin.
Proof.
  intros (Hw & _ & Hb). unfold linear_curve. rewrite length_map2. lia.
Qed.

(** Reverse-mode differentiation of a [Sequential] is correct: along any
    differentiable curve through the input the value is the curve
    [sequential_curve], and the backward function at [t = 0] turns an output
    cotangent [g] into the input cotangent whose product with the input
    velocity is the product of [g] with the output velocity. *)
Lemma sequential_row_vjp (layers : Sequential R) (n m : nat) (c : curve)
      (X' : vec R) :
  wf_Sequential layers n m -> length c = n -> curve_deriv c X' ->
  length (sequential_curve layers c) = m /\
  (forall t, exists back,
      sequential_row layers (eval c t, fun g => g)
      = Ok (eval (sequential_curve layers c) t, back)) /\
  exists Y',
    curve_deriv (sequential_curve layers c) Y' /\
    forall y0 back0,
      sequential_row layers (eval c 0, fun g => g) = Ok (y0, back0) ->
      forall g, dot (back0 g) X' = dot g Y'.
Proof.
  revert n c X'. induction layers as [|l rest IH]; intros n c X' Hwf Hlen Hc.
  - simpl in Hwf. subst m. cbn [sequential_curve sequential_row].
    split; [assumption|]. split; [eauto|].
    exists X'. split; [assumption|].
    intros y0 back0 H0 g. inversion H0; subst. reflexivity.
  - destruct l as [lin|].
    + destruct Hwf as (Hl & Hin & Hrest).
      assert (Hlen1 : length (linear_curve lin c) = out_features lin)
        by (apply length_linear_curve; assumption).
      assert (Hc1 : curve_deriv (linear_curve lin c)
                                (map (fun w => dot X' w) (weight lin))).
      { apply linear_curve_deriv; [|assumption].
        destruct Hl as (Hw & _ & Hb). congruence. }
      destruct (IH _ _ _ Hrest Hlen1 Hc1) as (Hm & Hval & Y' & HY' & Hvjp).
      assert (Hcall : forall t,
                 layer_call (nn_Linear lin) (eval c t)
                 = Ok (eval (linear_curve lin c) t, linear_backward lin)).
      { intros t. cbn [layer_call]. unfold linear.
        rewrite length_eval, Hlen, Hin, Nat.eqb_refl. cbn [bind].
        rewrite eval_linear_curve. reflexivity. }
      cbn [sequential_curve]. split; [assumption|]. split.
      * intros t. cbn [sequential_row fst snd]. rewrite Hcall. cbn [bind].
        rewrite sequential_row_back.
        destruct (Hval t) as (back & ->). eauto.
      * exists Y'. split; [assumption|].
        intros y0 back0 H0 g. cbn [sequential_row fst snd] in H0.
        rewrite Hcall in H0. cbn [bind] in H0.
        rewrite sequential_row_back in H0.
        destruct (Hval 0) as (b2 & Hb2). rewrite Hb2 in H0.
        inversion H0; subst.
        rewrite linear_backward_adjoint.
        -- eapply Hvjp. exact Hb2.
        -- destruct Hl as (_ & Hrows & _). exact Hrows.
        -- rewrite (curve_deriv_length Hc). congruence.
    + simpl in Hwf.
      assert (Hlen1 : length (tanh_curve c) = n)
        by (unfold tanh_curve; rewrite length_map; assumption).
      pose proof (tanh_curve_deriv Hc) as Hc1.
      destruct (IH _ _ _ Hwf Hlen1 Hc1) as (Hm & Hval & Y' & HY' & Hvjp).
      assert (Hcall : forall t,
                 layer_call nn_Tanh (eval c t)
                 = Ok (eval (tanh_curve c) t,
                       tanh_backward (eval (tanh_curve c) t))).
      { intros t. cbn [layer_call]. rewrite eval_tanh_curve. reflexivity. }
      cbn [sequential_curve]. split; [assumption|]. split.
      * intros t. cbn [sequential_row fst snd]. rewrite Hcall. cbn [bind].
        rewrite sequential_row_back.
        destruct (Hval t) as (back & ->). eauto.
      * exists Y'. split; [assumption|].
        intros y0 back0 H0 g. cbn [sequential_row fst snd] in H0.
        rewrite Hcall in H0. cbn [bind] in H0.
        rewrite sequential_row_back in H0.
        destruct (Hval 0) as (b2 & Hb2). rewrite Hb2 in H0.
        inversion H0; subst.
        rewrite eval_tanh_curve, tanh_backward_adjoint.
        -- eapply Hvjp. exact Hb2.
        -- rewrite length_map, length_eval, (curve_deriv_length Hc).
           reflexivity.
Qed.

End RowGradient.

Section BatchRows.
Context {A : Type} {SA : Scalar A}.

Lemma mapM_Forall2 {X Y : Type} (f : X -> result Y) (xs : list X)
      (ys : list Y) :
  mapM f xs = Ok ys -> Forall2 (fun x y => f x = Ok y) xs ys.
Proof.
  revert ys. induction xs as [|x xs IH]; intros ys H; cbn [mapM] in H.
  - injection H as <-. constructor.
  - apply bind_Ok in H as (y & Hy & H).
    apply bind_Ok in H as (ys' & Hys & H). injection H as <-.
    constructor; auto.
Qed.

Lemma Forall2_nth_error_l {X Y : Type} (P : X -> Y -> Prop) (xs : list X)
      (ys : list Y) (i : nat) (x : X) :
  Forall2 P xs ys -> nth_error xs i = Some x ->
  exists y, nth_error ys i = Some y /\ P x y.
Proof.
  intros H. revert i. induction H as [|x0 y0 xs ys H0 _ IH]; intros [|i] Hi;
    cbn [nth_error] in *; try discriminate.
  - injection Hi as ->. eauto.
  - auto.
Qed.

Lemma nth_error_map2 {X Y Z : Type} (f : X -> Y -> Z) (xs : list X)
      (ys : list Y) (i : nat) (x : X) (y : Y) :
  nth_error xs i = Some x -> nth_error ys i = Some y ->
  nth_error (map2 f xs ys) i = Some (f x y).
Proof.
  revert ys i. induction xs as [|x0 xs IH]; intros [|y0 ys] [|i] Hx Hy;
    cbn [nth_error map2] in *; try discriminate.
  - congruence.
  - auto.
Qed.

(** The input model followed by the energy layer, on a batch: every row goes
    through the concatenated layers on its own, and the backward function of
    the result works row by row. *)
Lemma two_stage_rows (l1 l2 : Sequential A) (X : mat A)
      (so H : traced (mat A)) :
  sequential_call l1 (leaf X) = Ok so ->
  sequential_call l2 so = Ok H ->
  exists rows : list (traced (vec A)),
    Forall2 (fun x row =>
               sequential_row (l1 ++ l2) (x, fun g => g) = Ok row) X rows /\
    fst H = map fst rows /\
    forall G, snd H G = map2 (fun row g => snd row g) rows G.
Proof.
  unfold sequential_call, leaf. cbn [fst snd]. intros H1 H2.
  apply bind_Ok in H1 as (rows1 & Hm1 & H1). injection H1 as <-.
  cbn [fst snd] in H2.
  apply bind_Ok in H2 as (rows2 & Hm2 & H2). injection H2 as <-.
  cbn [fst snd].
  apply mapM_Forall2 in Hm1. apply mapM_Forall2 in Hm2.
  exists (map2 (fun (r1 r2 : traced (vec A)) =>
                  (fst r2, fun g => snd r1 (snd r2 g))) rows1 rows2).
  revert rows2 Hm2.
  induction Hm1 as [|x r1 X rows1 Hx _ IH]; intros rows2 Hm2;
    inversion Hm2 as [|y r2 ys rows2' Hy Hrest]; subst; cbn [map map2].
  - split; [constructor|]. split; [reflexivity|]. intros G. reflexivity.
  - destruct (IH _ Hrest) as (Hall & Hfst & Hsnd).
    split; [|split].
    + constructor; [|exact Hall].
      rewrite sequential_row_app, Hx. cbn [bind].
      destruct r1 as [y1 b1]. cbn [fst snd] in *.
      rewrite sequential_row_back, Hy. destruct r2 as [y2 b2]. reflexivity.
    + cbn [fst]. f_equal. exact Hfst.
    + intros [|g G]; cbn [map2 snd]; [reflexivity|].
      f_equal. apply Hsnd.
Qed.

(** The gradient of the sum of the outputs, row by row. *)
Lemma grad_sum_rows (H : traced (mat A)) (rows : list (traced (vec A)))
      (create_graph : bool) :
  fst H = map fst rows ->
  (forall G, snd H G = map2 (fun row g => snd row g) rows G) ->
  autograd_grad_sum H create_graph
  = map (fun row => snd row (map (fun _ => s_one) (fst row))) rows.
Proof.
  intros Hf Hs. unfold autograd_grad_sum. rewrite Hs, Hf. clear.
  induction rows as [|row rows IH]; cbn [map map2]; [reflexivity|].
  f_equal. exact IH.
Qed.

End BatchRows.

Section EnergyGradients.
Local Open Scope R_scope.

Lemma dot_firstn_pad (g v : vec R) (m : nat) :
  dot g (v ++ repeat 0 m) = dot (firstn (length v) g) v.
Proof.
  revert g. induction v as [|vi v IH]; intros [|gi g];
    cbn [app length firstn]; rewrite ?dot_nil_l, ?dot_nil_r, ?dot_cons;
    try reflexivity.
  - rewrite dot_comm. apply dot_repeat_0_l.
  - rewrite IH. reflexivity.
Qed.

Lemma dot_skipn_pad (g w : vec R) (k : nat) :
  dot g (repeat 0 k ++ w) = dot (skipn k g) w.
Proof.
  revert g. induction k as [|k IH]; intros [|gi g];
    cbn [repeat app skipn]; rewrite ?dot_nil_l, ?dot_cons; try reflexivity.
  rewrite IH. ring.
Qed.

Lemma dot_neg (a v : vec R) : dot (map s_neg a) v = - dot a v.
Proof.
  revert v. induction a as [|ai a IH]; intros [|vi v]; cbn [map];
    rewrite ?dot_nil_l, ?dot_nil_r, ?dot_cons; try ring.
  rewrite IH. real_ops. ring.
Qed.

Lemma line_0 (x v : vec R) : length v = length x -> line x v 0 = x.
Proof.
  unfold line. revert v. induction x as [|xi x IH]; intros [|vi v] Hl;
    try discriminate; cbn [map2]; [reflexivity|].
  rewrite IH by (simpl in Hl; lia). f_equal. ring.
Qed.

Lemma eval_app (c1 c2 : curve) (t : R) :
  eval (c1 ++ c2) t = eval c1 t ++ eval c2 t.
Proof. apply map_app. Qed.

Lemma eval_const_curve (x : vec R) (t : R) : eval (const_curve x) t = x.
Proof.
  unfold eval, const_curve. rewrite map_map. apply map_id.
Qed.

Lemma const_curve_deriv (x : vec R) :
  curve_deriv (const_curve x) (repeat 0 (length x)).
Proof.
  induction x as [|xi x IH]; cbn [const_curve map length repeat];
    constructor; [|exact IH].
  apply (derivable_pt_lim_const xi).
Qed.

Lemma curve_deriv_app (c1 c2 : curve) (X1 X2 : vec R) :
  curve_deriv c1 X1 -> curve_deriv c2 X2 -> curve_deriv (c1 ++ c2) (X1 ++ X2).
Proof. apply Forall2_app. Qed.

(** One row through layers that end in a single output: the value is one
    number, and the gradient the backward function returns for it gives the
    derivative of that number along every differentiable curve through the
    input. *)
Lemma row_value_and_gradient (layers : Sequential R) (n : nat) (x : vec R)
      (row : traced (vec R)) :
  wf_Sequential layers n 1 -> length x = n ->
  sequential_row layers (x, fun g => g) = Ok row ->
  (exists y, fst row = [y]) /\
  length (snd row (map (fun _ => s_one) (fst row))) = n /\
  forall (c : curve) (X' : vec R),
    curve_deriv c X' -> eval c 0 = x ->
    exists f : R -> R,
      (forall t, exists back,
          sequential_row layers (eval c t, fun g => g) = Ok ([f t], back)) /\
      derivable_pt_lim f 0 (dot (snd row (map (fun _ => s_one) (fst row))) X').
Proof.
  intros Hwf Hx Hrow.
  destruct (@sequential_row_shape _ _ layers n 1 n
              (@pair (vec R) (vec R -> vec R) x (fun g => g)) Hwf Hx
              ltac:(auto)) as (y & back & Hy & Hly & Hback).
  rewrite Hrow in Hy. injection Hy as ->. cbn [fst snd].
  destruct y as [|y0 [|y1 y]]; try discriminate.
  split; [eauto|]. split; [apply Hback; reflexivity|].
  intros c X' Hc H0.
  assert (Hlc : length c = n) by (rewrite <- (length_eval c 0), H0; exact Hx).
  pose proof sequential_row_vjp as Hv.
  specialize (Hv layers n 1%nat c X' Hwf Hlc Hc).
  destruct Hv as (Hm & Hval & Y' & HY' & Hvjp).
  destruct (sequential_curve layers c) as [|f [|f1 cs]] eqn:Hcurve;
    try discriminate.
  inversion HY' as [|f' y' c' Y'' Hf Hnil]; subst. inversion Hnil; subst.
  exists f. split.
  - intros t. destruct (Hval t) as (b & Hb). exists b. exact Hb.
  - rewrite (Hvjp _ _ Hrow). cbn [map].
    rewrite dot_cons, dot_nil_l. real_ops.
    replace (1 * y' + 0) with y' by ring. exact Hf.
Qed.


Lemma two_stage_single (l1 l2 : Sequential R) (x y : vec R)
      (b : vec R -> vec R) :
  sequential_row (l1 ++ l2) (x, fun g => g) = Ok (y, b) ->
  exists so H,
    sequential_call l1 (leaf [x]) = Ok so /\
    sequential_call l2 so = Ok H /\ fst H = [y].
Proof.
  intros H. rewrite sequential_row_app in H.
  apply bind_Ok in H as ([y1 b1] & H1 & H2).
  rewrite sequential_row_back in H2.
  destruct (sequential_row l2 (y1, fun g => g)) as [[y2 b2]|e] eqn:E2;
    [|discriminate].
  injection H2 as -> _.
  unfold sequential_call, leaf. cbn [fst snd mapM]. rewrite H1.
  cbn [bind map fst snd mapM]. eexists _, _. split; [reflexivity|].
  cbn [fst snd map mapM]. rewrite E2. cbn [bind map fst].
  split; reflexivity.
Qed.

Lemma kinetic_energy_row (net : adaptable_partial_HNN.t R) (x ys : vec R)
      (y : R) (b : vec R -> vec R) :
  adaptable_partial_HNN.potential net = false ->
  sequential_row (adaptable_partial_HNN.input_model net
                  ++ adaptable_partial_HNN.energy_layer net)
                 (x, fun g => g) = Ok (y :: ys, b) ->
  kinetic_energy net x = y.
Proof.
  intros Hk H. apply two_stage_single in H as (so & HH & Hso & HHH & Hf).
  unfold kinetic_energy, adaptable_partial_HNN.forward.
  rewrite Hk, Hso. cbn [bind]. rewrite HHH. cbn [bind]. rewrite Hf.
  reflexivity.
Qed.

Lemma potential_energy_row (net : adaptable_partial_HNN.t R)
      (q ps ys : vec R) (y : R) (b : vec R -> vec R) :
  adaptable_partial_HNN.potential net = true ->
  sequential_row (adaptable_partial_HNN.input_model net
                  ++ adaptable_partial_HNN.energy_layer net)
                 (q ++ ps, fun g => g) = Ok (y :: ys, b) ->
  potential_energy net q ps = y.
Proof.
  intros Hk H. apply two_stage_single in H as (so & HH & Hso & HHH & Hf).
  unfold potential_energy, adaptable_partial_HNN.forward.
  rewrite Hk. cbn [adaptable_HNN.tensor_arg bind cat_dim1 length Nat.eqb map2].
  unfold mat, vec in *. rewrite Hso. cbn [bind]. rewrite HHH. cbn [bind]. rewrite Hf.
  reflexivity.
Qed.

Lemma hamiltonian_row (net : adaptable_HNN.t R) (q p ps ys : vec R) (y : R)
      (b : vec R -> vec R) :
  sequential_row (adaptable_HNN.input_model net
                  ++ adaptable_HNN.energy_layer net)
                 ((q ++ p) ++ ps, fun g => g) = Ok (y :: ys, b) ->
  hamiltonian net q p ps = y.
Proof.
  intros H. apply two_stage_single in H as (so & HH & Hso & HHH & Hf).
  unfold hamiltonian, adaptable_HNN.forward.
  cbn [adaptable_HNN.tensor_arg bind cat_dim1 length Nat.eqb map2].
  unfold mat, vec in *. rewrite Hso. cbn [bind]. rewrite HHH. cbn [bind]. rewrite Hf.
  reflexivity.
Qed.

(** Row [i] of what an estimator computes on a batch: its energy is the
    single output of the layers on row [i] of the input, and row [i] of the
    gradient of the summed energies gives the derivative of that output
    along every differentiable curve through row [i]. *)
Lemma estimator_rows (l1 l2 : Sequential R) (n h batch : nat) (X : mat R)
      (so H : traced (mat R)) (create_graph : bool) (i : nat) (x : vec R) :
  wf_Sequential l1 n h -> wf_Sequential l2 h 1 -> has_shape X batch n ->
  sequential_call l1 (leaf X) = Ok so ->
  sequential_call l2 so = Ok H ->
  nth_error X i = Some x ->
  exists (y : R) (g : vec R) (b : vec R -> vec R),
    sequential_row (l1 ++ l2) (x, fun g => g) = Ok ([y], b) /\
    nth_error (fst H) i = Some [y] /\
    nth_error (autograd_grad_sum H create_graph) i = Some g /\
    length g = n /\
    forall (c : curve) (X' : vec R),
      curve_deriv c X' -> eval c 0 = x ->
      exists f : R -> R,
        (forall t, exists back,
            sequential_row (l1 ++ l2) (eval c t, fun g => g)
            = Ok ([f t], back)) /\
        derivable_pt_lim f 0 (dot g X').
Proof.
  intros Hin Hen [_ HX] Hso HH Hi.
  destruct (@two_stage_rows _ _ l1 l2 X so H Hso HH) as (rows & Hall & Hfst & Hsnd).
  rewrite (@grad_sum_rows _ _ H rows create_graph Hfst Hsnd), Hfst.
  destruct (@Forall2_nth_error_l _ _ _ _ _ _ _ Hall Hi) as ([y b] & Hrow_i & Hrow).
  assert (Hlx : length x = n).
  { rewrite Forall_forall in HX. apply HX. eapply nth_error_In. exact Hi. }
  assert (Hwf : wf_Sequential (l1 ++ l2) n 1)
    by (eapply wf_Sequential_app; eassumption).
  destruct (@row_value_and_gradient _ _ _ _ Hwf Hlx Hrow) as ((y0 & Hy) & Hlg & Hgrad).
  cbn [fst snd] in *. subst y.
  exists y0, (b (map (fun _ => s_one) [y0])), b.
  split; [exact Hrow|]. split.
  { erewrite map_nth_error by exact Hrow_i. reflexivity. }
  split.
  { erewrite map_nth_error by exact Hrow_i. reflexivity. }
  split; [exact Hlg|]. exact Hgrad.
Qed.

(** X10: [adaptable_partial_HNN.forward] with [potential=False] returns K
    and dK/dp: row [i] of its first output is the kinetic energy of row [i] of
    the batch, and row [i] of its second output is the gradient of the
    kinetic energy there (the derivative of K along [p + t v] at [t = 0] is
    its product with [v], for every direction [v]). *)
Theorem kinetic_gradient_correct (net : adaptable_partial_HNN.t R)
        (P : mat R) (params : option (mat R)) (training : bool)
        (K dK : mat R) (batch d i : nat) (p : vec R) :
  wf_kinetic net d -> has_shape P batch d ->
  adaptable_partial_HNN.forward net P params training = Ok (K, dK) ->
  nth_error P i = Some p ->
  nth_error K i = Some [kinetic_energy net p] /\
  exists g,
    nth_error dK i = Some g /\
    forall v, length v = d ->
      derivable_pt_lim (fun t => kinetic_energy net (line p v t)) 0 (dot g v).
Proof.
  intros (Hk & h & Hin & Hen) HP Hfw Hi.
  unfold adaptable_partial_HNN.forward in Hfw. rewrite Hk in Hfw.
  apply bind_Ok in Hfw as (so & Hso & Hfw).
  apply bind_Ok in Hfw as (H & HH & Hfw).
  assert (HK : K = fst H /\ dK = autograd_grad_sum H training)
    by (destruct training; injection Hfw as <- <-; split; reflexivity).
  destruct HK as [-> ->]. clear Hfw.
  destruct (@estimator_rows _ _ _ _ _ _ _ _ training _ _ Hin Hen HP Hso HH Hi)
    as (y & g & b & Hrow & HKi & Hgi & Hlg & Hgrad).
  assert (Hlp : length p = d).
  { destruct HP as [_ HP]. rewrite Forall_forall in HP. apply HP.
    eapply nth_error_In. exact Hi. }
  split.
  - rewrite HKi. rewrite (@kinetic_energy_row net _ _ _ _ Hk Hrow). reflexivity.
  - exists g. split; [exact Hgi|]. intros v Hv.
    destruct (Hgrad (line_curve p v) v) as (f & Hf & Hd).
    + apply line_curve_deriv. congruence.
    + rewrite line_curve_eval. apply line_0. congruence.
    + eapply derivable_pt_lim_ext; [|exact Hd]. intros t.
      destruct (Hf t) as (back & Hb). rewrite line_curve_eval in Hb.
      symmetry. exact (@kinetic_energy_row net _ _ _ _ Hk Hb).
Qed.


Lemma cat_dim1_row (a c m : mat R) (i : nat) (x y : vec R) :
  cat_dim1 a c = Ok m -> nth_error a i = Some x -> nth_error c i = Some y ->
  nth_error m i = Some (x ++ y).
Proof.
  unfold cat_dim1. destruct (length a =? length c); [|discriminate].
  intros Hm Hx Hy. injection Hm as <-. apply nth_error_map2; assumption.
Qed.

Lemma has_shape_row (m : mat R) (batch dim i : nat) (x : vec R) :
  has_shape m batch dim -> nth_error m i = Some x -> length x = dim.
Proof.
  intros [_ Hm] Hi. rewrite Forall_forall in Hm. apply Hm.
  eapply nth_error_In. exact Hi.
Qed.

(** X11: [adaptable_partial_HNN.forward] with [potential=True] returns V
    and the force -dV/dq at fixed parameters: row [i] of its first output is the
    potential energy of row [i] of the batch under row [i] of the
    parameters, and row [i] of its second output is minus the gradient of
    that energy in the positions (the derivative of V along [q + t v] at
    [t = 0], parameters held fixed, is minus its product with [v]). *)
Theorem potential_force_correct (net : adaptable_partial_HNN.t R)
        (Q PS : mat R) (training : bool) (V F : mat R) (batch d np i : nat)
        (q ps : vec R) :
  wf_potential net d np -> has_shape Q batch d -> has_shape PS batch np ->
  adaptable_partial_HNN.forward net Q (Some PS) training = Ok (V, F) ->
  nth_error Q i = Some q -> nth_error PS i = Some ps ->
  nth_error V i = Some [potential_energy net q ps] /\
  exists f,
    nth_error F i = Some f /\
    forall v, length v = d ->
      derivable_pt_lim (fun t => potential_energy net (line q v t) ps) 0
                       (- dot f v).
Proof.
  intros (Hk & h & Hin & Hen) HQ HPS Hfw Hq Hps.
  unfold adaptable_partial_HNN.forward in Hfw. rewrite Hk in Hfw.
  cbn [adaptable_HNN.tensor_arg bind] in Hfw.
  apply bind_Ok in Hfw as (input & Hcat & Hfw).
  apply bind_Ok in Hfw as (so & Hso & Hfw).
  apply bind_Ok in Hfw as (Ht & HH & Hfw).
  assert (HV : V = fst Ht /\
               F = mneg (adaptable_HNN.take_cols Q
                           (autograd_grad_sum Ht training)))
    by (destruct training; injection Hfw as <- <-; split; reflexivity).
  destruct HV as [-> ->]. clear Hfw.
  destruct (cat_dim1_shape HQ HPS) as (input' & Hcat' & Hinput).
  rewrite Hcat in Hcat'. injection Hcat' as <-.
  pose proof (cat_dim1_row _ _ _ Hcat Hq Hps) as Hi.
  destruct (@estimator_rows _ _ _ _ _ _ _ _ training _ _ Hin Hen Hinput Hso
              HH Hi) as (y & g & b & Hrow & HVi & Hgi & Hlg & Hgrad).
  pose proof (has_shape_row _ HQ Hq) as Hlq.
  split.
  - rewrite HVi. rewrite (@potential_energy_row net _ _ _ _ _ Hk Hrow).
    reflexivity.
  - exists (map s_neg (firstn (length q) g)). split.
    + unfold mneg, adaptable_HNN.take_cols.
      apply (map_nth_error (map s_neg)).
      exact (@nth_error_map2 _ _ _
               (fun row grow : vec R => firstn (length row) grow)
               _ _ _ _ _ Hq Hgi).
    + intros v Hv.
      destruct (Hgrad (line_curve q v ++ const_curve ps)
                      (v ++ repeat 0 (length ps))) as (f & Hf & Hd).
      * apply curve_deriv_app; [|apply const_curve_deriv].
        apply line_curve_deriv. congruence.
      * rewrite eval_app, line_curve_eval, eval_const_curve, line_0
          by congruence. reflexivity.
      * rewrite dot_firstn_pad in Hd.
        rewrite dot_neg, Ropp_involutive.
        replace (length q) with (length v) by congruence.
        eapply derivable_pt_lim_ext; [|exact Hd]. intros t.
        destruct (Hf t) as (back & Hb).
        rewrite eval_app, line_curve_eval, eval_const_curve in Hb.
        symmetry. exact (@potential_energy_row net _ _ _ _ _ Hk Hb).
Qed.

(** X12: [adaptable_HNN.forward] returns H, -dH/dq and dH/dp: row [i] of its
    first output is the energy of row [i] of the batch, row [i] of its
    second output is minus the gradient of that energy in the positions and
    row [i] of its third output is its gradient in the momenta, each with
    the other arguments held fixed. *)
Theorem hamiltonian_gradients_correct (net : adaptable_HNN.t R)
        (Q P PS : mat R) (training : bool) (H mdH_dq dH_dp : mat R)
        (batch d np i : nat) (q p ps : vec R) :
  wf_full net d np ->
  has_shape Q batch d -> has_shape P batch d -> has_shape PS batch np ->
  adaptable_HNN.forward net Q P (Some PS) training = Ok (H, mdH_dq, dH_dp) ->
  nth_error Q i = Some q -> nth_error P i = Some p ->
  nth_error PS i = Some ps ->
  nth_error H i = Some [hamiltonian net q p ps] /\
  exists fq fp,
    nth_error mdH_dq i = Some fq /\
    nth_error dH_dp i = Some fp /\
    forall v, length v = d ->
      derivable_pt_lim (fun t => hamiltonian net (line q v t) p ps) 0
                       (- dot fq v) /\
      derivable_pt_lim (fun t => hamiltonian net q (line p v t) ps) 0
                       (dot fp v).
Proof.
  intros (h & Hin & Hen) HQ HP HPS Hfw Hq Hp Hps.
  unfold adaptable_HNN.forward in Hfw.
  cbn [adaptable_HNN.tensor_arg bind] in Hfw.
  apply bind_Ok in Hfw as (qp & Hcat1 & Hfw).
  apply bind_Ok in Hfw as (input & Hcat2 & Hfw).
  apply bind_Ok in Hfw as (so & Hso & Hfw).
  apply bind_Ok in Hfw as (Ht & HH & Hfw).
  assert (HV : H = fst Ht /\
               mdH_dq = mneg (adaptable_HNN.take_cols Q
                                (autograd_grad_sum Ht training)) /\
               dH_dp = adaptable_HNN.take_cols P
                         (adaptable_HNN.drop_cols Q
                            (autograd_grad_sum Ht training)))
    by (destruct training; injection Hfw as <- <- <-; repeat split).
  destruct HV as (-> & -> & ->). clear Hfw.
  destruct (cat_dim1_shape HQ HP) as (qp' & Hcat1' & Hqp).
  rewrite Hcat1 in Hcat1'. injection Hcat1' as <-.
  destruct (cat_dim1_shape Hqp HPS) as (input' & Hcat2' & Hinput).
  rewrite Hcat2 in Hcat2'. injection Hcat2' as <-.
  pose proof (cat_dim1_row _ _ _ Hcat1 Hq Hp) as Hi1.
  pose proof (cat_dim1_row _ _ _ Hcat2 Hi1 Hps) as Hi.
  destruct (@estimator_rows _ _ _ _ _ _ _ _ training _ _ Hin Hen Hinput Hso
              HH Hi) as (y & g & b & Hrow & HHi & Hgi & Hlg & Hgrad).
  pose proof (has_shape_row _ HQ Hq) as Hlq.
  pose proof (has_shape_row _ HP Hp) as Hlp.
  split.
  - rewrite HHi. rewrite (@hamiltonian_row net _ _ _ _ _ _ Hrow).
    reflexivity.
  - exists (map s_neg (firstn (length q) g)),
           (firstn (length p) (skipn (length q) g)).
    split; [|split].
    + unfold mneg, adaptable_HNN.take_cols.
      apply (map_nth_error (map s_neg)).
      exact (@nth_error_map2 _ _ _
               (fun row grow : vec R => firstn (length row) grow)
               _ _ _ _ _ Hq Hgi).
    + unfold adaptable_HNN.take_cols, adaptable_HNN.drop_cols.
      exact (@nth_error_map2 _ _ _
               (fun row grow : vec R => firstn (length row) grow)
               _ _ _ _ _ Hp
               (@nth_error_map2 _ _ _
                  (fun row grow : vec R => skipn (length row) grow)
                  _ _ _ _ _ Hq Hgi)).
    + intros v Hv. split.
      * destruct (Hgrad ((line_curve q v ++ const_curve p) ++ const_curve ps)
                        ((v ++ repeat 0 (length p))
                         ++ repeat 0 (length ps))) as (f & Hf & Hd).
        -- repeat apply curve_deriv_app; try apply const_curve_deriv.
           apply line_curve_deriv. congruence.
        -- rewrite !eval_app, line_curve_eval, !eval_const_curve, line_0
             by congruence. reflexivity.
        -- rewrite <- app_assoc, <- repeat_app, dot_firstn_pad in Hd.
           rewrite dot_neg, Ropp_involutive.
           replace (length q) with (length v) by congruence.
           eapply derivable_pt_lim_ext; [|exact Hd]. intros t.
           destruct (Hf t) as (back & Hb).
           rewrite !eval_app, line_curve_eval, !eval_const_curve in Hb.
           symmetry. exact (@hamiltonian_row net _ _ _ _ _ _ Hb).
      * destruct (Hgrad ((const_curve q ++ line_curve p v) ++ const_curve ps)
                        ((repeat 0 (length q) ++ v)
                         ++ repeat 0 (length ps))) as (f & Hf & Hd).
        -- repeat apply curve_deriv_app; try apply const_curve_deriv.
           apply line_curve_deriv. congruence.
        -- rewrite !eval_app, line_curve_eval, !eval_const_curve, line_0
             by congruence. reflexivity.
        -- rewrite <- app_assoc, dot_skipn_pad, dot_firstn_pad in Hd.
           replace (length p) with (length v) by congruence.
           eapply derivable_pt_lim_ext; [|exact Hd]. intros t.
           destruct (Hf t) as (back & Hb).
           rewrite !eval_app, line_curve_eval, !eval_const_curve in Hb.
           symmetry. exact (@hamiltonian_row net _ _ _ _ _ _ Hb).
Qed.

End EnergyGradients.

(** ** Surplus entries of [num_neurons] *)

Section SurplusWidths.
Context {A : Type} {SA : Scalar A}.
Variable rng : Type.
Variable new_Linear : nat -> nat -> rng -> Linear A * rng.

(** A single [nn.Linear] rejects a non-empty batch of another width. *)
Lemma energy_layer_width_raise (lin_e : Linear A) (x : traced (mat A))
      (batch w : nat) :
  has_shape (fst x) batch w -> 1 <= batch -> in_features lin_e <> w ->
  sequential_call [nn_Linear lin_e] x = Raise RuntimeError.
Proof.
  destruct x as [Y back]. cbn [fst]. intros [HL HY] Hb Hw.
  destruct Y as [|y Y]; [simpl in HL; lia|].
  inversion HY as [|y' Y' Hy _]; subst.
  unfold sequential_call.
  cbn [fst mapM sequential_row layer_call]. unfold linear.
  destruct (Nat.eqb_spec (length y) (in_features lin_e)) as [E|E];
    [congruence|]. reflexivity.
Qed.

(** An estimator whose energy layer expects another width than its hidden
    stack delivers raises on every non-empty, well-shaped batch. *)
Lemma partial_forward_width_raise (net : adaptable_partial_HNN.t A)
      (lin_e : Linear A) (x ps : mat A) (training : bool)
      (batch d np w : nat) :
  adaptable_partial_HNN.energy_layer net = [nn_Linear lin_e] ->
  in_features lin_e <> w ->
  wf_Sequential (adaptable_partial_HNN.input_model net)
                (if adaptable_partial_HNN.potential net then d + np else d)
                w ->
  has_shape x batch d -> has_shape ps batch np -> 1 <= batch ->
  adaptable_partial_HNN.forward net x (Some ps) training
  = Raise RuntimeError.
Proof.
  intros He Hw Hwf Hx Hps Hb. unfold adaptable_partial_HNN.forward.
  rewrite He. destruct (adaptable_partial_HNN.potential net).
  - cbn [adaptable_HNN.tensor_arg bind].
    destruct (cat_dim1_shape Hx Hps) as (input & -> & Hinput). cbn [bind].
    destruct (@sequential_call_shape _ _ _ (d + np) w batch (d + np)
                (leaf input) Hwf Hinput ltac:(auto))
      as (Y & back & -> & HY & _).
    cbn [bind].
    rewrite (@energy_layer_width_raise lin_e (Y, back) batch w HY Hb Hw).
    reflexivity.
  - destruct (@sequential_call_shape _ _ _ d w batch d (leaf x) Hwf Hx
                ltac:(auto)) as (Y & back & -> & HY & _).
    cbn [bind].
    rewrite (@energy_layer_width_raise lin_e (Y, back) batch w HY Hb Hw).
    reflexivity.
Qed.

Lemma full_forward_width_raise (net : adaptable_HNN.t A) (lin_e : Linear A)
      (q p ps : mat A) (training : bool) (batch d np w : nat) :
  adaptable_HNN.energy_layer net = [nn_Linear lin_e] ->
  in_features lin_e <> w ->
  wf_Sequential (adaptable_HNN.input_model net) (d + d + np) w ->
  has_shape q batch d -> has_shape p batch d -> has_shape ps batch np ->
  1 <= batch ->
  adaptable_HNN.forward net q p (Some ps) training = Raise RuntimeError.
Proof.
  intros He Hw Hwf Hq Hp Hps Hb. unfold adaptable_HNN.forward.
  rewrite He. cbn [adaptable_HNN.tensor_arg bind].
  destruct (cat_dim1_shape Hq Hp) as (qp & -> & Hqp). cbn [bind].
  destruct (cat_dim1_shape Hqp Hps) as (input & -> & Hinput). cbn [bind].
  destruct (@sequential_call_shape _ _ _ (d + d + np) w batch (d + d + np)
              (leaf input) Hwf Hinput ltac:(auto))
    as (Y & back & -> & HY & _).
  cbn [bind].
  rewrite (@energy_layer_width_raise lin_e (Y, back) batch w HY Hb Hw).
  reflexivity.
Qed.

(** X14: the energy layer is sized by [num_neurons[-1]], the hidden stack ends
    with [num_neurons[max(num_hidden,1)-1]]: when [num_neurons] has surplus
    entries and these two widths differ, the constructor returns a model,
    and every rollout of at least one step on a non-empty well-shaped batch
    raises [RuntimeError]. *)
Theorem surplus_widths_break_forward
        (input_size num_hidden : nat) (num_neurons : list nat)
        (n_params : nat) (dt : A) (separable : bool) (g : rng)
        (w w_last : nat) :
  Linear_contract new_Linear ->
  nth_error num_neurons (Nat.max num_hidden 1 - 1) = Some w ->
  nth_error num_neurons (length num_neurons - 1) = Some w_last ->
  w <> w_last ->
  (separable = false -> input_size = 2 * (input_size / 2)) ->
  exists self g',
    adaptable_sympRNN_init new_Linear input_size num_hidden num_neurons
                           n_params dt separable g = Ok (self, g') /\
    forall (q0 p0 params : mat A) (T batch : nat) (training : bool),
      1 <= T -> 1 <= batch ->
      has_shape q0 batch (input_size / 2) ->
      has_shape p0 batch (input_size / 2) ->
      has_shape params batch n_params ->
      adaptable_sympRNN.forward self q0 p0 (Some params) T training
      = Raise RuntimeError.
Proof.
  intros Hnew Hw Hlast Hne Heven.
  assert (Hlen : Nat.max num_hidden 1 <= length num_neurons).
  { assert (Nat.max num_hidden 1 - 1 < length num_neurons)
      by (apply nth_error_Some; congruence). lia. }
  assert (Hb : forall first_in g0, exists input_model lin_e g',
             build_layers new_Linear first_in num_hidden num_neurons g0
             = Ok (input_model, [nn_Linear lin_e], g') /\
             wf_Sequential input_model first_in w /\
             in_features lin_e <> w).
  { intros first_in g0.
    destruct (@build_layers_Ok _ _ new_Linear first_in num_hidden
                num_neurons g0 Hnew Hlen)
      as (im & le & g' & w' & w_last' & Hok & Hw' & Hlast' & Hwf & _ & Hin
          & _).
    rewrite Hw in Hw'. injection Hw' as <-.
    rewrite Hlast in Hlast'. injection Hlast' as <-.
    exists im, le, g'. split; [assumption|]. split; [assumption|].
    congruence. }
  unfold adaptable_sympRNN_init. destruct separable.
  - unfold adaptable_partial_HNN_init.
    destruct (Hb (input_size / 2) g) as (imK & leK & g1 & -> & HK & HKw).
    cbn [bind].
    destruct (Hb (input_size / 2 + n_params) g1)
      as (imV & leV & g2 & -> & HV & HVw).
    cbn [bind]. eexists _, _. split; [reflexivity|].
    intros q0 p0 params T batch training HT Hbatch Hq Hp Hps.
    unfold adaptable_sympRNN.forward.
    eapply rollout_first_raise; try eassumption.
    unfold adaptable_sympRNN.select_step, adaptable_sympRNN.separable.
    cbn [adaptable_sympRNN.nets].
    unfold adaptable_sympRNN.step, adaptable_sympRNN.call_K_net,
      adaptable_sympRNN.K_net.
    cbn [adaptable_sympRNN.nets bind].
    destruct training;
      erewrite (@partial_forward_width_raise _ leK p0 params _ batch
                  (input_size / 2) n_params w);
      try reflexivity; try assumption.
  - unfold adaptable_HNN_init.
    destruct (Hb (input_size + n_params) g) as (im & le & g1 & -> & Hwf & Hin).
    cbn [bind]. eexists _, _. split; [reflexivity|].
    intros q0 p0 params T batch training HT Hbatch Hq Hp Hps.
    unfold adaptable_sympRNN.forward.
    eapply rollout_first_raise; try eassumption.
    unfold adaptable_sympRNN.select_step, adaptable_sympRNN.separable.
    cbn [adaptable_sympRNN.nets].
    unfold adaptable_sympRNN.step2, adaptable_sympRNN.call_HNN_net,
      adaptable_sympRNN.HNN.
    cbn [adaptable_sympRNN.nets bind].
    destruct training;
      erewrite (@full_forward_width_raise _ le q0 p0 params _ batch
                  (input_size / 2) n_params w);
      try reflexivity; try assumption;
      cbn [adaptable_HNN.input_model];
      replace (input_size / 2 + input_size / 2 + n_params)
        with (input_size + n_params) by (specialize (Heven eq_refl); lia);
      assumption.
Qed.

End SurplusWidths.

(** ** A negative batch size *)

Section NegativeBatch.
Context {A : Type} {SA : Scalar A}.
Variable Grad : Type.
Variable OptState : Type.
Variable Adam : adaptable_sympRNN.t A -> A -> OptState.
Variable backward :
  adaptable_sympRNN.t A -> dataset A -> nat -> option Grad -> Grad.
Variable Adam_step :
  OptState -> option Grad -> adaptable_sympRNN.t A ->
  OptState * adaptable_sympRNN.t A.

Lemma list_set_app {X : Type} (l1 l2 : list X) (x y : X) (k : nat) :
  length l1 = k -> list_set (l1 ++ x :: l2) k y = l1 ++ y :: l2.
Proof.
  intros <-. induction l1 as [|z l1 IH]; cbn [app length list_set];
    [reflexivity|].
  rewrite IH. reflexivity.
Qed.

Lemma repeat_snoc {X : Type} (x : X) (k : nat) :
  repeat x k ++ [x] = repeat x (S k).
Proof.
  induction k as [|k IH]; cbn [repeat app]; [reflexivity|].
  rewrite IH. reflexivity.
Qed.

(** [int(n / batch_size)] is negative for a negative [batch_size] no larger
    in size than [n]. *)
Lemma num_batches_negative (n : nat) (batch_size : Z) :
  (batch_size < 0)%Z -> (- batch_size <= Z.of_nat n)%Z ->
  exists num, num_batches n batch_size = Ok num /\ (num < 0)%Z.
Proof.
  intros Hneg Hle. unfold num_batches.
  destruct (Z.eqb_spec batch_size 0) as [E|E]; [lia|].
  eexists. split; [reflexivity|].
  replace batch_size with (- (- batch_size))%Z by lia.
  rewrite Z.quot_opp_r by lia.
  assert (0 < Z.quot (Z.of_nat n) (- batch_size))%Z
    by (apply Z.quot_str_pos; lia).
  lia.
Qed.

(** An epoch with negative batch counts feeds no batch and takes no
    optimizer step. *)
Lemma epoch_without_batches (train valid : dataset A) (time : nat)
      (batch_size num_train num_valid : Z) (m : nn_module A Grad)
      (opt : OptState) (tl vl : losses) (it : nat) :
  (num_train < 0)%Z -> (num_valid < 0)%Z ->
  epoch backward Adam_step train valid time batch_size num_train num_valid
        (m, opt, tl, vl) it
  = Ok (set_mode (set_mode m true) false, opt,
        list_set tl it (Some (s_div s_zero (s_of_Z num_train))),
        list_set vl it (Some (s_div s_zero (s_of_Z num_valid)))).
Proof.
  intros Ht Hv. unfold epoch, train_loop, valid_loop, range, truediv.
  replace (Z.to_nat num_train) with 0 by lia.
  replace (Z.to_nat num_valid) with 0 by lia.
  cbn [seq foldM bind].
  destruct (Z.eqb_spec num_train 0) as [E|E]; [lia|].
  destruct (Z.eqb_spec num_valid 0) as [E'|E']; [lia|].
  reflexivity.
Qed.

(** X15: a negative [batch_size] of size at most the number of training and
    validation rows is accepted: [int(N / batch_size)] is negative, so both
    batch loops are empty and the division by the batch count succeeds.
    [train_validate] returns without ever calling the model or the
    optimizer; the weights and gradients are those passed in and every
    recorded loss is [0 / num]. *)
Theorem negative_batch_size_trains_nothing
        (model : nn_module A Grad) (train valid : dataset A)
        (n_epochs : nat) (batch_size : Z) (learning_rate : A) :
  (batch_size < 0)%Z ->
  (- batch_size <= Z.of_nat (length (q_input train)))%Z ->
  (- batch_size <= Z.of_nat (length (q_input valid)))%Z ->
  exists m' num_train num_valid,
    num_batches (length (q_input train)) batch_size = Ok num_train /\
    num_batches (length (q_input valid)) batch_size = Ok num_valid /\
    train_validate Adam backward Adam_step model train valid n_epochs
                   batch_size learning_rate
    = Ok (m', (repeat (Some (s_div s_zero (s_of_Z num_train))) n_epochs,
               repeat (Some (s_div s_zero (s_of_Z num_valid))) n_epochs)) /\
    weights m' = weights model /\ grad m' = grad model.
Proof.
  intros Hneg Ht Hv.
  destruct (num_batches_negative _ Hneg Ht) as (nt & Hnt & Hnt0).
  destruct (num_batches_negative _ Hneg Hv) as (nv & Hnv & Hnv0).
  unfold train_validate. rewrite Hnt, Hnv. cbn [bind].
  set (a := Some (s_div s_zero (s_of_Z nt))).
  set (b := Some (s_div s_zero (s_of_Z nv))).
  assert (Hloop : forall n k (m : nn_module A Grad) opt,
             exists m',
               foldM (epoch backward Adam_step train valid
                            (length (q_output train)) batch_size nt nv)
                     (seq k n)
                     (m, opt, repeat a k ++ repeat None n,
                      repeat b k ++ repeat None n)
               = Ok (m', opt, repeat a (k + n), repeat b (k + n)) /\
               weights m' = weights m /\ grad m' = grad m).
  { induction n as [|n IH]; intros k m opt.
    - exists m. cbn [seq foldM repeat]. rewrite !app_nil_r, Nat.add_0_r.
      repeat split.
    - cbn [seq foldM repeat].
      rewrite epoch_without_batches by assumption. cbn [bind].
      rewrite !list_set_app by apply repeat_length. fold a b.
      replace (repeat a k ++ a :: repeat None n)
        with (repeat a (S k) ++ repeat None n)
        by (rewrite <- repeat_snoc, <- app_assoc; reflexivity).
      replace (repeat b k ++ b :: repeat None n)
        with (repeat b (S k) ++ repeat None n)
        by (rewrite <- repeat_snoc, <- app_assoc; reflexivity).
      destruct (IH (S k) (set_mode (set_mode m true) false) opt)
        as (m' & -> & Hw & Hg).
      exists m'. replace (k + S n) with (S k + n) by lia.
      repeat split; assumption. }
  destruct (Hloop n_epochs 0 model (Adam (weights model) learning_rate))
    as (m' & Hf & Hw & Hg).
  cbn [repeat app Nat.add] in Hf.
  exists m', nt, nv. split; [reflexivity|]. split; [reflexivity|].
  unfold losses in *. rewrite Hf. cbn [bind]. repeat split; assumption.
Qed.

End NegativeBatch.

(** ** The rows the batch loops never read *)

Section UnreadRows.
Context {A : Type} {SA : Scalar A}.
Variable Grad : Type.
Variable OptState : Type.
Variable Adam : adaptable_sympRNN.t A -> A -> OptState.
Variable backward :
  adaptable_sympRNN.t A -> dataset A -> nat -> option Grad -> Grad.
Variable Adam_step :
  OptState -> option Grad -> adaptable_sympRNN.t A ->
  OptState * adaptable_sympRNN.t A.

Lemma rows_of_leading {X : Type} (l : list X) (b n k : nat) :
  b + n <= k -> rows (rows l 0 k) b n = rows l b n.
Proof.
  intros Hk. unfold rows. cbn [skipn].
  rewrite skipn_firstn_comm, firstn_firstn.
  f_equal. lia.
Qed.

Lemma window_of_leading (d d' : dataset A) (b n k : nat) :
  b + n <= k -> window d 0 k = window d' 0 k -> window d b n = window d' b n.
Proof.
  intros Hk Hw. unfold window in *. injection Hw as Hq Hp Hc Hqo Hpo.
  f_equal.
  - rewrite <- (@rows_of_leading _ (q_input d) b n k Hk), Hq.
    apply rows_of_leading. exact Hk.
  - rewrite <- (@rows_of_leading _ (p_input d) b n k Hk), Hp.
    apply rows_of_leading. exact Hk.
  - rewrite <- (@rows_of_leading _ (params d) b n k Hk), Hc.
    apply rows_of_leading. exact Hk.
  - transitivity (map (fun m => rows m b n)
                      (map (fun m => rows m 0 k) (q_output d))).
    + rewrite map_map. apply map_ext. intros m. symmetry.
      apply rows_of_leading. exact Hk.
    + rewrite Hqo, map_map. apply map_ext. intros m.
      apply rows_of_leading. exact Hk.
  - transitivity (map (fun m => rows m b n)
                      (map (fun m => rows m 0 k) (p_output d))).
    + rewrite map_map. apply map_ext. intros m. symmetry.
      apply rows_of_leading. exact Hk.
    + rewrite Hpo, map_map. apply map_ext. intros m.
      apply rows_of_leading. exact Hk.
Qed.

(** Every batch of a loop over [num] batches lies within the reachable
    rows. *)
Lemma batch_of_leading (d d' : dataset A) (batch_size num : Z) (b : nat) :
  (0 < batch_size)%Z ->
  In b (range num) ->
  window d 0 (Z.to_nat (num + batch_size - 1))
  = window d' 0 (Z.to_nat (num + batch_size - 1)) ->
  batch_of d b batch_size = batch_of d' b batch_size.
Proof.
  intros Hpos Hb Hw. unfold range in Hb. apply in_seq in Hb.
  rewrite !batch_of_window by lia.
  eapply window_of_leading; [|exact Hw]. lia.
Qed.

(** X16: the batches slide by one row, so only the first
    [int(N/batch_size) + batch_size - 1] rows of a data set are ever read:
    changing any later row of the training or of the validation data
    changes nothing of what [train_validate] returns. *)
Theorem unread_rows_are_ignored
        (model : nn_module A Grad) (train train' valid valid' : dataset A)
        (n_epochs : nat) (batch_size : Z) (learning_rate : A) :
  (0 < batch_size)%Z ->
  same_leading_rows train train'
    (reachable_rows (length (q_input train)) batch_size) ->
  same_leading_rows valid valid'
    (reachable_rows (length (q_input valid)) batch_size) ->
  train_validate Adam backward Adam_step model train valid n_epochs
                 batch_size learning_rate
  = train_validate Adam backward Adam_step model train' valid' n_epochs
                   batch_size learning_rate.
Proof.
  intros Hpos [Lt Wt] [Lv Wv]. unfold train_validate, reachable_rows in *.
  rewrite <- Lt, <- Lv.
  assert (Htime : length (q_output train) = length (q_output train')).
  { unfold window in Wt. injection Wt as _ _ _ Hqo _.
    apply (f_equal (@length _)) in Hqo. rewrite !length_map in Hqo.
    exact Hqo. }
  rewrite <- Htime.
  unfold num_batches in *.
  destruct (Z.eqb_spec batch_size 0) as [E|E]; [lia|]. cbn [bind].
  set (nt := Z.quot (Z.of_nat (length (q_input train))) batch_size) in *.
  set (nv := Z.quot (Z.of_nat (length (q_input valid))) batch_size) in *.
  f_equal. (* the epochs *)
  apply foldM_ext_in. intros it [[[m opt] tl] vl] _. unfold epoch.
  assert (Ht : forall (m0 : nn_module A Grad) (opt0 : OptState),
             train_loop backward Adam_step train (length (q_output train))
                        batch_size nt m0 opt0
             = train_loop backward Adam_step train'
                          (length (q_output train)) batch_size nt m0 opt0).
  { intros m0 opt0. unfold train_loop. apply foldM_ext_in.
    intros b [[m1 o1] l1] Hb. rewrite !train_batch_eq.
    rewrite (@batch_of_leading train train' batch_size nt b Hpos Hb Wt). reflexivity. }
  assert (Hv : forall (m0 : nn_module A Grad) (opt0 : OptState),
             valid_loop valid (length (q_output train)) batch_size nv m0
                        opt0
             = valid_loop valid' (length (q_output train)) batch_size nv m0
                          opt0).
  { intros m0 opt0. unfold valid_loop. apply foldM_ext_in.
    intros b [[m1 o1] l1] Hb. rewrite !valid_batch_eq.
    rewrite (@batch_of_leading valid valid' batch_size nv b Hpos Hb Wv). reflexivity. }
  rewrite Ht.
  destruct (train_loop _ _ _ _ _ _ _ _) as [[[m1 o1] l1]|e]; cbn [bind];
    [|reflexivity].
  destruct (truediv l1 nt) as [tloss|e]; cbn [bind]; [|reflexivity].
  rewrite Hv. reflexivity.
Qed.

End UnreadRows.

(** ** Tracked and untracked inputs *)

Ltac step_call E :=
  rewrite E; cbn [Tracked.values Tracked.requires_grad];
  match goal with
  | |- context [bind ?c _] =>
      match c with
      | adaptable_sympRNN.call_K_net _ _ _ _ => destruct c as [[? ?]|?]
      | adaptable_sympRNN.call_V_net _ _ _ _ => destruct c as [[? ?]|?]
      | adaptable_sympRNN.call_HNN_net _ _ _ _ _ => destruct c as [[[? ?] ?]|?]
      end
  end;
  cbn [bind fst snd Tracked.values Tracked.requires_grad orb andb];
  [|reflexivity].

Ltac step_add :=
  unfold Tracked.axpy at 1;
  cbn [Tracked.values Tracked.requires_grad];
  match goal with
  | |- context [bind (madd ?a ?b) _] => destruct (madd a b) as [?|?]
  end;
  cbn [bind fst snd Tracked.values Tracked.requires_grad orb andb];
  [|reflexivity].

Section TrackedFacts.
Context {A : Type} {SA : Scalar A}.
Import adaptable_sympRNN.

(** An estimator call on a tensor with its flag is the call on its values
    followed by the check of [torch.autograd.grad]. *)
Lemma partial_HNN_forward_eq (net : adaptable_partial_HNN.t A)
      (qp : Tracked.tensor A) (params : option (mat A)) (training : bool) :
  Tracked.partial_HNN_forward net qp params training
  = (r <- adaptable_partial_HNN.forward net (Tracked.values qp) params
            training ;;
     if Tracked.requires_grad qp
     then Ok (fst r, Tracked.Build_tensor (snd r) training)
     else Raise RuntimeError).
Proof.
  unfold Tracked.partial_HNN_forward, adaptable_partial_HNN.forward,
    Tracked.autograd_grad.
  destruct (adaptable_partial_HNN.potential net).
  - destruct (adaptable_HNN.tensor_arg params) as [ps|e]; cbn [bind];
      [|reflexivity].
    destruct (cat_dim1 _ ps) as [input|e]; cbn [bind]; [|reflexivity].
    destruct (sequential_call _ (leaf input)) as [so|e]; cbn [bind];
      [|reflexivity].
    destruct (sequential_call _ so) as [V|e]; cbn [bind]; [|reflexivity].
    destruct training, (Tracked.requires_grad qp); reflexivity.
  - destruct (sequential_call _ (leaf _)) as [so|e]; cbn [bind];
      [|reflexivity].
    destruct (sequential_call _ so) as [K|e]; cbn [bind]; [|reflexivity].
    destruct training, (Tracked.requires_grad qp); reflexivity.
Qed.

Lemma HNN_forward_eq (net : adaptable_HNN.t A) (q p : Tracked.tensor A)
      (params : option (mat A)) (training : bool) :
  Tracked.HNN_forward net q p params training
  = (r <- adaptable_HNN.forward net (Tracked.values q) (Tracked.values p)
            params training ;;
     if Tracked.requires_grad q && Tracked.requires_grad p
     then Ok (fst (fst r), Tracked.Build_tensor (snd (fst r)) training, Tracked.Build_tensor (snd r) training)
     else Raise RuntimeError).
Proof.
  unfold Tracked.HNN_forward, adaptable_HNN.forward, Tracked.autograd_grad.
  destruct (adaptable_HNN.tensor_arg params) as [ps|e]; cbn [bind];
    [|reflexivity].
  destruct (cat_dim1 _ _) as [qp|e]; cbn [bind]; [|reflexivity].
  destruct (cat_dim1 qp ps) as [input|e]; cbn [bind]; [|reflexivity].
  destruct (sequential_call _ (leaf input)) as [so|e]; cbn [bind];
    [|reflexivity].
  destruct (sequential_call _ so) as [H|e]; cbn [bind]; [|reflexivity].
  destruct training,
    (Tracked.requires_grad q && Tracked.requires_grad p); reflexivity.
Qed.

Lemma call_K_net_eq (self : t A) (p : Tracked.tensor A)
      (params : option (mat A)) (training : bool) :
  Tracked.call_K_net self p params training
  = (r <- call_K_net self (Tracked.values p) params training ;;
     if Tracked.requires_grad p
     then Ok (fst r, Tracked.Build_tensor (snd r) training)
     else Raise RuntimeError).
Proof.
  unfold Tracked.call_K_net, call_K_net.
  destruct (K_net self) as [net|e]; cbn [bind]; [|reflexivity].
  apply partial_HNN_forward_eq.
Qed.

Lemma call_V_net_eq (self : t A) (q : Tracked.tensor A)
      (params : option (mat A)) (training : bool) :
  Tracked.call_V_net self q params training
  = (r <- call_V_net self (Tracked.values q) params training ;;
     if Tracked.requires_grad q
     then Ok (fst r, Tracked.Build_tensor (snd r) training)
     else Raise RuntimeError).
Proof.
  unfold Tracked.call_V_net, call_V_net.
  destruct (V_net self) as [net|e]; cbn [bind]; [|reflexivity].
  apply partial_HNN_forward_eq.
Qed.

Lemma call_HNN_net_eq (self : t A) (q p : Tracked.tensor A)
      (params : option (mat A)) (training : bool) :
  Tracked.call_HNN_net self q p params training
  = (r <- call_HNN_net self (Tracked.values q) (Tracked.values p) params
            training ;;
     if Tracked.requires_grad q && Tracked.requires_grad p
     then Ok (fst (fst r), Tracked.Build_tensor (snd (fst r)) training, Tracked.Build_tensor (snd r) training)
     else Raise RuntimeError).
Proof.
  unfold Tracked.call_HNN_net, call_HNN_net.
  destruct (HNN self) as [net|e]; cbn [bind]; [|reflexivity].
  apply HNN_forward_eq.
Qed.

(** The separable step on a tracked momentum, and a position that is
    tracked unless the step runs in training mode. *)
Lemma step_lifts (self : t A) (q p : Tracked.tensor A)
      (params : option (mat A)) (training : bool) :
  Tracked.requires_grad p = true ->
  Tracked.requires_grad q || training = true ->
  lifts (step self) (Tracked.step self) q p params training.
Proof.
  destruct q as [q rq], p as [p rp]. cbn [Tracked.requires_grad].
  intros -> Hq. unfold lifts, Tracked.step, step.
  cbn [Tracked.values Tracked.requires_grad].
  destruct training.
  - step_call call_K_net_eq. step_add.
    rewrite orb_true_r.
    step_call call_V_net_eq. step_add.
    step_call call_K_net_eq. step_add.
    step_call call_V_net_eq.
    match goal with
    | |- context [bind (madd ?a ?b) _] => destruct (madd a b) as [?|?]
    end; reflexivity.
  - rewrite orb_false_r in Hq. subst rq.
    step_call call_K_net_eq. step_add.
    step_call call_V_net_eq. step_add.
    step_call call_K_net_eq. step_add.
    step_call call_V_net_eq.
    match goal with
    | |- context [bind (madd ?a ?b) _] => destruct (madd a b) as [?|?]
    end; reflexivity.
Qed.

(** The non-separable step on a tracked position and momentum. *)
Lemma step2_lifts (self : t A) (q p : Tracked.tensor A)
      (params : option (mat A)) (training : bool) :
  Tracked.requires_grad q && Tracked.requires_grad p = true ->
  lifts (step2 self) (Tracked.step2 self) q p params training.
Proof.
  destruct q as [q rq], p as [p rp]. cbn [Tracked.requires_grad].
  intros Hqp. apply andb_true_iff in Hqp as [-> ->].
  unfold lifts, Tracked.step2, step2.
  cbn [Tracked.values Tracked.requires_grad].
  destruct training.
  - step_call call_HNN_net_eq. step_add.
    step_call call_HNN_net_eq. step_add.
    step_call call_HNN_net_eq. step_add. reflexivity.
  - step_call call_HNN_net_eq. step_add.
    step_call call_HNN_net_eq. step_add.
    step_call call_HNN_net_eq. step_add. reflexivity.
Qed.


(** One iteration of the loop of [forward] on buffers that are tracked well
    enough for the cell. *)
Lemma rollout_body_lifts (c : cell A) (c' : Tracked.cell A)
      (params : option (mat A)) (training : bool)
      (ok : bool -> bool -> bool) (H q p : tensor3 A) (rq rp : bool)
      (k : nat) :
  (forall q p,
      ok (Tracked.requires_grad q) (Tracked.requires_grad p) = true ->
      lifts c c' q p params training) ->
  ok rq rp = true ->
  Tracked.rollout_body c' params training (H, (q, rq), (p, rp)) k
  = (r <- rollout_body c params training (H, q, p) k ;;
     Ok (fst (fst r), (snd (fst r), true), (snd r, true))).
Proof.
  intros Hc Hrr. unfold rollout_body, Tracked.rollout_body.
  destruct (getitem q k) as [q_t|e]; cbn [bind]; [|reflexivity].
  destruct (getitem p k) as [p_t|e]; cbn [bind]; [|reflexivity].
  rewrite (Hc (Tracked.Build_tensor q_t rq) (Tracked.Build_tensor p_t rp)
              Hrr).
  cbn [Tracked.values].
  destruct (c q_t p_t params training) as [[[H_t qn] pn]|e];
    cbn [bind fst snd Tracked.values Tracked.requires_grad];
    [|reflexivity].
  destruct (setitem H k H_t) as [H'|e]; cbn [bind]; [|reflexivity].
  destruct (setitem q (k + 1) qn) as [q'|e]; cbn [bind]; [|reflexivity].
  destruct (setitem p (k + 1) pn) as [p'|e]; cbn [bind]; [|reflexivity].
  rewrite !orb_true_r. reflexivity.
Qed.

(** The loop: it raises what the loop on values raises, or ends with the
    same buffers. *)
Lemma rollout_loop_lifts (c : cell A) (c' : Tracked.cell A)
      (params : option (mat A)) (training : bool)
      (ok : bool -> bool -> bool) :
  ok true true = true ->
  (forall q p,
      ok (Tracked.requires_grad q) (Tracked.requires_grad p) = true ->
      lifts c c' q p params training) ->
  forall (xs : list nat) (H q p : tensor3 A) (rq rp : bool),
    ok rq rp = true ->
    match foldM (rollout_body c params training) xs (H, q, p) with
    | Ok (H', q', p') =>
        exists rq' rp',
          foldM (Tracked.rollout_body c' params training) xs
                (H, (q, rq), (p, rp)) = Ok (H', (q', rq'), (p', rp'))
    | Raise e =>
        foldM (Tracked.rollout_body c' params training) xs
              (H, (q, rq), (p, rp)) = Raise e
    end.
Proof.
  intros Hok Hc. induction xs as [|k xs IH]; intros H q p rq rp Hrr;
    cbn [foldM].
  - eauto.
  - rewrite (@rollout_body_lifts c c' params training ok H q p rq rp k Hc Hrr).
    destruct (rollout_body c params training (H, q, p) k)
      as [[[H' q'] p']|e]; cbn [bind fst snd]; [|reflexivity].
    apply IH. exact Hok.
Qed.

Lemma rollout_lifts (c : cell A) (c' : Tracked.cell A)
      (q_initial p_initial : Tracked.tensor A) (params : option (mat A))
      (final : nat) (training : bool) (ok : bool -> bool -> bool) :
  ok true true = true ->
  (forall q p,
      ok (Tracked.requires_grad q) (Tracked.requires_grad p) = true ->
      lifts c c' q p params training) ->
  ok (Tracked.requires_grad q_initial) (Tracked.requires_grad p_initial)
  = true ->
  Tracked.rollout c' q_initial p_initial params final training
  = rollout c (Tracked.values q_initial) (Tracked.values p_initial) params
            final training.
Proof.
  intros Hok Hc H0.
  unfold Tracked.rollout, rollout, rollout_buffers, Tracked.rollout_init,
    rollout_init.
  destruct (setitem _ 0 (Tracked.values q_initial)) as [q|e]; cbn [bind];
    [|reflexivity].
  destruct (setitem _ 0 (Tracked.values p_initial)) as [p|e]; cbn [bind];
    [|reflexivity].
  pose proof (@rollout_loop_lifts c c' params training ok Hok Hc
                (seq 0 final)
                (zeros3 final (length (Tracked.values q_initial)) 1) q p
                _ _ H0) as Hl.
  destruct (foldM (rollout_body c params training) _ _)
    as [[[H' q'] p']|e].
  - destruct Hl as (rq' & rp' & ->). reflexivity.
  - rewrite Hl. reflexivity.
Qed.

(** A cell that raises on the initial condition makes every rollout of at
    least one step raise the same exception. *)
Lemma tracked_rollout_first_raise (c' : Tracked.cell A)
      (q_initial p_initial : Tracked.tensor A) (params : option (mat A))
      (training : bool) (final batch d : nat) (e : exn) :
  has_shape (Tracked.values q_initial) batch d ->
  has_shape (Tracked.values p_initial) batch d ->
  1 <= final ->
  c' q_initial p_initial params training = Raise e ->
  Tracked.rollout c' q_initial p_initial params final training = Raise e.
Proof.
  intros Hq Hp Hfinal Hc. destruct q_initial as [q0 rq], p_initial as [p0 rp].
  cbn [Tracked.values] in *.
  unfold Tracked.rollout, Tracked.rollout_init. cbn [Tracked.values
    Tracked.requires_grad].
  assert (Fz : Forall (fun m : mat A => has_shape m batch d)
                 (zeros3 (final + 1) (length q0) (length (hd [] q0)))).
  { unfold zeros3. apply Forall_forall. intros m Hm.
    apply repeat_spec in Hm. subst. apply has_shape_zeros2_like.
    assumption. }
  assert (Lz : 0 < length (zeros3 (A:=A) (final + 1) (length q0)
                                  (length (hd [] q0))))
    by (unfold zeros3; rewrite repeat_length; lia).
  destruct (setitem_total Lz Fz Hq) as (q & Eq & _).
  destruct (setitem_total Lz Fz Hp) as (p & Ep & _).
  rewrite Eq, Ep. cbn [bind].
  apply setitem_Ok in Eq as [-> _]. apply setitem_Ok in Ep as [-> _].
  destruct final as [|n]; [lia|]. cbn [seq foldM Tracked.rollout_body].
  unfold getitem. rewrite !nth_error_list_set_eq by assumption.
  cbn [bind]. rewrite Hc. reflexivity.
Qed.

End TrackedFacts.

Section TrackedTheorems.
Context {A : Type} {SA : Scalar A}.
Import adaptable_sympRNN.

(** The flags with which the separable cell, and those with which the
    non-separable cell, reaches no untracked differentiation. *)
Lemma forward_lifts_separable (self : t A)
      (q_initial p_initial : Tracked.tensor A) (params : option (mat A))
      (final : nat) (training : bool) :
  separable self = true ->
  Tracked.requires_grad p_initial = true ->
  Tracked.requires_grad q_initial || training = true ->
  Tracked.forward self q_initial p_initial params final training
  = forward self (Tracked.values q_initial) (Tracked.values p_initial)
            params final training.
Proof.
  intros Hsep Hp Hq. unfold Tracked.forward, forward.
  apply rollout_lifts with (ok := fun rq rp => rp && (rq || training)).
  - destruct training; reflexivity.
  - intros q p Hok. apply andb_true_iff in Hok as [Hrp Hrq].
    unfold lifts, Tracked.select_step, select_step. rewrite Hsep.
    apply step_lifts; assumption.
  - rewrite Hp, Hq. reflexivity.
Qed.

Lemma forward_lifts_nonseparable (self : t A)
      (q_initial p_initial : Tracked.tensor A) (params : option (mat A))
      (final : nat) (training : bool) :
  separable self = false ->
  Tracked.requires_grad q_initial && Tracked.requires_grad p_initial = true ->
  Tracked.forward self q_initial p_initial params final training
  = forward self (Tracked.values q_initial) (Tracked.values p_initial)
            params final training.
Proof.
  intros Hsep Hqp. unfold Tracked.forward, forward.
  apply rollout_lifts with (ok := andb).
  - reflexivity.
  - intros q p Hok.
    unfold lifts, Tracked.select_step, select_step. rewrite Hsep.
    apply step2_lifts; assumption.
  - exact Hqp.
Qed.

(** X1: on a well-formed separable model, parameters of shape (batch, np)
    and an initial condition of shape (batch, d) whose momentum requires
    grad and whose position requires grad unless the call is in training
    mode, [forward] returns for every horizon T, with T energies, T positions
    and T momenta; what it returns is what the functions on values
    compute. *)
Theorem forward_total (self : t A) (q_initial p_initial : Tracked.tensor A)
        (params : mat A) (final : nat) (training : bool)
        (batch d np : nat) :
  wf_separable self d np ->
  has_shape (Tracked.values q_initial) batch d ->
  has_shape (Tracked.values p_initial) batch d ->
  has_shape params batch np ->
  Tracked.requires_grad p_initial = true ->
  Tracked.requires_grad q_initial || training = true ->
  exists H qs ps,
    Tracked.forward self q_initial p_initial (Some params) final training
    = Ok (H, qs, ps) /\
    forward self (Tracked.values q_initial) (Tracked.values p_initial)
            (Some params) final training = Ok (H, qs, ps) /\
    length H = final /\ length qs = final /\ length ps = final.
Proof.
  intros Hwf Hq Hp Hps Hrp Hrq.
  assert (Hsep : separable self = true).
  { destruct Hwf as (K & V & Hn & _). unfold separable. rewrite Hn.
    reflexivity. }
  destruct (separable_values_total final training Hwf Hq Hp Hps)
    as (H & qs & ps & Hf & LH & Lq & Lp).
  exists H, qs, ps. rewrite forward_lifts_separable by assumption.
  repeat split; assumption.
Qed.

(** X6: on a well-formed non-separable model, parameters of shape
    (batch, np) and an initial condition of shape (batch, d) whose position
    and momentum both require grad, [forward] returns for every horizon T,
    with T energies, T positions and T momenta. *)
Theorem forward_total_nonseparable (self : t A)
        (q_initial p_initial : Tracked.tensor A) (params : mat A)
        (final : nat) (training : bool) (batch d np : nat) :
  wf_nonseparable self d np ->
  has_shape (Tracked.values q_initial) batch d ->
  has_shape (Tracked.values p_initial) batch d ->
  has_shape params batch np ->
  Tracked.requires_grad q_initial = true ->
  Tracked.requires_grad p_initial = true ->
  exists H qs ps,
    Tracked.forward self q_initial p_initial (Some params) final training
    = Ok (H, qs, ps) /\
    forward self (Tracked.values q_initial) (Tracked.values p_initial)
            (Some params) final training = Ok (H, qs, ps) /\
    length H = final /\ length qs = final /\ length ps = final.
Proof.
  intros Hwf Hq Hp Hps Hrq Hrp.
  assert (Hsep : separable self = false).
  { destruct Hwf as (net & Hn & _). unfold separable. rewrite Hn.
    reflexivity. }
  destruct (nonseparable_values_total final training Hwf Hq Hp Hps)
    as (H & qs & ps & Hf & LH & Lq & Lp).
  exists H, qs, ps.
  rewrite forward_lifts_nonseparable
    by (try assumption; rewrite Hrq, Hrp; reflexivity).
  repeat split; assumption.
Qed.

(** The first estimator call of each cell on well-shaped values. *)
Lemma first_K_call (self : t A) (K V : adaptable_partial_HNN.t A)
      (p : mat A) (params : option (mat A)) (training : bool)
      (batch d : nat) :
  nets self = Separable K V -> wf_kinetic K d -> has_shape p batch d ->
  exists K1 dK,
    call_K_net self p params training = Ok (K1, dK) /\ has_shape dK batch d.
Proof.
  intros Hnets HK Hp. unfold call_K_net, K_net. rewrite Hnets. cbn [bind].
  destruct (kinetic_forward_shape params training HK Hp)
    as (K1 & dK & -> & _ & HdK). eauto.
Qed.

(** X7: the parameter tensor is mandatory for a rollout.  With [params]
    absent ([None]) and at least one step, [forward] raises [TypeError]: in a
    well-formed separable model called with a momentum that requires grad
    the kinetic call succeeds and the first potential call raises at
    [torch.cat((qp, params))]; in a non-separable model the first estimator
    call raises there, before any differentiation. *)
Theorem forward_without_params_raises (self : t A)
        (q_initial p_initial : Tracked.tensor A) (final : nat)
        (training : bool) (batch d : nat) :
  has_shape (Tracked.values q_initial) batch d ->
  has_shape (Tracked.values p_initial) batch d ->
  1 <= final ->
  (forall np, wf_separable self d np ->
     Tracked.requires_grad p_initial = true ->
     Tracked.forward self q_initial p_initial None final training
     = Raise TypeError)
  /\
  (separable self = false ->
     Tracked.forward self q_initial p_initial None final training
     = Raise TypeError).
Proof.
  intros Hq Hp Hfinal. split.
  - intros np (K & V & Hnets & HK & HV) Hrp.
    unfold Tracked.forward.
    eapply tracked_rollout_first_raise; try eassumption.
    unfold Tracked.select_step, separable. rewrite Hnets.
    assert (HVc : forall x tr, call_V_net self x None tr = Raise TypeError).
    { intros x tr. unfold call_V_net, V_net. rewrite Hnets. cbn [bind].
      unfold adaptable_partial_HNN.forward.
      destruct HV as [-> _]. reflexivity. }
    unfold Tracked.step.
    destruct training;
      rewrite call_K_net_eq, Hrp;
      match goal with
      | |- context [call_K_net self _ None ?tr] =>
          destruct (@first_K_call self K V (Tracked.values p_initial) None
                      tr batch d Hnets HK Hp) as (K1 & dK & -> & HdK)
      end;
      cbn [bind fst snd]; unfold Tracked.axpy at 1;
      cbn [Tracked.values Tracked.requires_grad];
      (destruct (madd_shape Hq
                   (has_shape_mscale (s_div (dt self) two) HdK))
        as (q_half & -> & _));
      cbn [bind]; rewrite call_V_net_eq; cbn [Tracked.values];
      rewrite HVc; reflexivity.
  - intros Hsep. unfold Tracked.forward.
    eapply tracked_rollout_first_raise; try eassumption.
    unfold Tracked.select_step. rewrite Hsep.
    unfold separable in Hsep.
    destruct (nets self) as [K V|net] eqn:Hnets; [discriminate|].
    unfold Tracked.step2, Tracked.call_HNN_net, HNN. rewrite Hnets.
    destruct training; reflexivity.
Qed.

(** X17: [forward] needs tracked inputs.  With at least one step and
    well-shaped inputs, a separable model raises [RuntimeError] when the
    momentum does not require grad, and also when the position does not
    and the call is not in training mode; a non-separable model raises it
    when either the position or the momentum does not require grad.  The
    error comes from [torch.autograd.grad], after the layers have run. *)
Theorem forward_untracked_raises (self : t A)
        (q_initial p_initial : Tracked.tensor A) (params : mat A)
        (final : nat) (training : bool) (batch d np : nat) :
  has_shape (Tracked.values q_initial) batch d ->
  has_shape (Tracked.values p_initial) batch d ->
  has_shape params batch np ->
  1 <= final ->
  (wf_separable self d np ->
   Tracked.requires_grad p_initial = false \/
   (Tracked.requires_grad q_initial = false /\ training = false) ->
   Tracked.forward self q_initial p_initial (Some params) final training
   = Raise RuntimeError)
  /\
  (wf_nonseparable self d np ->
   Tracked.requires_grad q_initial && Tracked.requires_grad p_initial
   = false ->
   Tracked.forward self q_initial p_initial (Some params) final training
   = Raise RuntimeError).
Proof.
  intros Hq Hp Hps Hfinal. split.
  - intros (K & V & Hnets & HK & HV) Hflags.
    unfold Tracked.forward.
    eapply tracked_rollout_first_raise; try eassumption.
    unfold Tracked.select_step, separable. rewrite Hnets.
    unfold Tracked.step.
    destruct (Tracked.requires_grad p_initial) eqn:Hrp.
    + destruct Hflags as [Hf|[Hrq ->]]; [discriminate|].
      rewrite call_K_net_eq, Hrp.
      destruct (@first_K_call self K V (Tracked.values p_initial)
                  (Some params) false batch d Hnets HK Hp)
        as (K1 & dK & -> & HdK).
      cbn [bind fst snd]. unfold Tracked.axpy at 1.
      cbn [Tracked.values Tracked.requires_grad].
      destruct (madd_shape Hq (has_shape_mscale (s_div (dt self) two) HdK))
        as (q_half & -> & Hqh).
      cbn [bind]. rewrite call_V_net_eq, Hrq.
      cbn [Tracked.values Tracked.requires_grad orb].
      unfold call_V_net, V_net. rewrite Hnets. cbn [bind].
      destruct (potential_forward_shape false HV Hqh Hps)
        as (V1 & F & -> & _). reflexivity.
    + destruct training;
        rewrite call_K_net_eq, Hrp;
        match goal with
        | |- context [call_K_net self _ (Some params) ?tr] =>
            destruct (@first_K_call self K V (Tracked.values p_initial)
                        (Some params) tr batch d Hnets HK Hp)
              as (K1 & dK & -> & HdK)
        end; reflexivity.
  - intros (net & Hnets & Hnet) Hflags.
    unfold Tracked.forward.
    eapply tracked_rollout_first_raise; try eassumption.
    unfold Tracked.select_step, separable. rewrite Hnets.
    unfold Tracked.step2.
    destruct training;
      rewrite call_HNN_net_eq, Hflags;
      unfold call_HNN_net, HNN; rewrite Hnets; cbn [bind];
      match goal with
      | |- context [adaptable_HNN.forward net _ _ _ ?tr] =>
          destruct (full_forward_shape tr Hnet Hq Hp Hps)
            as (H1 & F & G & -> & _)
      end; reflexivity.
Qed.

End TrackedTheorems.

(** ** Runs of the concrete model *)

(** Evaluate the model, leaving the real-number operations symbolic. *)
Ltac run_real :=
  cbv -[Rplus Rmult Rminus Rdiv Ropp Rinv tanh IZR]; reflexivity.

Lemma Rtanh_0 : tanh 0 = 0%R.
Proof.
  unfold tanh. rewrite sinh_0. unfold Rdiv. apply Rmult_0_l.
Qed.

Lemma Rtanh_nonzero (x : R) : x <> 0%R -> tanh x <> 0%R.
Proof.
  intros Hx Ht. unfold tanh, Rdiv in Ht.
  apply Rmult_integral in Ht. destruct Ht as [Hs|Hc].
  - unfold sinh in Hs.
    assert (He : exp x = exp (- x)) by lra.
    apply exp_inv in He. lra.
  - assert (Hpos : (cosh x > 0)%R).
    { unfold cosh. pose proof (exp_pos x). pose proof (exp_pos (- x)). lra. }
    exact (Rinv_neq_0_compat (cosh x) ltac:(lra) Hc).
Qed.

Section Runs.
Import adaptable_sympRNN.

Lemma step_three_substeps_witness :
  exists H q_next p_next,
    step Demo.model Demo.q0 Demo.p0 (Some Demo.c0) true
    = Ok (H, q_next, p_next) /\
    exists K qdot q_half V pdot K' qdot',
      call_K_net Demo.model Demo.p0 (Some Demo.c0) true = Ok (K, qdot) /\
      madd Demo.q0 (mscale (s_div (dt Demo.model) two) qdot) = Ok q_half /\
      call_V_net Demo.model q_half (Some Demo.c0) true = Ok (V, pdot) /\
      madd Demo.p0 (mscale (dt Demo.model) pdot) = Ok p_next /\
      call_K_net Demo.model p_next (Some Demo.c0) true = Ok (K', qdot') /\
      madd q_half (mscale (s_div (dt Demo.model) two) qdot') = Ok q_next.
Proof.
  eexists _, _, _. split; [run_real|].
  eapply (step_three_substeps Demo.model Demo.q0 Demo.p0 (Some Demo.c0) true).
  run_real.
Defined.

Lemma step_energy_post_state_witness :
  exists H q_next p_next,
    step Demo.model Demo.q0 Demo.p0 (Some Demo.c0) true
    = Ok (H, q_next, p_next) /\
    exists K qdot V pdot,
      call_K_net Demo.model p_next (Some Demo.c0) true = Ok (K, qdot) /\
      call_V_net Demo.model q_next (Some Demo.c0) true = Ok (V, pdot) /\
      madd K V = Ok H.
Proof.
  eexists _, _, _. split; [run_real|].
  eapply (step_energy_post_state Demo.model Demo.q0 Demo.p0 (Some Demo.c0)
                                true).
  run_real.
Defined.

(** C2 as stated fails.  From q = 0, p = 0 with dt = 2: K(p) = tanh 0 = 0,
    qdot = 1, q_half = 1, pdot = -1, p_next = -2; the returned energy is
    tanh(-2) + V(q_next), not K(p) + V(q_next) = 0 + V(q_next). *)
Lemma step_energy_is_not_initial_kinetic :
  exists H q_next p_next K qdot V pdot,
    step Demo.model Demo.q0 Demo.p0 (Some Demo.c0) true
    = Ok (H, q_next, p_next) /\
    call_K_net Demo.model Demo.p0 (Some Demo.c0) true = Ok (K, qdot) /\
    call_V_net Demo.model q_next (Some Demo.c0) true = Ok (V, pdot) /\
    madd K V <> Ok H.
Proof.
  eexists _, _, _, _, _, _, _.
  split; [run_real|]. split; [run_real|]. split; [run_real|].
  cbv -[Rplus Rmult Rminus Rdiv Ropp Rinv tanh IZR].
  intros Heq. inversion Heq as [Hr]. clear Heq.
  apply Rplus_eq_reg_r in Hr.
  repeat rewrite ?Rmult_1_r, ?Rmult_1_l, ?Rplus_0_r, ?Rplus_0_l,
    ?Rmult_0_l, ?Rmult_0_r, ?Rtanh_0, ?Rminus_0_r in Hr.
  replace (2 / 2 + -1)%R with 0%R in Hr by lra.
  rewrite Rtanh_0 in Hr.
  symmetry in Hr. revert Hr. apply Rtanh_nonzero. lra.
Qed.

Lemma step2_energy_pre_state_witness :
  (exists H q_next p_next,
      step2 Demo.model2 Demo.q0 Demo.p0 (Some Demo.c0) true
      = Ok (H, q_next, p_next) /\
      exists pdot qdot,
        call_HNN_net Demo.model2 Demo.q0 Demo.p0 (Some Demo.c0) true
        = Ok (H, pdot, qdot)) /\
  (exists H q_next p_next,
      step Demo.model Demo.q0 Demo.p0 (Some Demo.c0) true
      = Ok (H, q_next, p_next) /\
      exists K qdot V pdot,
        call_K_net Demo.model p_next (Some Demo.c0) true = Ok (K, qdot) /\
        call_V_net Demo.model q_next (Some Demo.c0) true = Ok (V, pdot) /\
        madd K V = Ok H).
Proof.
  split; eexists _, _, _; (split; [run_real|]).
  - eapply (proj1 (step2_energy_pre_state Demo.model2 Demo.q0 Demo.p0
                                          (Some Demo.c0) true)).
    run_real.
  - eapply (proj2 (step2_energy_pre_state Demo.model Demo.q0 Demo.p0
                                          (Some Demo.c0) true)).
    run_real.
Defined.

Lemma kinetic_forward_ignores_params_witness :
  adaptable_partial_HNN.potential Demo.K_net = false /\
  adaptable_partial_HNN.forward Demo.K_net Demo.p0 None true =
  adaptable_partial_HNN.forward Demo.K_net Demo.p0 (Some Demo.c0) true /\
  (forall (self : t R) (V : adaptable_partial_HNN.t R),
      nets self = Separable Demo.K_net V ->
      call_K self Demo.p0 =
      adaptable_partial_HNN.forward Demo.K_net Demo.p0 None false).
Proof.
  split; [reflexivity|].
  apply (kinetic_forward_ignores_params Demo.K_net Demo.p0 None
                                        (Some Demo.c0) true).
  reflexivity.
Defined.

Lemma forward_trajectory_invariant_witness :
  exists H qs ps,
    forward Demo.model Demo.q0 Demo.p0 (Some Demo.c0) 2 true
    = Ok (H, qs, ps) /\
    exists q p,
      rollout_buffers (select_step Demo.model) Demo.q0 Demo.p0
                      (Some Demo.c0) 2 true = Ok (H, q, p) /\
      nth_error q 0 = Some Demo.q0 /\
      nth_error p 0 = Some Demo.p0 /\
      (forall t, t < 2 ->
         transition (select_step Demo.model) (Some Demo.c0) true (H, q, p) t)
      /\ qs = tl q /\ ps = tl p.
Proof.
  eexists _, _, _. split; [run_real|].
  eapply (forward_trajectory_invariant Demo.model Demo.q0 Demo.p0
                                       (Some Demo.c0) 2 true).
  run_real.
Defined.

Lemma forward_returns_predictions_witness :
  exists H qs ps,
    forward Demo.model Demo.q0 Demo.p0 (Some Demo.c0) 2 true
    = Ok (H, qs, ps) /\
    1 <= 2 /\
    length qs = 2 /\
    length ps = 2 /\
    exists H_0 q_1 p_1,
      select_step Demo.model Demo.q0 Demo.p0 (Some Demo.c0) true
      = Ok (H_0, q_1, p_1) /\
      nth_error qs 0 = Some q_1 /\
      nth_error ps 0 = Some p_1.
Proof.
  eexists _, _, _. split; [run_real|]. split; [lia|].
  eapply (@forward_returns_predictions _ _ Demo.model Demo.q0 Demo.p0
                                       (Some Demo.c0) 2 true).
  - run_real.
  - lia.
Defined.

Lemma forward_horizon_zero_witness :
  rectangular Demo.q0 /\
  shape2 Demo.p0 = shape2 Demo.q0 /\
  forward Demo.model Demo.q0 Demo.p0 (Some Demo.c0) 0 true = Ok ([], [], []) /\
  forall c : cell R,
    rollout c Demo.q0 Demo.p0 (Some Demo.c0) 0 true = Ok ([], [], []).
Proof.
  split; [reflexivity|]. split; [reflexivity|].
  apply (@forward_horizon_zero _ _ Demo.model Demo.q0 Demo.p0
                               (Some Demo.c0) true); reflexivity.
Defined.

(** Four samples in batches of two: [int(4 / 2) = 2] iterations, fed rows
    0..1 and rows 1..2. *)
Lemma batches_are_sliding_windows_witness :
  num_batches (length (q_input Demo.data4)) 2 = Ok 2%Z /\
  (Z.of_nat 0 < 2)%Z /\
  train_loop Demo.backward Demo.Adam_step Demo.data4 1 2 2 Demo.module0 tt
  = foldM (fun (s : loop_state unit unit) b' =>
             train_on Demo.backward Demo.Adam_step
                      (window Demo.data4 b' (Z.to_nat 2)) 1 s)
          (range 2) (set_mode Demo.module0 true, tt, s_zero) /\
  valid_loop Demo.data4 1 2 2 Demo.module0 tt
  = foldM (fun (s : loop_state unit unit) b' => validate_on (window Demo.data4 b' (Z.to_nat 2)) 1 s)
          (range 2) (set_mode Demo.module0 false, tt, s_zero) /\
  (forall s : loop_state unit unit,
     train_batch Demo.backward Demo.Adam_step Demo.data4 1 2 s 0
     = train_on Demo.backward Demo.Adam_step
                (window Demo.data4 0 (Z.to_nat 2)) 1 s) /\
  (forall s : loop_state unit unit,
     valid_batch Demo.data4 1 2 s 0
     = validate_on (window Demo.data4 0 (Z.to_nat 2)) 1 s) /\
  sliding_window Demo.data4 2 0 (Z.to_nat 2).
Proof.
  split; [reflexivity|]. split; [lia|].
  exact (@batches_are_sliding_windows _ _ _ _ Demo.backward Demo.Adam_step
           Demo.data4 1 2 2 Demo.module0 tt 0 eq_refl ltac:(lia)).
Defined.

Lemma validation_keeps_weights_witness :
  exists m' opt' l',
    valid_loop Demo.data4 1 2 2 Demo.module0 tt = Ok (m', opt', l') /\
    weights m' = weights Demo.module0 /\ opt' = tt.
Proof.
  eexists _, _, _. split; [run_real|].
  eapply (proj1 (proj2 (validation_keeps_weights Demo.backward Demo.Adam_step
                          Demo.data4 Demo.data4 1 2 2 2))).
  run_real.
Defined.

Lemma zero_batches_raise_witness :
  1 <= 1 /\
  num_batches (length (q_input Demo.data)) 2 = Ok 0%Z /\
  train_validate Demo.Adam Demo.backward Demo.Adam_step Demo.module0
                 Demo.data Demo.data4 1 2 (1 / 1000)%R
  = Raise ZeroDivisionError.
Proof.
  split; [lia|]. split; [reflexivity|].
  apply (proj1 (@zero_batches_raise _ _ _ _ Demo.Adam Demo.backward
                  Demo.Adam_step Demo.module0 Demo.data Demo.data4 1 2
                  (1 / 1000)%R (le_n 1))).
  reflexivity.
Defined.

(** C6 as stated fails.  One training sample with [batch_size = 2] gives
    [num_train = int(1 / 2) = 0], and [train_validate] raises at
    [train_batch_loss /= num_train]; with four training samples and one
    validation sample it raises at [valid_batch_loss /= num_valid], after the
    two training batches.  Neither call returns loss arrays. *)
Lemma zero_batches_do_raise :
  (num_batches (length (q_input Demo.data)) 2 = Ok 0%Z /\
   train_validate Demo.Adam Demo.backward Demo.Adam_step Demo.module0
                  Demo.data Demo.data4 1 2 (1 / 1000)%R
   = Raise ZeroDivisionError) /\
  (num_batches (length (q_input Demo.data4)) 2 = Ok 2%Z /\
   num_batches (length (q_input Demo.data)) 2 = Ok 0%Z /\
   train_validate Demo.Adam Demo.backward Demo.Adam_step Demo.module0
                  Demo.data4 Demo.data 1 2 (1 / 1000)%R
   = Raise ZeroDivisionError).
Proof.
  repeat split; run_real.
Qed.

Lemma Demo_model_wf : wf_separable Demo.model 1 1.
Proof.
  exists Demo.K_net, Demo.V_net. split; [reflexivity|].
  split; (split; [reflexivity|]); exists 1; simpl;
    unfold wf_Linear; simpl; repeat split; repeat constructor.
Qed.

Lemma forward_total_witness :
  wf_separable Demo.model 1 1 /\
  has_shape (Tracked.values Demo.q0_grad) 1 1 /\
  has_shape (Tracked.values Demo.p0_grad) 1 1 /\
  has_shape Demo.c0 1 1 /\
  Tracked.requires_grad Demo.p0_grad = true /\
  Tracked.requires_grad Demo.q0_grad || false = true /\
  exists H qs ps,
    Tracked.forward Demo.model Demo.q0_grad Demo.p0_grad (Some Demo.c0) 3
                    false = Ok (H, qs, ps) /\
    forward Demo.model (Tracked.values Demo.q0_grad)
            (Tracked.values Demo.p0_grad) (Some Demo.c0) 3 false
    = Ok (H, qs, ps) /\
    length H = 3 /\ length qs = 3 /\ length ps = 3.
Proof.
  assert (Hs : has_shape (A:=R) [[0%R]] 1 1)
    by (split; [reflexivity|repeat constructor]).
  split; [exact Demo_model_wf|]. repeat (split; [exact Hs|]).
  split; [reflexivity|]. split; [reflexivity|].
  exact (@forward_total _ _ Demo.model Demo.q0_grad Demo.p0_grad Demo.c0 3
           false 1 1 1 Demo_model_wf Hs Hs Hs eq_refl eq_refl).
Defined.

Lemma Demo_new_Linear_contract : Linear_contract Demo.new_Linear.
Proof.
  intros n m g. unfold Demo.new_Linear, wf_Linear. cbn [fst in_features
    out_features weight bias].
  rewrite !repeat_length. repeat split.
  apply Forall_forall. intros w Hw. apply repeat_spec in Hw. subst.
  apply repeat_length.
Qed.

Lemma Demo_model2_wf : wf_nonseparable Demo.model2 1 1.
Proof.
  exists Demo.HNN. split; [reflexivity|]. exists 1. simpl.
  unfold wf_Linear; simpl; repeat split; repeat constructor.
Qed.

Lemma train_validate_records_every_epoch_witness :
  exists m' training_loss validation_loss,
    train_validate Demo.Adam Demo.backward Demo.Adam_step Demo.module0
                   Demo.data4 Demo.data4 2 2 (1 / 1000)%R
    = Ok (m', (training_loss, validation_loss)) /\
    length training_loss = 2 /\
    length validation_loss = 2 /\
    (forall it, it < 2 ->
       exists a b, nth_error training_loss it = Some (Some a) /\
                   nth_error validation_loss it = Some (Some b)) /\
    (1 <= 2 -> training m' = false) /\
    (2 = 0 -> m' = Demo.module0).
Proof.
  eexists _, _, _. split; [run_real|].
  eapply (@train_validate_records_every_epoch _ _ _ _ Demo.Adam Demo.backward
            Demo.Adam_step Demo.module0 _ Demo.data4 Demo.data4 2 2
            (1 / 1000)%R).
  run_real.
Defined.

Lemma train_validate_degenerate_arguments_witness :
  train_validate Demo.Adam Demo.backward Demo.Adam_step Demo.module0
                 Demo.data4 Demo.data4 3 0 (1 / 1000)%R
  = Raise ZeroDivisionError /\
  train_validate Demo.Adam Demo.backward Demo.Adam_step Demo.module0
                 Demo.data Demo.data 0 2 (1 / 1000)%R
  = Ok (Demo.module0, ([], [])).
Proof.
  split.
  - apply (proj1 (@train_validate_degenerate_arguments _ _ _ _ Demo.Adam
                    Demo.backward Demo.Adam_step Demo.module0 Demo.data4
                    Demo.data4 3 0 (1 / 1000)%R)).
    reflexivity.
  - apply (proj2 (@train_validate_degenerate_arguments _ _ _ _ Demo.Adam
                    Demo.backward Demo.Adam_step Demo.module0 Demo.data
                    Demo.data 0 2 (1 / 1000)%R)).
    discriminate.
Defined.

Lemma epoch_validation_loss_is_mean_witness :
  exists m' opt' tl' vl',
    epoch Demo.backward Demo.Adam_step Demo.data4 Demo.data4 1 2 2 2
          (Demo.module0, tt, [None], [None]) 0 = Ok (m', opt', tl', vl') /\
    0 < length [@None R] /\
    exists m1 l1 batch_losses v,
      train_loop Demo.backward Demo.Adam_step Demo.data4 1 2 2
                 Demo.module0 tt = Ok (m1, opt', l1) /\
      mapM (fun b => batch_loss (weights m1) (batch_of Demo.data4 b 2) 1)
           (range 2) = Ok batch_losses /\
      truediv (fold_left s_add batch_losses s_zero) 2 = Ok v /\
      nth_error vl' 0 = Some (Some v).
Proof.
  eexists _, _, _, _. split; [run_real|]. split; [simpl; lia|].
  eapply (@epoch_validation_loss_is_mean _ _ _ _ Demo.backward Demo.Adam_step
            Demo.data4 Demo.data4 1 2 2 2 Demo.module0 _ tt _
            [None] [None] _ _ 0).
  - run_real.
  - simpl; lia.
Defined.

Lemma energy_trace_alignment_witness :
  exists H qs ps,
    forward Demo.model Demo.q0 Demo.p0 (Some Demo.c0) 2 true
    = Ok (H, qs, ps) /\
    separable Demo.model = true /\
    forall t, t < 2 ->
      exists H_t q_t p_t K dK V F,
        nth_error H t = Some H_t /\
        nth_error qs t = Some q_t /\
        nth_error ps t = Some p_t /\
        call_K_net Demo.model p_t (Some Demo.c0) true = Ok (K, dK) /\
        call_V_net Demo.model q_t (Some Demo.c0) true = Ok (V, F) /\
        madd K V = Ok H_t.
Proof.
  eexists _, _, _. split; [run_real|]. split; [reflexivity|].
  eapply (proj1 (@energy_trace_alignment _ _ Demo.model Demo.q0 Demo.p0
                   (Some Demo.c0) 2 true _ _ _ _)).
  reflexivity.
  Unshelve. run_real.
Defined.

Lemma forward_total_nonseparable_witness :
  wf_nonseparable Demo.model2 1 1 /\
  has_shape (Tracked.values Demo.q0_grad) 1 1 /\
  has_shape (Tracked.values Demo.p0_grad) 1 1 /\
  has_shape Demo.c0 1 1 /\
  Tracked.requires_grad Demo.q0_grad = true /\
  Tracked.requires_grad Demo.p0_grad = true /\
  exists H qs ps,
    Tracked.forward Demo.model2 Demo.q0_grad Demo.p0_grad (Some Demo.c0) 3
                    true = Ok (H, qs, ps) /\
    forward Demo.model2 (Tracked.values Demo.q0_grad)
            (Tracked.values Demo.p0_grad) (Some Demo.c0) 3 true
    = Ok (H, qs, ps) /\
    length H = 3 /\ length qs = 3 /\ length ps = 3.
Proof.
  assert (Hs : has_shape (A:=R) [[0%R]] 1 1)
    by (split; [reflexivity|repeat constructor]).
  split; [exact Demo_model2_wf|]. repeat (split; [exact Hs|]).
  split; [reflexivity|]. split; [reflexivity|].
  exact (@forward_total_nonseparable _ _ Demo.model2 Demo.q0_grad
           Demo.p0_grad Demo.c0 3 true 1 1 1 Demo_model2_wf Hs Hs Hs eq_refl
           eq_refl).
Defined.

Lemma forward_without_params_raises_witness :
  has_shape (Tracked.values Demo.q0_grad) 1 1 /\
  has_shape (Tracked.values Demo.p0_grad) 1 1 /\ 1 <= 2 /\
  wf_separable Demo.model 1 1 /\
  Tracked.requires_grad Demo.p0_grad = true /\
  separable Demo.model2 = false /\
  Tracked.forward Demo.model Demo.q0_grad Demo.p0_grad None 2 true
  = Raise TypeError /\
  Tracked.forward Demo.model2 Demo.q0_grad Demo.p0_grad None 2 true
  = Raise TypeError.
Proof.
  assert (Hs : has_shape (A:=R) [[0%R]] 1 1)
    by (split; [reflexivity|repeat constructor]).
  split; [exact Hs|]. split; [exact Hs|]. split; [lia|].
  split; [exact Demo_model_wf|]. split; [reflexivity|].
  split; [reflexivity|]. split.
  - exact (proj1 (@forward_without_params_raises _ _ Demo.model Demo.q0_grad
                    Demo.p0_grad 2 true 1 1 Hs Hs (le_S 1 1 (le_n 1)))
             1 Demo_model_wf eq_refl).
  - exact (proj2 (@forward_without_params_raises _ _ Demo.model2 Demo.q0_grad
                    Demo.p0_grad 2 true 1 1 Hs Hs (le_S 1 1 (le_n 1)))
             eq_refl).
Defined.

(** Plain tensors: the separable model with an untracked momentum, and the
    non-separable model with an untracked position. *)
Lemma forward_untracked_raises_witness :
  has_shape (Tracked.values Demo.q0_plain) 1 1 /\
  has_shape (Tracked.values Demo.p0_plain) 1 1 /\
  has_shape Demo.c0 1 1 /\ 1 <= 2 /\
  wf_separable Demo.model 1 1 /\
  Tracked.requires_grad Demo.p0_plain = false /\
  wf_nonseparable Demo.model2 1 1 /\
  Tracked.requires_grad Demo.q0_plain && Tracked.requires_grad Demo.p0_grad
  = false /\
  Tracked.forward Demo.model Demo.q0_grad Demo.p0_plain (Some Demo.c0) 2 true
  = Raise RuntimeError /\
  Tracked.forward Demo.model2 Demo.q0_plain Demo.p0_grad (Some Demo.c0) 2
                  false = Raise RuntimeError.
Proof.
  assert (Hs : has_shape (A:=R) [[0%R]] 1 1)
    by (split; [reflexivity|repeat constructor]).
  split; [exact Hs|]. split; [exact Hs|]. split; [exact Hs|].
  split; [lia|]. split; [exact Demo_model_wf|]. split; [reflexivity|].
  split; [exact Demo_model2_wf|]. split; [reflexivity|]. split.
  - exact (proj1 (@forward_untracked_raises _ _ Demo.model Demo.q0_grad
                    Demo.p0_plain Demo.c0 2 true 1 1 1 Hs Hs Hs
                    (le_S 1 1 (le_n 1)))
             Demo_model_wf (or_introl eq_refl)).
  - exact (proj2 (@forward_untracked_raises _ _ Demo.model2 Demo.q0_plain
                    Demo.p0_grad Demo.c0 2 false 1 1 1 Hs Hs Hs
                    (le_S 1 1 (le_n 1)))
             Demo_model2_wf eq_refl).
Defined.

(** [adaptable_sympRNN(2, 2, [3, 4], 1, dt=0.1, separable=True)] *)
Lemma constructor_builds_well_formed_model_witness :
  Linear_contract Demo.new_Linear /\
  length [3; 4] = Nat.max 2 1 /\
  exists self g',
    adaptable_sympRNN_init Demo.new_Linear 2 2 [3; 4] 1 (1 / 10)%R true 0
    = Ok (self, g') /\
    dt self = (1 / 10)%R /\
    separable self = true /\
    (true = true -> wf_separable self (2 / 2) 1) /\
    (true = false -> 2 = 2 * (2 / 2) -> wf_nonseparable self (2 / 2) 1).
Proof.
  split; [exact Demo_new_Linear_contract|]. split; [reflexivity|].
  exact (@constructor_builds_well_formed_model _ _ Demo.new_Linear 2 2
           [3; 4] 1 (1 / 10)%R true 0 Demo_new_Linear_contract eq_refl).
Defined.

(** [adaptable_sympRNN(2, 3, [3, 4], 1, dt=0.1, ...)]: three hidden layers,
    two widths. *)
Lemma constructor_index_error_witness :
  length [3; 4] < Nat.max 3 1 /\
  adaptable_HNN_init Demo.new_Linear 2 3 [3; 4] 1 0 = Raise IndexError /\
  adaptable_partial_HNN_init Demo.new_Linear 2 3 [3; 4] 1 true 0
  = Raise IndexError /\
  adaptable_sympRNN_init Demo.new_Linear 2 3 [3; 4] 1 (1 / 10)%R true 0
  = Raise IndexError.
Proof.
  split; [simpl; lia|].
  apply (@constructor_index_error _ _ Demo.new_Linear 2 3 [3; 4] 1
           (1 / 10)%R true 0).
  simpl; lia.
Defined.

Lemma Demo_K_net_wf : wf_kinetic Demo.K_net 1.
Proof.
  split; [reflexivity|]. exists 1. simpl.
  unfold wf_Linear; simpl; repeat split; repeat constructor.
Qed.

Lemma Demo_V_net_wf : wf_potential Demo.V_net 1 1.
Proof.
  split; [reflexivity|]. exists 1. simpl.
  unfold wf_Linear; simpl; repeat split; repeat constructor.
Qed.

Lemma Demo_HNN_wf : wf_full Demo.HNN 1 1.
Proof.
  exists 1. simpl.
  unfold wf_Linear; simpl; repeat split; repeat constructor.
Qed.

Lemma Demo_two_rows (a b : R) : has_shape (A:=R) [[a]; [b]] 2 1.
Proof. split; [reflexivity|repeat constructor]. Qed.

(** The kinetic estimator on the batch of momenta 0 and 1, row 1. *)
Lemma kinetic_gradient_correct_witness :
  wf_kinetic Demo.K_net 1 /\
  has_shape (A:=R) [[0%R]; [1%R]] 2 1 /\
  exists K dK,
    adaptable_partial_HNN.forward Demo.K_net [[0%R]; [1%R]] None true
    = Ok (K, dK) /\
    nth_error [[0%R]; [1%R]] 1 = Some [1%R] /\
    nth_error K 1 = Some [kinetic_energy Demo.K_net [1%R]] /\
    exists g,
      nth_error dK 1 = Some g /\
      forall v, length v = 1 ->
        derivable_pt_lim (fun t => kinetic_energy Demo.K_net (line [1%R] v t))
                         0 (dot g v).
Proof.
  split; [exact Demo_K_net_wf|]. split; [apply Demo_two_rows|].
  eexists _, _. split; [run_real|]. split; [reflexivity|].
  apply (@kinetic_gradient_correct Demo.K_net [[0%R]; [1%R]] None true _ _
           2 1 1 [1%R] Demo_K_net_wf (Demo_two_rows 0 1)).
  - run_real.
  - reflexivity.
Defined.

(** The potential estimator on the batch of positions 0 and 1 with
    parameters 0 and 2, row 1. *)
Lemma potential_force_correct_witness :
  wf_potential Demo.V_net 1 1 /\
  has_shape (A:=R) [[0%R]; [1%R]] 2 1 /\
  has_shape (A:=R) [[0%R]; [2%R]] 2 1 /\
  exists V F,
    adaptable_partial_HNN.forward Demo.V_net [[0%R]; [1%R]]
      (Some [[0%R]; [2%R]]) true = Ok (V, F) /\
    nth_error [[0%R]; [1%R]] 1 = Some [1%R] /\
    nth_error [[0%R]; [2%R]] 1 = Some [2%R] /\
    nth_error V 1 = Some [potential_energy Demo.V_net [1%R] [2%R]] /\
    exists f,
      nth_error F 1 = Some f /\
      forall v, length v = 1 ->
        derivable_pt_lim
          (fun t => potential_energy Demo.V_net (line [1%R] v t) [2%R])
          0 (- dot f v)%R.
Proof.
  split; [exact Demo_V_net_wf|]. split; [apply Demo_two_rows|].
  split; [apply Demo_two_rows|].
  eexists _, _. split; [run_real|]. split; [reflexivity|].
  split; [reflexivity|].
  apply (@potential_force_correct Demo.V_net [[0%R]; [1%R]] [[0%R]; [2%R]]
           true _ _ 2 1 1 1 [1%R] [2%R] Demo_V_net_wf (Demo_two_rows 0 1)
           (Demo_two_rows 0 2)).
  - run_real.
  - reflexivity.
  - reflexivity.
Defined.

(** The full estimator on the batch of states (0, 0) and (1, 3) with
    parameters 0 and 2, row 1. *)
Lemma hamiltonian_gradients_correct_witness :
  wf_full Demo.HNN 1 1 /\
  has_shape (A:=R) [[0%R]; [1%R]] 2 1 /\
  has_shape (A:=R) [[0%R]; [3%R]] 2 1 /\
  has_shape (A:=R) [[0%R]; [2%R]] 2 1 /\
  exists H mdH_dq dH_dp,
    adaptable_HNN.forward Demo.HNN [[0%R]; [1%R]] [[0%R]; [3%R]]
      (Some [[0%R]; [2%R]]) false = Ok (H, mdH_dq, dH_dp) /\
    nth_error [[0%R]; [1%R]] 1 = Some [1%R] /\
    nth_error [[0%R]; [3%R]] 1 = Some [3%R] /\
    nth_error [[0%R]; [2%R]] 1 = Some [2%R] /\
    nth_error H 1 = Some [hamiltonian Demo.HNN [1%R] [3%R] [2%R]] /\
    exists fq fp,
      nth_error mdH_dq 1 = Some fq /\
      nth_error dH_dp 1 = Some fp /\
      forall v, length v = 1 ->
        derivable_pt_lim
          (fun t => hamiltonian Demo.HNN (line [1%R] v t) [3%R] [2%R])
          0 (- dot fq v)%R /\
        derivable_pt_lim
          (fun t => hamiltonian Demo.HNN [1%R] (line [3%R] v t) [2%R])
          0 (dot fp v).
Proof.
  split; [exact Demo_HNN_wf|]. split; [apply Demo_two_rows|].
  split; [apply Demo_two_rows|]. split; [apply Demo_two_rows|].
  eexists _, _, _. split; [run_real|]. split; [reflexivity|].
  split; [reflexivity|]. split; [reflexivity|].
  apply (@hamiltonian_gradients_correct Demo.HNN [[0%R]; [1%R]]
           [[0%R]; [3%R]] [[0%R]; [2%R]] false _ _ _ 2 1 1 1 [1%R] [3%R]
           [2%R] Demo_HNN_wf (Demo_two_rows 0 1) (Demo_two_rows 0 3)
           (Demo_two_rows 0 2)).
  - run_real.
  - reflexivity.
  - reflexivity.
  - reflexivity.
Defined.

(** [adaptable_sympRNN(2, 1, [3, 4], 1, dt=0.1, separable=True)]: one hidden
    layer, two widths. *)
Lemma surplus_widths_break_forward_witness :
  Linear_contract Demo.new_Linear /\
  nth_error [3; 4] (Nat.max 1 1 - 1) = Some 3 /\
  nth_error [3; 4] (length [3; 4] - 1) = Some 4 /\
  3 <> 4 /\
  (true = false -> 2 = 2 * (2 / 2)) /\
  exists self g',
    adaptable_sympRNN_init Demo.new_Linear 2 1 [3; 4] 1 (1 / 10)%R true 0
    = Ok (self, g') /\
    forall (q0 p0 params : mat R) (T batch : nat) (training : bool),
      1 <= T -> 1 <= batch ->
      has_shape q0 batch (2 / 2) ->
      has_shape p0 batch (2 / 2) ->
      has_shape params batch 1 ->
      forward self q0 p0 (Some params) T training = Raise RuntimeError.
Proof.
  split; [exact Demo_new_Linear_contract|]. split; [reflexivity|].
  split; [reflexivity|]. split; [lia|]. split; [discriminate|].
  exact (@surplus_widths_break_forward _ _ _ Demo.new_Linear 2 1 [3; 4] 1
           (1 / 10)%R true 0 3 4 Demo_new_Linear_contract eq_refl eq_refl
           ltac:(lia) ltac:(discriminate)).
Defined.

(** Four samples, [batch_size = -2], three epochs. *)
Lemma negative_batch_size_trains_nothing_witness :
  (-2 < 0)%Z /\
  (- -2 <= Z.of_nat (length (q_input Demo.data4)))%Z /\
  (- -2 <= Z.of_nat (length (q_input Demo.data4)))%Z /\
  exists m' num_train num_valid,
    num_batches (length (q_input Demo.data4)) (-2) = Ok num_train /\
    num_batches (length (q_input Demo.data4)) (-2) = Ok num_valid /\
    train_validate Demo.Adam Demo.backward Demo.Adam_step Demo.module0
                   Demo.data4 Demo.data4 3 (-2) (1 / 1000)%R
    = Ok (m', (repeat (Some (s_div s_zero (s_of_Z num_train))) 3,
               repeat (Some (s_div s_zero (s_of_Z num_valid))) 3)) /\
    weights m' = weights Demo.module0 /\ grad m' = grad Demo.module0.
Proof.
  split; [lia|]. split; [simpl; lia|]. split; [simpl; lia|].
  exact (@negative_batch_size_trains_nothing _ _ _ _ Demo.Adam Demo.backward
           Demo.Adam_step Demo.module0 Demo.data4 Demo.data4 3 (-2)
           (1 / 1000)%R ltac:(lia) ltac:(simpl; lia) ltac:(simpl; lia)).
Defined.

(** Four samples and [batch_size = 2]: two batches, rows 0..2; sample 3 is
    never read. *)
Lemma unread_rows_are_ignored_witness :
  (0 < 2)%Z /\
  same_leading_rows Demo.data4 Demo.data4_alt
    (reachable_rows (length (q_input Demo.data4)) 2) /\
  train_validate Demo.Adam Demo.backward Demo.Adam_step Demo.module0
                 Demo.data4 Demo.data4 2 2 (1 / 1000)%R
  = train_validate Demo.Adam Demo.backward Demo.Adam_step Demo.module0
                   Demo.data4_alt Demo.data4_alt 2 2 (1 / 1000)%R.
Proof.
  assert (Hs : same_leading_rows Demo.data4 Demo.data4_alt
                 (reachable_rows (length (q_input Demo.data4)) 2))
    by (split; reflexivity).
  split; [lia|]. split; [exact Hs|].
  exact (@unread_rows_are_ignored _ _ _ _ Demo.Adam Demo.backward
           Demo.Adam_step Demo.module0 Demo.data4 Demo.data4_alt Demo.data4
           Demo.data4_alt 2 2 (1 / 1000)%R ltac:(lia) Hs Hs).
Defined.

End Runs.
